(** * Mercaz Daf Yomi transcript extractor: the resumable batch pipeline

    A shallow embedding of [enhanced_youtube_extractor.py]
    (class [MercazDafYomiExtractor]) and the properties of its parsers,
    classifier, progress store and batch processor.

    Python strings are modelled by [string]; a character is read as a code
    point in U+0000..U+00FF.  On that range [\d] is exactly [0-9], and
    [str.isspace] holds of 9..13, 28..32, 133 and 160. *)

From Stdlib Require Import List String Ascii ZArith Bool Lia Arith Sorted.
From Stdlib Require Import Permutation.
Import ListNotations.
Local Open Scope string_scope.
Local Open Scope Z_scope.

(** ** Python strings *)

Module PyStr.

Definition code (c : ascii) : nat := nat_of_ascii c.

(** [c.isdigit()] / the regex class [\d]. *)
Definition is_digit (c : ascii) : bool :=
  (48 <=? code c)%nat && (code c <=? 57)%nat.

(** [c.isspace()]. *)
Definition is_space (c : ascii) : bool :=
  let n := code c in
  ((9 <=? n)%nat && (n <=? 13)%nat) || ((28 <=? n)%nat && (n <=? 32)%nat)
  || (n =? 133)%nat || (n =? 160)%nat.

(** [c.lower()]: A-Z and the Latin-1 capitals (U+00D7 is the times sign). *)
Definition lower_char (c : ascii) : ascii :=
  let n := code c in
  if ((65 <=? n)%nat && (n <=? 90)%nat)
     || ((192 <=? n)%nat && (n <=? 222)%nat && negb (n =? 215)%nat)
  then ascii_of_nat (n + 32) else c.

Fixpoint lower (s : string) : string :=
  match s with
  | EmptyString => EmptyString
  | String c r => String (lower_char c) (lower r)
  end.

(** [s.startswith(p)]. *)
Fixpoint startswith (p s : string) : bool :=
  match p, s with
  | EmptyString, _ => true
  | String a p', String b s' => Ascii.eqb a b && startswith p' s'
  | String _ _, EmptyString => false
  end.

(** [p in s]: substring test; the empty pattern is in every string. *)
Fixpoint str_in (p s : string) : bool :=
  startswith p s
  || match s with
     | EmptyString => false
     | String _ s' => str_in p s'
     end.

Fixpoint lstrip (s : string) : string :=
  match s with
  | EmptyString => EmptyString
  | String c r => if is_space c then lstrip r else s
  end.

Fixpoint rstrip (s : string) : string :=
  match s with
  | EmptyString => EmptyString
  | String c r =>
      match rstrip r with
      | EmptyString => if is_space c then EmptyString else String c EmptyString
      | r' => String c r'
      end
  end.

(** [s.strip()]. *)
Definition strip (s : string) : string := rstrip (lstrip s).

(** [s.split()]: the maximal runs of non-space characters. *)
Fixpoint split_go (cur : option string) (s : string) : list string :=
  match s with
  | EmptyString => match cur with Some w => [w] | None => [] end
  | String c r =>
      if is_space c then
        match cur with
        | Some w => w :: split_go None r
        | None => split_go None r
        end
      else
        split_go (Some (match cur with
                        | Some w => w ++ String c EmptyString
                        | None => String c EmptyString
                        end)) r
  end.

Definition split (s : string) : list string := split_go None s.

(** Python truthiness of a string. *)
Definition truthy (s : string) : bool :=
  match s with EmptyString => false | String _ _ => true end.

Fixpoint all_chars (f : ascii -> bool) (s : string) : bool :=
  match s with
  | EmptyString => true
  | String c r => f c && all_chars f r
  end.

(** [int(s)] on a string of decimal digits. *)
Fixpoint int_acc (acc : Z) (s : string) : Z :=
  match s with
  | EmptyString => acc
  | String c r => int_acc (10 * acc + (Z.of_nat (code c) - 48)) r
  end.

Definition int_of_digits (s : string) : Z := int_acc 0 s.

End PyStr.

Import PyStr.

(** ** Duration parser ([parse_duration]) *)

(** The maximal run of digits at the head of [s], and what follows it. *)
Fixpoint span_digits (s : string) : string * string :=
  match s with
  | EmptyString => (EmptyString, EmptyString)
  | String c r =>
      if is_digit c then
        let '(ds, rest) := span_digits r in (String c ds, rest)
      else (EmptyString, s)
  end.

(** One optional group [(?:(\d+)U)?] matched at the head of [s]: the capture
    and the unconsumed text.  [\d+] is greedy and a shorter run of digits is
    followed by a digit, never by the unit letter, so the group takes part in
    the match exactly when the maximal run is non-empty and followed by [u];
    the groups after it can all match empty, so the matcher never gives a
    taken group back. *)
Definition match_unit (u : ascii) (s : string) : option string * string :=
  match span_digits s with
  | (String d ds, String c rest) =>
      if Ascii.eqb c u then (Some (String d ds), rest) else (None, s)
  | _ => (None, s)
  end.

(** [re.match(r'PT(?:(\d+)H)?(?:(\d+)M)?(?:(\d+)S)?', s)]: the three groups,
    or [None] when [s] does not start with [PT]. *)
Definition re_match_duration (s : string)
  : option (option string * option string * option string) :=
  match s with
  | String c1 (String c2 r) =>
      if Ascii.eqb c1 "P" && Ascii.eqb c2 "T" then
        let '(h, r1) := match_unit "H" r in
        let '(m, r2) := match_unit "M" r1 in
        let '(sec, _) := match_unit "S" r2 in
        Some (h, m, sec)
      else None
  | _ => None
  end.

(** [int(match.group(i) or 0)]. *)
Definition group_int (g : option string) : Z :=
  match g with
  | Some ds => if truthy ds then int_of_digits ds else 0
  | None => 0
  end.

Definition parse_duration (duration_str : string) : Z :=
  match re_match_duration duration_str with
  | None => 0
  | Some (h, m, sec) =>
      let hours := group_int h in
      let minutes := group_int m in
      let seconds := group_int sec in
      hours * 3600 + minutes * 60 + seconds
  end.

(** ** Classifier ([classify_video]) *)

Definition PatternTable := list (string * list string).

(** [default_config['tractate_patterns']], in declaration order. *)
Definition default_tractate_patterns : PatternTable :=
  [ ("Berachos", ["berachos"; "berakhot"]);
    ("Shabbos", ["shabbos"; "shabbat"]);
    ("Eruvin", ["eruvin"]);
    ("Pesachim", ["pesachim"]);
    ("Shekalim", ["shekalim"]);
    ("Yoma", ["yoma"]);
    ("Sukkah", ["sukkah"]);
    ("Beitzah", ["beitzah"; "beitza"]);
    ("Rosh_Hashanah", ["rosh hashanah"; "rosh_hashanah"]);
    ("Taanis", ["taanis"; "taanit"]);
    ("Megillah", ["megillah"]);
    ("Moed_Katan", ["moed katan"; "moed_katan"]);
    ("Chagigah", ["chagigah"]);
    ("Yevamos", ["yevamos"; "yevamot"]);
    ("Kesubos", ["kesubos"; "ketubbot"]);
    ("Nedarim", ["nedarim"]);
    ("Nazir", ["nazir"]);
    ("Sotah", ["sotah"]);
    ("Gittin", ["gittin"]);
    ("Kiddushin", ["kiddushin"]);
    ("Bava_Kamma", ["bava kamma"; "bava_kamma"]);
    ("Bava_Metzia", ["bava metzia"; "bava_metzia"]);
    ("Bava_Basra", ["bava basra"; "bava_basra"]);
    ("Sanhedrin", ["sanhedrin"]);
    ("Makkos", ["makkos"; "makkot"]);
    ("Shevuos", ["shevuos"; "shevuot"]);
    ("Avodah_Zarah", ["avodah zarah"; "avodah_zarah"]);
    ("Horayos", ["horayos"; "horayot"]);
    ("Zevachim", ["zevachim"]);
    ("Menachos", ["menachos"; "menachot"]);
    ("Chullin", ["chullin"]);
    ("Bechorot", ["bechorot"; "bechoros"]);
    ("Arachin", ["arachin"]);
    ("Temurah", ["temurah"]);
    ("Kerisos", ["kerisos"; "keritot"]);
    ("Meilah", ["meilah"]);
    ("Kinnim", ["kinnim"]);
    ("Tamid", ["tamid"]);
    ("Midos", ["midos"; "midot"]);
    ("Niddah", ["niddah"]) ].

(** [f"{title_lower} {description_lower}"]. *)
Definition combined_text (title description : string) : string :=
  lower title ++ " " ++ lower description.

(** The series type chosen once a tractate pattern has matched. *)
Definition series_type_of (combined : string) : string :=
  if str_in "daf yomi" combined then "Daf_Yomi"
  else if str_in "shiur" combined then "Shiurim"
  else if str_in "lecture" combined then "Lectures"
  else "General".

(** The nested [for] loops: the first table entry one of whose patterns is a
    substring of the text. *)
Fixpoint first_tractate (table : PatternTable) (combined : string)
  : option string :=
  match table with
  | [] => None
  | (tractate, patterns) :: rest =>
      if existsb (fun pattern => str_in pattern combined) patterns
      then Some tractate
      else first_tractate rest combined
  end.

Definition override_keywords : list string :=
  ["special"; "event"; "announcement"].

Definition has_override_keyword (combined : string) : bool :=
  existsb (fun word => str_in word combined) override_keywords.

Definition classify_video (table : PatternTable) (title description : string)
  : string * string :=
  let combined := combined_text title description in
  match first_tractate table combined with
  | Some tractate => (tractate, series_type_of combined)
  | None =>
      if str_in "daf yomi" combined then ("Unclassified", "Daf_Yomi")
      else if has_override_keyword combined then ("Special_Series", "Events")
      else ("Unclassified", "General")
  end.

(** ** Python results and the progress store *)

Inductive pyresult (A : Type) : Type :=
| Ok (a : A)
| Raise (msg : string).
Arguments Ok {A} a.
Arguments Raise {A} msg.

(** [try: body except Exception as e: handler(e)]. *)
Definition try_except {A : Type} (body : pyresult A)
  (handler : string -> pyresult A) : pyresult A :=
  match body with
  | Ok a => Ok a
  | Raise e => handler e
  end.

(** The progress dictionary. *)
Record Progress : Type := mkProgress {
  completed_videos : list string;
  failed_videos : list string;
  last_batch : Z;
  total_processed : Z;
  start_time : option string
}.

Definition fresh_progress (start : option string) : Progress :=
  mkProgress [] [] 0 0 start.

(** What [extraction_progress.json] can hold: bytes that cannot be read
    ([open] or decoding raises), bytes [json.load] rejects, or the dictionary
    an earlier [save_progress] wrote. *)
Inductive FileContent : Type :=
| Unreadable (err : string)
| Unparseable (err : string)
| Json (p : Progress).

Inductive FileState : Type :=
| Absent
| Present (c : FileContent).

(** [os.path.exists(self.progress_file)]. *)
Definition path_exists (f : FileState) : bool :=
  match f with
  | Absent => false
  | Present _ => true
  end.

(** [with open(self.progress_file, 'r') as f: return json.load(f)]. *)
Definition open_json_load (f : FileState) : pyresult Progress :=
  match f with
  | Absent => Raise "FileNotFoundError"
  | Present (Unreadable err) => Raise err
  | Present (Unparseable err) => Raise err
  | Present (Json p) => Ok p
  end.

Definition load_progress (f : FileState) : pyresult Progress :=
  if negb (path_exists f) then Ok (fresh_progress None)
  else try_except (open_json_load f) (fun _ => Ok (fresh_progress None)).

(** ** Items *)

(** The keys [get_video_metadata] adds to a video dictionary. *)
Record Detail : Type := mkDetail {
  d_duration : string;
  d_duration_seconds : Z;
  d_view_count : Z;
  d_like_count : Z;
  d_comment_count : Z;
  d_channel_title : string;
  d_tags : list string
}.

Record Video : Type := mkVideo {
  v_video_id : string;
  v_title : string;
  v_description : string;
  v_published_at : string;
  v_thumbnail_url : string;
  v_url : string;
  v_detail : option Detail
}.

(** One item of a [videos().list] response; the statistics are optional. *)
Record ApiVideoItem : Type := mkApiVideoItem {
  snippet_title : string;
  snippet_description : string;
  snippet_publishedAt : string;
  snippet_thumbnail : string;
  snippet_channelTitle : string;
  snippet_tags : list string;
  contentDetails_duration : string;
  statistics_viewCount : option Z;
  statistics_likeCount : option Z;
  statistics_commentCount : option Z
}.

Record Metadata : Type := mkMetadata {
  m_video_id : string;
  m_title : string;
  m_description : string;
  m_published_at : string;
  m_thumbnail_url : string;
  m_detail : Detail
}.

Definition metadata_of_item (video_id : string) (item : ApiVideoItem)
  : Metadata :=
  let duration_str := contentDetails_duration item in
  mkMetadata video_id (snippet_title item) (snippet_description item)
    (snippet_publishedAt item) (snippet_thumbnail item)
    (mkDetail duration_str (parse_duration duration_str)
       (match statistics_viewCount item with Some n => n | None => 0 end)
       (match statistics_likeCount item with Some n => n | None => 0 end)
       (match statistics_commentCount item with Some n => n | None => 0 end)
       (snippet_channelTitle item) (snippet_tags item)).

(** [video_data.update(detailed_metadata)]. *)
Definition update_video (video_data : Video) (m : Metadata) : Video :=
  mkVideo (m_video_id m) (m_title m) (m_description m) (m_published_at m)
    (m_thumbnail_url m) (v_url video_data) (Some (m_detail m)).

(** [video_id in progress['completed_videos']]. *)
Definition id_in (video_id : string) (l : list string) : bool :=
  existsb (String.eqb video_id) l.

(** [range(0, stop, step)] for [stop >= 0]; empty for a negative step. *)
Definition py_range (stop step : Z) : list Z :=
  if step <=? 0 then []
  else map (fun k => Z.of_nat k * step)
           (seq 0 (Z.to_nat ((stop + step - 1) / step))).

(** [l[i:j]] for [0 <= i]. *)
Definition slice {A : Type} (l : list A) (i j : Z) : list A :=
  firstn (Z.to_nat (j - i)) (skipn (Z.to_nat i) l).

(** ** Configuration and observable events *)

Record Config : Type := mkConfig {
  batch_size : Z;
  rate_limit_seconds : Z;
  max_retries : Z;
  organize_by_tractate : bool;
  tractate_patterns : PatternTable
}.

(** [self]: the configuration and whether the Data API client was built. *)
Record Extractor : Type := mkExtractor {
  config : Config;
  youtube_service : bool
}.

(** The calls and log lines of a run, in the order they happen. *)
Inductive event : Type :=
| LogBatch (batch_num total_batches : Z)
| LogSkip (video_id : string)
| LogProcessing (video_id : string)
| CallMetadata (video_id : string)
| CallExtract (video_id : string) (attempt : nat)
| SleepBackoff (seconds : Z)
| CallSave (video_id : string)
| SleepRateLimit (seconds : Z)
| SaveProgress (p : Progress)
| SleepBatch (seconds : Z)
| GenerateCatalog
| RenameProgress.


(** The items that entered the per-item state machine, in order. *)
Fixpoint entered (tr : list event) : list string :=
  match tr with
  | [] => []
  | LogProcessing v :: rest => v :: entered rest
  | _ :: rest => entered rest
  end.

(** The batches that were opened, in order. *)
Fixpoint opened_batches (tr : list event) : list Z :=
  match tr with
  | [] => []
  | LogBatch n _ :: rest => n :: opened_batches rest
  | _ :: rest => opened_batches rest
  end.


(** ** Transcripts and records *)

Set Implicit Arguments.

Section Data.

(** Transcript offsets are Python floats; only their sum is ever taken. *)
Variable pynum : Type.

Record Entry : Type := mkEntry {
  e_text : string;
  e_start : pynum;
  e_duration : pynum
}.

(** A transcript handle: its language, its kind, and what [fetch()] gives. *)
Record Transcript : Type := mkTranscript {
  language_code : string;
  is_generated : bool;
  fetch : pyresult (list Entry)
}.

(** The [result] dictionary of [extract_transcript]. *)
Record ExtractionResult : Type := mkExtraction {
  success : bool;
  transcript_type : option string;
  language : option string;
  error : option string;
  word_count : nat;
  duration_covered : pynum
}.

(** [transcript_list.find_transcript([lang])]; [None] stands for the
    exception the caller swallows. *)
Definition find_transcript (transcript_list : list Transcript) (lang : string)
  : option Transcript :=
  find (fun t => String.eqb (language_code t) lang) transcript_list.

Fixpoint preferred_transcript (transcript_list : list Transcript)
  (langs : list string) : option (string * Transcript) :=
  match langs with
  | [] => None
  | lang :: rest =>
      match find_transcript transcript_list lang with
      | Some t => Some (lang, t)
      | None => preferred_transcript transcript_list rest
      end
  end.

(** [for entry in transcript_data: full_text += entry['text'] + " "]. *)
Fixpoint flatten_text (transcript_data : list Entry) (full_text : string)
  : string :=
  match transcript_data with
  | [] => full_text
  | entry :: rest => flatten_text rest (full_text ++ e_text entry ++ " ")
  end.

(** A row of the master catalog. *)
Record ResultRecord : Type := mkResult {
  r_video_id : string;
  r_title : string;
  r_url : string;
  r_published_at : string;
  r_duration : option string;
  r_view_count : Z;
  r_transcript_file : string;
  r_transcript_type : option string;
  r_language : option string;
  r_word_count : nat;
  r_duration_covered : pynum;
  r_tractate : string;
  r_series_type : string;
  r_status : string;
  r_processed_at : string
}.

(** What [save_transcript] hands to the file system. *)
Record Artifact : Type := mkArtifact {
  a_video : Video;
  a_tractate : string;
  a_series_type : string;
  a_text : string;
  a_data : option (list Entry);
  a_metadata : ExtractionResult
}.

End Data.

Unset Implicit Arguments.

Definition language_priorities : list string :=
  ["en"; "en-US"; "en-GB"; "he"; "iw"].

(** An element of [self.failed_videos]. *)
Record FailureRecord : Type := mkFailure {
  f_video_id : string;
  f_title : string;
  f_error : option string;
  f_timestamp : string
}.

(** The outside world: the clock, the file system and the two remote
    services.  Every call may change it. *)
Record Env : Type := mkEnv {
  World : Type;
  pynum : Type;
  num_add : pynum -> pynum -> pynum;
  num_zero : pynum;
  now : World -> string;
  sleep : Z -> World -> World;
  progress_file : World -> FileState;
  write_progress_file : Progress -> World -> World;
  rename_progress_file : World -> World;
  playlist_items : World -> list Video * World;
  videos_list : string -> World -> pyresult (list ApiVideoItem) * World;
  list_transcripts :
    string -> World -> pyresult (list (Transcript pynum)) * World;
  write_transcript_file : Artifact pynum -> World -> pyresult string * World;
  write_reports :
    list (ResultRecord pynum) -> list FailureRecord -> World
    -> pyresult unit * World
}.

Section Pipeline.

Variable E : Env.

(** [transcript_data[-1]['start'] + transcript_data[-1]['duration']]. *)
Fixpoint last_end (transcript_data : list (Entry (pynum E))) : pynum E :=
  match transcript_data with
  | [] => num_zero E
  | [entry] => num_add E (e_start entry) (e_duration entry)
  | _ :: rest => last_end rest
  end.

(** [extract_transcript], given what [list_transcripts(video_id)] answers.
    Every exception raised inside is caught by the method itself. *)
Definition extract_transcript (listing : pyresult (list (Transcript (pynum E))))
  : option string * option (list (Entry (pynum E)))
    * ExtractionResult (pynum E) :=
  match listing with
  | Raise e =>
      (None, None, mkExtraction false None None (Some e) 0 (num_zero E))
  | Ok transcript_list =>
      let chosen :=
        match preferred_transcript transcript_list language_priorities with
        | Some (lang, t) => Some (lang, t)
        | None =>
            match transcript_list with
            | t :: _ => Some (language_code t, t)
            | [] => None
            end
        end in
      match chosen with
      | None =>
          (None, None,
           mkExtraction false None None (Some "No transcripts available")
             0 (num_zero E))
      | Some (lang, transcript) =>
          let ttype :=
            if negb (is_generated transcript) then "manual"
            else "auto-generated" in
          match fetch transcript with
          | Raise e =>
              (None, None,
               mkExtraction false (Some ttype) (Some lang) (Some e) 0
                 (num_zero E))
          | Ok [] =>
              (None, None,
               mkExtraction false (Some ttype) (Some lang)
                 (Some "Empty transcript data") 0 (num_zero E))
          | Ok transcript_data =>
              let full_text := strip (flatten_text transcript_data "") in
              (Some full_text, Some transcript_data,
               mkExtraction true (Some ttype) (Some lang) None
                 (List.length (split full_text)) (last_end transcript_data))
          end
      end
  end.

(** The mutable state of a run: the world, the shared [progress] dictionary,
    [self.failed_videos], and the events so far. *)
Record State : Type := mkState {
  world : World E;
  progress : Progress;
  self_failed_videos : list FailureRecord;
  trace : list event
}.

(** The catalog rows gathered so far. *)
Local Abbreviation Results := (list (ResultRecord (pynum E))).

Definition emit (e : event) (st : State) : State :=
  mkState (world st) (progress st) (self_failed_videos st) (trace st ++ [e]).

Definition set_world (w : World E) (st : State) : State :=
  mkState w (progress st) (self_failed_videos st) (trace st).

Definition set_progress (p : Progress) (st : State) : State :=
  mkState (world st) p (self_failed_videos st) (trace st).

Definition do_sleep (seconds : Z) (st : State) : State :=
  set_world (sleep E seconds (world st)) st.

Definition append_completed (video_id : string) (p : Progress) : Progress :=
  mkProgress (completed_videos p ++ [video_id]) (failed_videos p)
    (last_batch p) (total_processed p + 1) (start_time p).

Definition append_failed (video_id : string) (p : Progress) : Progress :=
  mkProgress (completed_videos p) (failed_videos p ++ [video_id])
    (last_batch p) (total_processed p) (start_time p).

Definition set_last_batch (batch_num : Z) (p : Progress) : Progress :=
  mkProgress (completed_videos p) (failed_videos p) batch_num
    (total_processed p) (start_time p).

Definition set_start_time (t : string) (p : Progress) : Progress :=
  mkProgress (completed_videos p) (failed_videos p) (last_batch p)
    (total_processed p) (Some t).

Definition add_failure (f : FailureRecord) (st : State) : State :=
  mkState (world st) (progress st) (self_failed_videos st ++ [f]) (trace st).

(** [get_video_metadata]: [None] without a client, on an empty response and
    on any exception. *)
Definition get_video_metadata (self : Extractor) (video_id : string)
  (st : State) : option Metadata * State :=
  if negb (youtube_service self) then (None, st)
  else
    let '(response, w) := videos_list E video_id (world st) in
    let st := set_world w st in
    match response with
    | Ok (item :: _) => (Some (metadata_of_item video_id item), st)
    | Ok [] => (None, st)
    | Raise _ => (None, st)
    end.

(** The three variables the retry loop assigns: [transcript_text],
    [transcript_data], [extraction_metadata]. *)
Definition Extraction : Type :=
  (option string * option (list (Entry (pynum E)))
   * option (ExtractionResult (pynum E)))%type.

(** [for attempt in range(max_retries)], from [attempt] on with
    [attempts_left] iterations to go.  [extract_transcript] raises nothing,
    so the loop's own [except] clause is never entered. *)
Fixpoint retry_loop (self : Extractor) (video_id : string)
  (attempts_left attempt : nat) (cur : Extraction) (st : State)
  : Extraction * State :=
  match attempts_left with
  | O => (cur, st)
  | S n =>
      let st := emit (CallExtract video_id attempt) st in
      let '(listing, w) := list_transcripts E video_id (world st) in
      let st := set_world w st in
      let '(transcript_text, transcript_data, extraction_metadata) :=
        extract_transcript listing in
      if success extraction_metadata then
        ((transcript_text, transcript_data, Some extraction_metadata), st)
      else
        let st :=
          if Z.of_nat attempt <? max_retries (config self) - 1
          then emit (SleepBackoff (2 ^ Z.of_nat attempt))
                 (do_sleep (2 ^ Z.of_nat attempt) st)
          else st in
        retry_loop self video_id n (S attempt)
          (transcript_text, transcript_data, Some extraction_metadata) st
  end.

Definition extract_with_retries (self : Extractor) (video_id : string)
  (st : State) : Extraction * State :=
  retry_loop self video_id (Z.to_nat (max_retries (config self))) 0
    (None, None, None) st.

(** [save_transcript]: classify, then write the file; the write may raise. *)
Definition save_transcript (self : Extractor) (video_data : Video)
  (transcript_text : string)
  (transcript_data : option (list (Entry (pynum E))))
  (metadata : ExtractionResult (pynum E)) (st : State)
  : pyresult string * State :=
  let '(tractate, series_type) :=
    classify_video (tractate_patterns (config self))
      (v_title video_data) (v_description video_data) in
  let '(r, w) :=
    write_transcript_file E
      (mkArtifact video_data tractate series_type transcript_text
         transcript_data metadata) (world st) in
  (r, set_world w st).

(** [save_progress]: the write is attempted and its failure only logged. *)
Definition save_progress (p : Progress) (st : State) : State :=
  emit (SaveProgress p) (set_world (write_progress_file E p (world st)) st).

(** The [if transcript_text and extraction_metadata['success']] branch. *)
Definition on_success (self : Extractor) (video_id : string)
  (video_data : Video) (transcript_text : string)
  (transcript_data : option (list (Entry (pynum E))))
  (extraction_metadata : ExtractionResult (pynum E))
  (acc : State * Results)
  : State * Results :=
  let '(st, batch_results) := acc in
  let '(saved, st) :=
    save_transcript self video_data transcript_text transcript_data
      extraction_metadata (emit (CallSave video_id) st) in
  match saved with
  | Ok filepath =>
      let cls :=
        classify_video (tractate_patterns (config self))
          (v_title video_data) (v_description video_data) in
      let result :=
        mkResult video_id (v_title video_data) (v_url video_data)
          (v_published_at video_data)
          (option_map d_duration (v_detail video_data))
          (match v_detail video_data with
           | Some d => d_view_count d
           | None => 0
           end)
          filepath (transcript_type extraction_metadata)
          (language extraction_metadata) (word_count extraction_metadata)
          (duration_covered extraction_metadata) (fst cls) (snd cls)
          "success" (now E (world st)) in
      (set_progress (append_completed video_id (progress st)) st,
       (batch_results ++ [result])%list)
  | Raise e =>
      (add_failure
         (mkFailure video_id (v_title video_data)
            (Some ("Save error: " ++ e)) (now E (world st))) st,
       batch_results)
  end.

(** The [else] branch: record the failure in both failure lists. *)
Definition on_failure (video_id : string) (video_data : Video)
  (extraction_metadata : option (ExtractionResult (pynum E))) (st : State)
  : State :=
  let error_msg :=
    match extraction_metadata with
    | Some meta => error meta
    | None => Some "Unknown error"
    end in
  let st :=
    add_failure
      (mkFailure video_id (v_title video_data) error_msg (now E (world st)))
      st in
  set_progress (append_failed video_id (progress st)) st.

(** The metadata step: [video_data.update(detailed_metadata)] when the
    client exists and the fetch gave something. *)
Definition enrich (self : Extractor) (video_id : string) (video_data : Video)
  (st : State) : Video * State :=
  if youtube_service self then
    let '(detailed_metadata, st) :=
      get_video_metadata self video_id (emit (CallMetadata video_id) st) in
    match detailed_metadata with
    | Some m => (update_video video_data m, st)
    | None => (video_data, st)
    end
  else (video_data, st).

(** [# Process result]: the success branch or the failure branch. *)
Definition record_outcome (self : Extractor) (video_id : string)
  (video_data : Video) (extraction : Extraction) (acc : State * Results)
  : State * Results :=
  let '(transcript_text, transcript_data, extraction_metadata) := extraction in
  let '(st, batch_results) := acc in
  match transcript_text, extraction_metadata with
  | Some text, Some meta =>
      if truthy text && success meta then
        on_success self video_id video_data text transcript_data meta
          (st, batch_results)
      else
        (on_failure video_id video_data extraction_metadata st, batch_results)
  | _, _ =>
      (on_failure video_id video_data extraction_metadata st, batch_results)
  end.

(** [# Rate limiting]. *)
Definition rate_limit (self : Extractor) (st : State) : State :=
  let seconds := rate_limit_seconds (config self) in
  emit (SleepRateLimit seconds) (do_sleep seconds st).

(** The body of [for i, video_data in enumerate(videos)]. *)
Definition process_video (self : Extractor) (acc : State * Results)
  (video_data : Video) : State * Results :=
  let '(st, batch_results) := acc in
  let video_id := v_video_id video_data in
  if id_in video_id (completed_videos (progress st)) then
    (emit (LogSkip video_id) st, batch_results)
  else
    let st := emit (LogProcessing video_id) st in
    let '(video_data, st) := enrich self video_id video_data st in
    let '(extraction, st) := extract_with_retries self video_id st in
    let '(st, batch_results) :=
      record_outcome self video_id video_data extraction
        (st, batch_results) in
    (rate_limit self st, batch_results).

Definition process_video_batch (self : Extractor) (videos : list Video)
  (batch_num total_batches : Z) (st : State) : State * Results :=
  let st := emit (LogBatch batch_num total_batches) st in
  let '(st, batch_results) := fold_left (process_video self) videos (st, []) in
  let st := set_progress (set_last_batch batch_num (progress st)) st in
  (save_progress (progress st) st, batch_results).

(** The [max_results and video_count >= max_results] cut. *)
Definition cap_videos (max_results : option Z) (videos : list Video)
  : list Video :=
  match max_results with
  | None => videos
  | Some n => if n =? 0 then videos else firstn (Z.to_nat n) videos
  end.

(** [get_channel_videos]: nothing without a client or on an API error
    (the world then lists nothing), else the uploads playlist cut at
    [max_results]. *)
Definition get_channel_videos (self : Extractor) (max_results : option Z)
  (st : State) : list Video * State :=
  if negb (youtube_service self) then ([], st)
  else
    let '(videos, w) := playlist_items E (world st) in
    (cap_videos max_results videos, set_world w st).

(** [[v for v in all_videos if v['video_id'] not in completed]]. *)
Definition not_completed (completed : list string) (all_videos : list Video)
  : list Video :=
  filter (fun v => negb (id_in (v_video_id v) completed)) all_videos.

(** The body of [for i in range(0, len(remaining_videos), batch_size)]. *)
Definition batch_step (self : Extractor) (resume : bool)
  (remaining_videos : list Video) (total_batches : Z)
  (acc : State * Results) (i : Z) : State * Results :=
  let '(st, all_results) := acc in
  let batch_size := batch_size (config self) in
  let batch_num := i / batch_size + 1 in
  if resume && (batch_num <=? last_batch (progress st)) then acc
  else
    let batch_videos := slice remaining_videos i (i + batch_size) in
    let '(st, batch_results) :=
      process_video_batch self batch_videos batch_num total_batches st in
    let st :=
      if batch_num <? total_batches then emit (SleepBatch 5) (do_sleep 5 st)
      else st in
    (st, (all_results ++ batch_results)%list).

Inductive RunStatus : Type :=
| NoVideosFound
| AllAlreadyProcessed
| Completed
| Raised (msg : string).

Record RunResult : Type := mkRun {
  status : RunStatus;
  final : State;
  all_results : Results
}.

(** The batch loop of [run_extraction] over the remaining videos. *)
Definition run_batches (self : Extractor) (resume : bool)
  (remaining_videos : list Video) (st : State) : State * Results :=
  let batch_size := batch_size (config self) in
  let n := Z.of_nat (List.length remaining_videos) in
  let total_batches := (n + batch_size - 1) / batch_size in
  fold_left (batch_step self resume remaining_videos total_batches)
    (py_range n batch_size) (st, []).

(** [# Load progress if resuming], then the default for [start_time]. *)
Definition initial_progress (resume : bool) (w : World E)
  : pyresult Progress :=
  let loaded :=
    if resume then load_progress (progress_file E w)
    else Ok (fresh_progress (Some (now E w))) in
  match loaded with
  | Raise e => Raise e
  | Ok progress =>
      match start_time progress with
      | Some (String _ _) => Ok progress
      | _ => Ok (set_start_time (now E w) progress)
      end
  end.

(** [# Filter out already processed videos if resuming]. *)
Definition remaining_of (resume : bool) (completed : list string)
  (all_videos : list Video) : list Video :=
  match resume, completed with
  | true, _ :: _ => not_completed completed all_videos
  | _, _ => all_videos
  end.

(** [# Generate final reports] and [# Clean up progress file].  The
    summary report divides by the number of result rows
    ([successful/total_videos*100]), so with no row at all
    [generate_master_catalog] raises and the rename is not reached. *)
Definition finish_run (acc : State * Results) : RunResult :=
  let '(st, all_results) := acc in
  let st := emit GenerateCatalog st in
  let '(r, w) :=
    write_reports E all_results (self_failed_videos st) (world st) in
  let st := set_world w st in
  match r, all_results with
  | Raise e, _ => mkRun (Raised e) st all_results
  | Ok _, [] => mkRun (Raised "ZeroDivisionError") st all_results
  | Ok _, _ :: _ =>
      let st :=
        if path_exists (progress_file E (world st))
        then emit RenameProgress
               (set_world (rename_progress_file E (world st)) st)
        else st in
      mkRun Completed st all_results
  end.

(** [run_extraction] on a freshly built extractor in world [w]. *)
Definition run_extraction (self : Extractor) (max_videos : option Z)
  (resume : bool) (w : World E) : RunResult :=
  match initial_progress resume w with
  | Raise e => mkRun (Raised e) (mkState w (fresh_progress None) [] []) []
  | Ok progress0 =>
      let st := mkState w progress0 [] [] in
      let '(all_videos, st) := get_channel_videos self max_videos st in
      match all_videos with
      | [] => mkRun NoVideosFound st []
      | _ :: _ =>
          let remaining_videos :=
            remaining_of resume (completed_videos (progress st)) all_videos in
          match remaining_videos with
          | [] => mkRun AllAlreadyProcessed st []
          | _ :: _ =>
              if batch_size (config self) =? 0 then
                mkRun (Raised "ZeroDivisionError") st []
              else finish_run (run_batches self resume remaining_videos st)
          end
      end
  end.

End Pipeline.

Abbreviation Results E := (list (ResultRecord (pynum E))).

Arguments world {E} s.
Arguments progress {E} s.
Arguments self_failed_videos {E} s.
Arguments trace {E} s.
Arguments status {E} r.
Arguments final {E} r.
Arguments all_results {E} r.

(** ** A scripted world for concrete runs *)

(** The world is the number of transcript listings served so far; the clock
    stands still, the progress file holds [file] throughout, and the channel
    lists [videos]. *)
Definition scripted_env (videos : list Video) (file : FileState)
  (metadata : string -> pyresult (list ApiVideoItem))
  (transcripts : string -> nat -> pyresult (list (Transcript Z)))
  (sink : string -> pyresult string) : Env :=
  mkEnv nat Z Z.add 0
    (fun _ => "2024-01-01T00:00:00")
    (fun _ w => w)
    (fun _ => file)
    (fun _ w => w)
    (fun w => w)
    (fun w => (videos, w))
    (fun video_id w => (metadata video_id, w))
    (fun video_id w => (transcripts video_id w, S w))
    (fun a w => (sink (v_video_id (a_video a)), w))
    (fun _ _ w => (Ok tt, w)).

Definition video (video_id title : string) : Video :=
  mkVideo video_id title "" "2024-01-01T00:00:00Z" ""
    ("https://www.youtube.com/watch?v=" ++ video_id) None.

(** An English manual transcript with the given entry texts. *)
Definition english (texts : list string) : pyresult (list (Transcript Z)) :=
  Ok [mkTranscript "en" false (Ok (map (fun t => mkEntry t 0 1) texts))].

Definition default_extractor (batch_size max_retries : Z) : Extractor :=
  mkExtractor
    (mkConfig batch_size 2 max_retries true default_tractate_patterns) true.

(** ** Duration tokens *)

(** A unit of a token: absent, or a non-empty run of decimal digits. *)
Definition valid_unit (g : option string) : Prop :=
  match g with
  | Some ds => ds <> "" /\ all_chars is_digit ds = true
  | None => True
  end.

Definition unit_text (g : option string) (u : ascii) : string :=
  match g with
  | Some ds => ds ++ String u ""
  | None => ""
  end.

(** The compact form: designator, then hours, minutes, seconds if present. *)
Definition duration_token (h m sec : option string) : string :=
  "PT" ++ unit_text h "H" ++ unit_text m "M" ++ unit_text sec "S".




(** An event of the processing of one of the items [ids]. *)
Definition batch_event (ids : list string) (e : event) : Prop :=
  match e with
  | LogSkip v | LogProcessing v | CallMetadata v | CallExtract v _
  | CallSave v => In v ids
  | SleepBackoff _ | SleepRateLimit _ => True
  | _ => False
  end.

(** An event after the log line that opens an item: calls and waits only. *)
Definition inner_event (video_id : string) (e : event) : Prop :=
  match e with
  | CallMetadata v | CallExtract v _ | CallSave v => v = video_id
  | SleepBackoff _ | SleepRateLimit _ => True
  | _ => False
  end.

(** ** The retry schedule *)

(** [m] extraction attempts numbered from [a], with a wait of [2^attempt]
    seconds after each attempt but the last. *)
Fixpoint attempts_from (video_id : string) (a m : nat) : list event :=
  match m with
  | O => []
  | S m' =>
      CallExtract video_id a
      :: match m' with
         | O => []
         | S _ =>
             SleepBackoff (2 ^ Z.of_nat a) :: attempts_from video_id (S a) m'
         end
  end.

(** The world in which attempt [a] asks for the transcripts, when every
    attempt before it failed and was followed by its wait. *)
Fixpoint attempt_world (E : Env) (video_id : string) (a : nat) (w : World E)
  : World E :=
  match a with
  | O => w
  | S a' =>
      sleep E (2 ^ Z.of_nat a')
        (snd (list_transcripts E video_id (attempt_world E video_id a' w)))
  end.

(** What attempt [a] extracts. *)
Definition attempt_result (E : Env) (video_id : string) (a : nat)
  (w : World E) : Extraction E :=
  let '(text, data, meta) :=
    extract_transcript E
      (fst (list_transcripts E video_id (attempt_world E video_id a w))) in
  (text, data, Some meta).

Definition attempt_succeeds (E : Env) (video_id : string) (a : nat)
  (w : World E) : bool :=
  match attempt_result E video_id a w with
  | (_, _, Some meta) => success meta
  | _ => false
  end.

(** The error message attempt [a] leaves behind. *)
Definition attempt_error (E : Env) (video_id : string) (a : nat)
  (w : World E) : option string :=
  match attempt_result E video_id a w with
  | (_, _, Some meta) => error meta
  | _ => None
  end.

(** The attempt numbers of the extraction calls in a trace. *)
Fixpoint extract_calls (tr : list event) : list nat :=
  match tr with
  | [] => []
  | CallExtract _ a :: rest => a :: extract_calls rest
  | _ :: rest => extract_calls rest
  end.

(** The backoff waits in a trace, in seconds. *)
Fixpoint backoffs (tr : list event) : list Z :=
  match tr with
  | [] => []
  | SleepBackoff s :: rest => s :: backoffs rest
  | _ :: rest => backoffs rest
  end.

(** A transcript whose every entry is white space. *)
Definition all_blank {A : Type} (transcript_data : list (Entry A)) : Prop :=
  Forall (fun entry => all_chars is_space (e_text entry) = true)
    transcript_data.

(** A channel whose transcripts can never be listed. *)
Definition failing_env : Env :=
  scripted_env [video "x" "Yoma 2"] Absent (fun _ => Ok [])
    (fun _ _ => Raise "TranscriptsDisabled") (fun _ => Ok "x.txt").

Definition start_state (E : Env) (w : World E) : State E :=
  mkState E w (fresh_progress None) [] [].

(** Two items with good transcripts; the file of the first cannot be
    written. *)
Definition disk_full_env : Env :=
  scripted_env [video "x" "Yoma 2"; video "y" "Yoma 3"] Absent
    (fun _ => Ok []) (fun _ _ => english ["shalom"; "uvracha"])
    (fun video_id =>
       if String.eqb video_id "x" then Raise "disk full"
       else Ok (video_id ++ ".txt")).

(** One item whose transcript is nothing but white space. *)
Definition blank_env : Env :=
  scripted_env [video "x" "Yoma 2"] Absent (fun _ => Ok [])
    (fun _ _ => english [" "; "  "]) (fun _ => Ok "x.txt").

(** Whether the loop's variables send [record_outcome] into the success
    branch. *)
Definition takes_success_branch (E : Env) (extraction : Extraction E) : bool :=
  match extraction with
  | (Some text, _, Some meta) => truthy text && success meta
  | _ => false
  end.

(** ** Sets of identifiers *)

Definition video_ids (videos : list Video) : list string :=
  map v_video_id videos.

(** Two identifier lists with no common element. *)
Definition disjoint_ids (a b : list string) : Prop :=
  forall x, In x a -> ~ In x b.

(** An event of a run over the items [ids]. *)
Definition run_event (ids : list string) (e : event) : Prop :=
  match e with
  | LogBatch _ _ | SaveProgress _ | SleepBatch _ | GenerateCatalog
  | RenameProgress => True
  | _ => batch_event ids e
  end.

(** The batch with 0-based position [k] of a list cut into batches of
    [batch_size]. *)
Definition nth_batch (remaining_videos : list Video) (batch_size : Z)
  (k : nat) : list Video :=
  firstn (Z.to_nat batch_size)
    (skipn (k * Z.to_nat batch_size) remaining_videos).

(** The number of batches, [total_batches]. *)
Definition batch_count (remaining_videos : list Video) (batch_size : Z) : Z :=
  (Z.of_nat (List.length remaining_videos) + batch_size - 1) / batch_size.

(** A channel of well-transcribed videos resumed from the progress
    dictionary [p]. *)
Definition resumed_env (p : Progress) (videos : list Video) : Env :=
  scripted_env videos (Present (Json p)) (fun _ => Ok [])
    (fun _ _ => english ["shalom"; "uvracha"])
    (fun video_id => Ok (video_id ++ ".txt")).

Definition abc : list Video :=
  [video "a" "Yoma 2"; video "b" "Yoma 3"; video "c" "Yoma 4"].

Definition abcd : list Video :=
  [video "a" "Yoma 2"; video "b" "Yoma 3"; video "c" "Yoma 4";
   video "d" "Yoma 5"].


(** A progress dictionary that lists [x] as failed with the cursor on
    batch 1, as a run over the single item [x] with batch size 1 leaves it. *)
Definition failed_once : Progress :=
  mkProgress [] ["x"] 1 0 (Some "2024-01-01T00:00:00").

(** The channel after a new upload was listed in front of [x]. *)
Definition retry_env : Env :=
  resumed_env failed_once [video "n" "Yoma 5"; video "x" "Yoma 2"].

(** ** Steps of the state machine *)

(** [st'] continues [st] with the events [evs] and leaves the progress
    dictionary and [self.failed_videos] alone. *)
Definition quiet_step (E : Env) (st st' : State E) (evs : list event)
  : Prop :=
  trace st' = (trace st ++ evs)%list
  /\ progress st' = progress st
  /\ self_failed_videos st' = self_failed_videos st.

(** What [record_outcome] can do: append a success row and mark the item
    completed; record a save error only in [self.failed_videos]; or record
    an extraction failure in both failure lists. *)
Inductive outcome_step (E : Env) (video_id : string) (st : State E)
  (res : Results E)
  : State E -> Results E -> Prop :=
| step_success (r : ResultRecord (pynum E)) st' :
    progress st' = append_completed video_id (progress st) ->
    self_failed_videos st' = self_failed_videos st ->
    r_status r = "success" -> r_video_id r = video_id ->
    outcome_step E video_id st res st' (res ++ [r])%list
| step_save_error f st' :
    progress st' = progress st ->
    self_failed_videos st' = (self_failed_videos st ++ [f])%list ->
    f_video_id f = video_id ->
    outcome_step E video_id st res st' res
| step_failure f st' :
    progress st' = append_failed video_id (progress st) ->
    self_failed_videos st' = (self_failed_videos st ++ [f])%list ->
    f_video_id f = video_id ->
    outcome_step E video_id st res st' res.

(** Four items of which the first two have no transcript. *)
Definition half_failing_env (file : FileState) : Env :=
  scripted_env abcd file (fun _ => Ok [])
    (fun video_id _ =>
       if String.eqb video_id "a" || String.eqb video_id "b"
       then Raise "TranscriptsDisabled"
       else english ["shalom"; "uvracha"])
    (fun video_id => Ok (video_id ++ ".txt")).

(** ** Observations on a trace *)

(** The rate-limit waits, in seconds. *)
Fixpoint rate_limits (tr : list event) : list Z :=
  match tr with
  | [] => []
  | SleepRateLimit s :: rest => s :: rate_limits rest
  | _ :: rest => rate_limits rest
  end.

(** The progress dictionaries handed to [save_progress], in order. *)
Fixpoint saves (tr : list event) : list Progress :=
  match tr with
  | [] => []
  | SaveProgress p :: rest => p :: saves rest
  | _ :: rest => saves rest
  end.

(** Whether the progress file was renamed. *)
Definition renamed (tr : list event) : bool :=
  existsb (fun e => match e with RenameProgress => true | _ => false end) tr.

(** A remote call or backoff wait made for one item. *)
Definition call_event (video_id : string) (e : event) : Prop :=
  match e with
  | CallMetadata v | CallExtract v _ | CallSave v => v = video_id
  | SleepBackoff _ => True
  | _ => False
  end.

(** A well-formed row of the catalog: a success with at least one word, a
    transcript kind and a language. *)
Definition success_row {A : Type} (r : ResultRecord A) : Prop :=
  r_status r = "success"
  /\ (1 <= r_word_count r)%nat
  /\ (r_transcript_type r = Some "manual"
      \/ r_transcript_type r = Some "auto-generated")
  /\ r_language r <> None.

(** ** Identifier extraction ([extract_video_id]) *)

(** The class [[^&\n?#]]. *)
Definition id_char (c : ascii) : bool :=
  negb (Ascii.eqb c "&" || Ascii.eqb c "010" || Ascii.eqb c "?"
        || Ascii.eqb c "#").

(** A greedy [[...]*]: the longest prefix of characters of a class. *)
Fixpoint take_while (f : ascii -> bool) (s : string) : string :=
  match s with
  | EmptyString => EmptyString
  | String c r => if f c then String c (take_while f r) else EmptyString
  end.

(** What follows the literal [p] at the start of [s]. *)
Fixpoint drop_prefix (p s : string) : option string :=
  match p, s with
  | EmptyString, _ => Some s
  | String a p', String b s' =>
      if Ascii.eqb a b then drop_prefix p' s' else None
  | String _ _, EmptyString => None
  end.

(** The group [([^&\n?#]+)] at the start of [s]. *)
Definition id_group (s : string) : option string :=
  match take_while id_char s with
  | EmptyString => None
  | g => Some g
  end.

(** [literal([^&\n?#]+)] at the start of [s]. *)
Definition literal_then_group (literal s : string) : option string :=
  match drop_prefix literal s with
  | Some rest => id_group rest
  | None => None
  end.

Definition or_else {A : Type} (a b : option A) : option A :=
  match a with
  | Some x => Some x
  | None => b
  end.

(** The first pattern at the start of [s]; its alternatives in order. *)
Definition watch_short_embed (s : string) : option string :=
  or_else (literal_then_group "youtube.com/watch?v=" s)
    (or_else (literal_then_group "youtu.be/" s)
       (literal_then_group "youtube.com/embed/" s)).

(** The second pattern at the start of [s]. *)
Definition v_path (s : string) : option string :=
  literal_then_group "youtube.com/v/" s.

(** [.*v=([^&\n?#]+)] at the start of [s]: the star takes as many
    characters of the line as it can and gives them back one by one. *)
Fixpoint any_then_v (s : string) : option string :=
  let here := literal_then_group "v=" s in
  match s with
  | EmptyString => here
  | String c r =>
      if Ascii.eqb c "010" then here else or_else (any_then_v r) here
  end.

(** The third pattern at the start of [s]. *)
Definition watch_query (s : string) : option string :=
  match drop_prefix "youtube.com/watch?" s with
  | Some rest => any_then_v rest
  | None => None
  end.

(** [re.search]: the match at the leftmost position that has one. *)
Fixpoint re_search (anchored : string -> option string) (s : string)
  : option string :=
  match anchored s with
  | Some g => Some g
  | None =>
      match s with
      | EmptyString => None
      | String _ r => re_search anchored r
      end
  end.

(** [extract_video_id]: group 1 of the first pattern that is found. *)
Definition extract_video_id (url : string) : option string :=
  or_else (re_search watch_short_embed url)
    (or_else (re_search v_path url) (re_search watch_query url)).

(** The [url] key [get_channel_videos] builds for an item. *)
Definition watch_url (video_id : string) : string :=
  "https://www.youtube.com/watch?v=" ++ video_id.

(** What may follow an identifier in a URL: nothing, or a character that
    ends the group. *)
Definition ends_group (tail : string) : Prop :=
  match tail with
  | EmptyString => True
  | String c _ => id_char c = false
  end.

(** The literals that stand right before the group in the three patterns. *)
Definition id_markers : list string :=
  ["youtube.com/watch?v="; "youtu.be/"; "youtube.com/embed/";
   "youtube.com/v/"; "v="].

(** ** File names ([save_transcript]) *)

(** The regex class [\w] on U+0000..U+00FF: the alphanumerics of that
    range and the underscore. *)
Definition is_word (c : ascii) : bool :=
  let n := code c in
  ((48 <=? n)%nat && (n <=? 57)%nat) || ((65 <=? n)%nat && (n <=? 90)%nat)
  || (n =? 95)%nat || ((97 <=? n)%nat && (n <=? 122)%nat)
  || (n =? 170)%nat || (n =? 178)%nat || (n =? 179)%nat || (n =? 181)%nat
  || (n =? 185)%nat || (n =? 186)%nat
  || ((188 <=? n)%nat && (n <=? 190)%nat)
  || ((192 <=? n)%nat && (n <=? 214)%nat)
  || ((216 <=? n)%nat && (n <=? 246)%nat) || (248 <=? n)%nat.

(** The class [[-\s]]. *)
Definition is_separator (c : ascii) : bool :=
  Ascii.eqb c "-" || is_space c.

(** [re.sub(r'[^\w\s-]', '', s)]. *)
Fixpoint keep_chars (f : ascii -> bool) (s : string) : string :=
  match s with
  | EmptyString => EmptyString
  | String c r => if f c then String c (keep_chars f r) else keep_chars f r
  end.

(** [re.sub(r'[-\s]+', '_', s)]: every maximal run of separators becomes
    one underscore; [in_run] tells that the run has begun. *)
Fixpoint collapse_runs (in_run : bool) (s : string) : string :=
  match s with
  | EmptyString => EmptyString
  | String c r =>
      if is_separator c then
        if in_run then collapse_runs true r
        else String "_" (collapse_runs true r)
      else String c (collapse_runs false r)
  end.

Definition safe_title (title : string) : string :=
  collapse_runs false
    (keep_chars (fun c => is_word c || is_separator c) title).

(** The categories and series [classify_video] names by itself. *)
Definition series_types : list string :=
  ["Daf_Yomi"; "Shiurim"; "Lectures"; "General"].

(** ** Channel listing: the pages of the uploads playlist *)

(** One item of a [playlistItems().list] response. *)
Record PlaylistItem : Type := mkPlaylistItem {
  item_videoId : string;
  item_title : string;
  item_description : string;
  item_publishedAt : string;
  item_medium_thumbnail : option string
}.

(** The [video_data] dictionary built for an item. *)
Definition video_of_item (item : PlaylistItem) : Video :=
  mkVideo (item_videoId item) (item_title item) (item_description item)
    (item_publishedAt item)
    (match item_medium_thumbnail item with
     | Some url => url
     | None => EmptyString
     end)
    (watch_url (item_videoId item)) None.

(** [max_results and video_count >= max_results]. *)
Definition reached (max_results : option Z) (video_count : Z) : bool :=
  match max_results with
  | Some n => negb (n =? 0) && (n <=? video_count)
  | None => false
  end.

(** [for item in playlist_response['items']]. *)
Fixpoint page_items (max_results : option Z) (items : list PlaylistItem)
  (videos : list Video) (video_count : Z) : list Video * Z :=
  match items with
  | [] => (videos, video_count)
  | item :: rest =>
      if reached max_results video_count then (videos, video_count)
      else
        page_items max_results rest (videos ++ [video_of_item item])%list
          (video_count + 1)
  end.

(** The [while True] loop over the pages: [page] is the response at hand
    and [next_pages] what the playlist still holds; a response names a next
    page exactly when there is one.  [requests] counts the responses. *)
Fixpoint fetch_pages (max_results : option Z) (page : list PlaylistItem)
  (next_pages : list (list PlaylistItem)) (videos : list Video)
  (video_count : Z) (requests : nat) : list Video * nat :=
  let '(videos, video_count) :=
    page_items max_results page videos video_count in
  match next_pages with
  | [] => (videos, requests)
  | next :: later =>
      if reached max_results video_count then (videos, requests)
      else fetch_pages max_results next later videos video_count (S requests)
  end.

(** The loop from its start: no video, and the first response. *)
Definition uploads_loop (max_results : option Z) (page : list PlaylistItem)
  (next_pages : list (list PlaylistItem)) : list Video * nat :=
  fetch_pages max_results page next_pages [] 0 1.

(** ** Transcript languages *)

(** The listing has a transcript in [lang]. *)
Definition speaks {A : Type} (transcript_list : list (Transcript A))
  (lang : string) : Prop :=
  exists t, In t transcript_list /\ language_code t = lang.

(** What may follow a duration token for the units to be read the same:
    nothing, or a character that is not a digit. *)
Definition no_digit_ahead (rest : string) : Prop :=
  match rest with
  | EmptyString => True
  | String c _ => is_digit c = false
  end.

(** A world that is the progress file itself: what is saved is what is
    found, and renaming the file leaves none.  Every item has a good
    transcript. *)
Definition storing_env (videos : list Video) : Env :=
  mkEnv FileState Z Z.add 0
    (fun _ => "2024-01-01T00:00:00")
    (fun _ w => w)
    (fun w => w)
    (fun p _ => Present (Json p))
    (fun _ => Absent)
    (fun w => (videos, w))
    (fun _ w => (Ok [], w))
    (fun _ w => (english ["shalom"; "uvracha"], w))
    (fun a w => (Ok (v_video_id (a_video a) ++ ".txt"), w))
    (fun _ _ w => (Ok tt, w)).

(** * Properties *)

(** ** Sample evaluations *)

Example parse_duration_hms : parse_duration "PT1H2M3S" = 3723.
Proof. reflexivity. Qed.

Example parse_duration_m : parse_duration "PT15M" = 900.
Proof. reflexivity. Qed.

Example parse_duration_days : parse_duration "P1DT2H" = 0.
Proof. reflexivity. Qed.

Example classify_gittin :
  classify_video default_tractate_patterns "Gittin 45 - Daf Yomi" ""
  = ("Gittin", "Daf_Yomi").
Proof. reflexivity. Qed.

Example classify_sukkah_shiur :
  classify_video default_tractate_patterns "Sukkah 12 Shiur" "Weekly LECTURE"
  = ("Sukkah", "Shiurim").
Proof. reflexivity. Qed.

Example classify_first_match_wins :
  classify_video default_tractate_patterns "Yoma and Sukkah compared" ""
  = ("Yoma", "General").
Proof. reflexivity. Qed.

Example strip_example : strip "  daf yomi  " = "daf yomi".
Proof. reflexivity. Qed.

Example split_example : split " shalom  uvracha " = ["shalom"; "uvracha"].
Proof. reflexivity. Qed.

(** The end-to-end scenario of the spec: three items, batch size 2, the
    second never extracts. *)
Example end_to_end :
  let E :=
    scripted_env abc Absent (fun _ => Ok [])
      (fun video_id _ =>
         if String.eqb video_id "b" then Raise "TranscriptsDisabled"
         else english ["shalom"])
      (fun video_id => Ok (video_id ++ ".txt")) in
  let run := run_extraction E (default_extractor 2 3) None true 0%nat in
  status run = Completed
  /\ map (@r_video_id _) (all_results run) = ["a"; "c"]
  /\ map f_video_id (self_failed_videos (final run)) = ["b"]
  /\ completed_videos (progress (final run)) = ["a"; "c"]
  /\ failed_videos (progress (final run)) = ["b"]
  /\ last_batch (progress (final run)) = 2
  /\ opened_batches (trace (final run)) = [1; 2].
Proof. vm_compute. repeat split. Qed.

(** A crash after the save of batch 1 of 2 in which both items failed: the
    saved dictionary has the cursor on 1, and the resumed run opens batch 2
    alone and enters its two items. *)
Example crash_after_batch_one :
  let E := half_failing_env Absent in
  let self := default_extractor 2 3 in
  let saved :=
    progress (fst (process_video_batch E self (nth_batch abcd 2 0) 1 2
                     (start_state E 0%nat))) in
  let run :=
    run_extraction (half_failing_env (Present (Json saved))) self None true
      0%nat in
  completed_videos saved = [] /\ failed_videos saved = ["a"; "b"]
  /\ last_batch saved = 1
  /\ opened_batches (trace (final run)) = [2]
  /\ entered (trace (final run)) = ["c"; "d"].
Proof. vm_compute. repeat split. Qed.

(** ** Strings *)

Lemma append_assoc (a b c : string) : (a ++ b) ++ c = a ++ (b ++ c).
Proof. induction a as [|x a IH]; simpl; [reflexivity | now rewrite IH]. Qed.

Lemma append_nil_r (a : string) : a ++ "" = a.
Proof. induction a as [|x a IH]; simpl; [reflexivity | now rewrite IH]. Qed.

Lemma span_digits_app (ds : string) (c : ascii) (rest : string) :
  all_chars is_digit ds = true -> is_digit c = false ->
  span_digits (ds ++ String c rest) = (ds, String c rest).
Proof.
  intros Hds Hc. induction ds as [|d ds IH]; simpl.
  - now rewrite Hc.
  - simpl in Hds. apply andb_true_iff in Hds as [Hd Hds].
    rewrite Hd, (IH Hds). reflexivity.
Qed.


(** A recognised unit: a non-empty run of digits and then the letter. *)
Lemma match_unit_taken (u : ascii) (ds rest : string) :
  ds <> "" -> all_chars is_digit ds = true -> is_digit u = false ->
  match_unit u (ds ++ String u rest) = (Some ds, rest).
Proof.
  intros Hne Hds Hu. unfold match_unit.
  rewrite (span_digits_app ds u rest Hds Hu).
  destruct ds as [|d ds]; [congruence|]. now rewrite Ascii.eqb_refl.
Qed.

(** Digits followed by another letter leave the group out. *)
Lemma match_unit_other (u c : ascii) (ds rest : string) :
  all_chars is_digit ds = true -> is_digit c = false -> c <> u ->
  match_unit u (ds ++ String c rest) = (None, ds ++ String c rest).
Proof.
  intros Hds Hc Hcu. unfold match_unit.
  rewrite (span_digits_app ds c rest Hds Hc).
  destruct ds as [|d ds]; [reflexivity|].
  destruct (Ascii.eqb_spec c u); [contradiction | reflexivity].
Qed.

Lemma match_unit_empty (u : ascii) : match_unit u "" = (None, "").
Proof. reflexivity. Qed.



(** [int_of_digits] reads its argument in base ten. *)
Lemma int_of_digits_snoc (s : string) (c : ascii) :
  int_of_digits (s ++ String c "")
  = 10 * int_of_digits s + (Z.of_nat (code c) - 48).
Proof.
  unfold int_of_digits. generalize 0 as acc.
  induction s as [|d s IH]; intros acc; cbn [append int_acc];
    [reflexivity | apply IH].
Qed.


(** ** The duration parser *)

Lemma parse_duration_PT (r : string) :
  parse_duration ("PT" ++ r) =
  let '(h, r1) := match_unit "H" r in
  let '(m, r2) := match_unit "M" r1 in
  let '(sec, _) := match_unit "S" r2 in
  group_int h * 3600 + group_int m * 60 + group_int sec.
Proof.
  unfold parse_duration. cbn [append re_match_duration Ascii.eqb Bool.eqb andb].
  destruct (match_unit "H" r) as [h r1].
  destruct (match_unit "M" r1) as [m r2].
  destruct (match_unit "S" r2) as [sec r3]. reflexivity.
Qed.






(** ** The classifier *)

Lemma startswith_spec (p s : string) :
  startswith p s = true <-> exists b, s = p ++ b.
Proof.
  revert s. induction p as [|a p IH]; intros s; simpl.
  - split; [intros _; now exists s | reflexivity].
  - destruct s as [|c s].
    + split; [discriminate | intros [b H]; discriminate H].
    + rewrite andb_true_iff, Ascii.eqb_eq, IH. split.
      * intros [-> [b ->]]. now exists b.
      * intros [b H]. inversion H; subst. split; [reflexivity | now exists b].
Qed.

(** [str_in] is the substring test. *)
Lemma str_in_spec (p s : string) :
  str_in p s = true <-> exists a b, s = a ++ p ++ b.
Proof.
  induction s as [|c s IH]; simpl.
  - rewrite orb_false_r, startswith_spec. split.
    + intros [b H]. now exists "", b.
    + intros [a [b H]]. destruct a; [now exists b | discriminate H].
  - rewrite orb_true_iff, startswith_spec, IH. split.
    + intros [[b H] | [a [b H]]].
      * now exists "", b.
      * exists (String c a), b. simpl. now rewrite H.
    + intros [a [b H]]. destruct a as [|x a].
      * left. now exists b.
      * right. inversion H; subst. now exists a, b.
Qed.





(** ** The progress store *)



(** ** The per-item state machine *)

Lemma entered_app (a b : list event) :
  entered (a ++ b) = (entered a ++ entered b)%list.
Proof.
  induction a as [|e a IH]; [reflexivity|].
  destruct e; simpl; rewrite IH; reflexivity.
Qed.

Lemma opened_batches_app (a b : list event) :
  opened_batches (a ++ b) = (opened_batches a ++ opened_batches b)%list.
Proof.
  induction a as [|e a IH]; [reflexivity|].
  destruct e; simpl; rewrite IH; reflexivity.
Qed.

Lemma inner_entered (video_id : string) (evs : list event) :
  Forall (inner_event video_id) evs -> entered evs = [].
Proof.
  induction 1 as [|e evs He _ IH]; [reflexivity|].
  destruct e; simpl in *; try contradiction; assumption.
Qed.

Lemma inner_batch_event (video_id : string) (e : event) :
  inner_event video_id e -> batch_event [video_id] e.
Proof. destruct e; simpl; auto. Qed.

Lemma batch_event_incl (ids ids' : list string) (e : event) :
  incl ids ids' -> batch_event ids e -> batch_event ids' e.
Proof. intros Hi. destruct e; simpl; auto. Qed.

Lemma batch_opened (ids : list string) (evs : list event) :
  Forall (batch_event ids) evs -> opened_batches evs = [].
Proof.
  induction 1 as [|e evs He _ IH]; [reflexivity|].
  destruct e; simpl in *; try contradiction; assumption.
Qed.

Lemma id_in_true (x : string) (l : list string) :
  id_in x l = true <-> In x l.
Proof.
  unfold id_in. rewrite existsb_exists. split.
  - intros [y [Hy Hxy]]. apply String.eqb_eq in Hxy. now subst.
  - intros H. exists x. split; [assumption | apply String.eqb_refl].
Qed.

Lemma id_in_false (x : string) (l : list string) :
  id_in x l = false <-> ~ In x l.
Proof.
  rewrite <- id_in_true. destruct (id_in x l); split; congruence.
Qed.

Section PipelineFacts.

Variable E : Env.
Variable self : Extractor.

Lemma quiet_step_refl (st : State E) : quiet_step E st st [].
Proof. unfold quiet_step. now rewrite app_nil_r. Qed.

Lemma quiet_step_trans (st1 st2 st3 : State E) (a b : list event) :
  quiet_step E st1 st2 a -> quiet_step E st2 st3 b ->
  quiet_step E st1 st3 (a ++ b).
Proof.
  intros (T1 & P1 & F1) (T2 & P2 & F2). unfold quiet_step.
  rewrite T2, T1, P2, P1, F2, F1, app_assoc. auto.
Qed.

Lemma enrich_quiet (video_id : string) (video_data : Video) (st : State E) :
  quiet_step E st (snd (enrich E self video_id video_data st))
    (if youtube_service self then [CallMetadata video_id] else []).
Proof.
  unfold enrich, get_video_metadata.
  destruct (youtube_service self); cbn [negb]; [|apply quiet_step_refl].
  cbn [world emit].
  destruct (videos_list E video_id (world st)) as [[[|item items]|e] w];
    cbn; repeat split; reflexivity.
Qed.

Lemma retry_loop_quiet (video_id : string) (n attempt : nat)
  (cur : Extraction E) (st : State E) :
  exists evs,
    quiet_step E st (snd (retry_loop E self video_id n attempt cur st)) evs
    /\ Forall (inner_event video_id) evs.
Proof.
  revert attempt cur st. induction n as [|n IH]; intros attempt cur st.
  - exists []. split; [apply quiet_step_refl | constructor].
  - cbn [retry_loop]. cbn [world emit].
    destruct (list_transcripts E video_id (world st)) as [listing w].
    destruct (extract_transcript E listing) as [[text data] meta].
    destruct (success meta).
    + exists [CallExtract video_id attempt]. split.
      * cbn. repeat split; reflexivity.
      * repeat constructor.
    + match goal with
      | |- context [retry_loop E self video_id n ?a ?c ?s] =>
          destruct (IH a c s) as (evs & Hq & Hall);
          set (st2 := s) in *
      end.
      destruct (Z.of_nat attempt <? max_retries (config self) - 1).
      * exists (CallExtract video_id attempt
                :: SleepBackoff (2 ^ Z.of_nat attempt) :: evs).
        split; [|repeat constructor; assumption].
        destruct Hq as (T & P & F). subst st2.
        repeat split; [rewrite T; cbn; now rewrite <- !app_assoc | rewrite P |
                       rewrite F]; reflexivity.
      * exists (CallExtract video_id attempt :: evs).
        split; [|repeat constructor; assumption].
        destruct Hq as (T & P & F). subst st2.
        repeat split; [rewrite T; cbn; now rewrite <- !app_assoc | rewrite P |
                       rewrite F]; reflexivity.
Qed.

Lemma extract_with_retries_quiet (video_id : string) (st : State E) :
  exists evs,
    quiet_step E st (snd (extract_with_retries E self video_id st)) evs
    /\ Forall (inner_event video_id) evs.
Proof. apply retry_loop_quiet. Qed.

Lemma on_failure_spec (video_id : string) (video_data : Video)
  (meta : option (ExtractionResult (pynum E))) (st : State E)
  (res : Results E) :
  trace (on_failure E video_id video_data meta st) = trace st
  /\ outcome_step E video_id st res
       (on_failure E video_id video_data meta st) res.
Proof.
  split; [reflexivity|]. eapply step_failure; reflexivity.
Qed.

Lemma on_success_spec (video_id : string) (video_data : Video)
  (text : string) (data : option (list (Entry (pynum E))))
  (meta : ExtractionResult (pynum E)) (st : State E) (res : Results E) :
  let out := on_success E self video_id video_data text data meta (st, res) in
  trace (fst out) = (trace st ++ [CallSave video_id])%list
  /\ outcome_step E video_id st res (fst out) (snd out).
Proof.
  unfold on_success, save_transcript.
  destruct (classify_video _ _ _) as [tractate series_type].
  cbn [world emit].
  destruct (write_transcript_file E _ (world st)) as [[filepath|e] w];
    cbn [fst snd]; (split; [reflexivity|]).
  - eapply step_success; reflexivity.
  - eapply step_save_error; reflexivity.
Qed.

Lemma record_outcome_spec (video_id : string) (video_data : Video)
  (extraction : Extraction E) (st : State E) (res : Results E) :
  let out := record_outcome E self video_id video_data extraction (st, res) in
  (exists evs, trace (fst out) = (trace st ++ evs)%list
               /\ Forall (inner_event video_id) evs)
  /\ outcome_step E video_id st res (fst out) (snd out).
Proof.
  destruct extraction as [[text data] meta]. unfold record_outcome.
  destruct text as [text|], meta as [meta|];
    try (destruct (on_failure_spec video_id video_data None st res)
           as [T O]);
    try (destruct (on_failure_spec video_id video_data (Some meta) st res)
           as [T' O']).
  - destruct (truthy text && success meta).
    + destruct (on_success_spec video_id video_data text data meta st res)
        as [T2 O2].
      split; [|exact O2]. exists [CallSave video_id].
      split; [exact T2 | repeat constructor].
    + cbn [fst snd]. split; [|exact O'].
      exists []. rewrite app_nil_r. split; [exact T' | constructor].
  - cbn [fst snd]. split; [|exact O].
    exists []. rewrite app_nil_r. split; [exact T | constructor].
  - cbn [fst snd]. split; [|exact O'].
    exists []. rewrite app_nil_r. split; [exact T' | constructor].
  - cbn [fst snd]. split; [|exact O].
    exists []. rewrite app_nil_r. split; [exact T | constructor].
Qed.

(** A skipped item: only the log line. *)
Lemma process_video_skip (st : State E) (res : Results E) (v : Video) :
  id_in (v_video_id v) (completed_videos (progress st)) = true ->
  process_video E self (st, res) v = (emit E (LogSkip (v_video_id v)) st, res).
Proof. intros H. unfold process_video. now rewrite H. Qed.

(** A processed item: its log line, then calls and waits for it alone, and
    one of the three outcomes. *)
Lemma process_video_spec (st : State E) (res : Results E) (v : Video) :
  id_in (v_video_id v) (completed_videos (progress st)) = false ->
  let out := process_video E self (st, res) v in
  (exists evs,
      trace (fst out)
      = (trace st ++ LogProcessing (v_video_id v) :: evs)%list
      /\ Forall (inner_event (v_video_id v)) evs)
  /\ outcome_step E (v_video_id v) st res (fst out) (snd out).
Proof.
  intros H. unfold process_video. rewrite H.
  set (vid := v_video_id v).
  set (st1 := emit E (LogProcessing vid) st).
  pose proof (enrich_quiet vid v st1) as Hen.
  destruct (enrich E self vid v st1) as [vd st2]. cbn [snd] in Hen.
  destruct (extract_with_retries_quiet vid st2) as (evs2 & Hex & Hall2).
  destruct (extract_with_retries E self vid st2) as [ext st3].
  cbn [snd] in Hex.
  pose proof (record_outcome_spec vid vd ext st3 res)
    as [(evs3 & T3 & Hall3) O].
  destruct (record_outcome E self vid vd ext (st3, res)) as [st4 res4].
  cbn [fst snd] in *.
  destruct Hen as (T1 & P1 & F1). destruct Hex as (T2 & P2 & F2).
  assert (Hp : progress st3 = progress st) by (now rewrite P2, P1).
  assert (Hf : self_failed_videos st3 = self_failed_videos st)
    by (now rewrite F2, F1).
  split.
  - exists ((if youtube_service self then [CallMetadata vid] else [])
            ++ evs2 ++ evs3
            ++ [SleepRateLimit (rate_limit_seconds (config self))])%list.
    split.
    + unfold rate_limit. cbn [trace emit do_sleep set_world].
      rewrite T3, T2, T1. subst st1. cbn [trace emit].
      repeat rewrite <- app_assoc. reflexivity.
    + apply Forall_app. split.
      { destruct (youtube_service self); repeat constructor. }
      apply Forall_app. split; [exact Hall2|].
      apply Forall_app. split; [exact Hall3 | repeat constructor].
  - unfold rate_limit.
    destruct O as [r st' Hp' Hf' Hs Hi | f st' Hp' Hf' Hi | f st' Hp' Hf' Hi].
    + apply step_success; cbn; try assumption; congruence.
    + apply step_save_error with (f := f); cbn; try assumption; congruence.
    + apply step_failure with (f := f); cbn; try assumption; congruence.
Qed.

(** *** The retry loop *)

Lemma retry_loop_step (video_id : string) (m a : nat) (cur : Extraction E)
  (st : State E) (w0 : World E) :
  world st = attempt_world E video_id a w0 ->
  retry_loop E self video_id (S m) a cur st
  = if attempt_succeeds E video_id a w0 then
      (attempt_result E video_id a w0,
       set_world E (snd (list_transcripts E video_id (world st)))
         (emit E (CallExtract video_id a) st))
    else
      retry_loop E self video_id m (S a) (attempt_result E video_id a w0)
        (let st1 :=
           set_world E (snd (list_transcripts E video_id (world st)))
             (emit E (CallExtract video_id a) st) in
         if Z.of_nat a <? max_retries (config self) - 1
         then emit E (SleepBackoff (2 ^ Z.of_nat a))
                (do_sleep E (2 ^ Z.of_nat a) st1)
         else st1).
Proof.
  intros Hw. cbn [retry_loop]. cbn [world emit].
  unfold attempt_succeeds, attempt_result. rewrite <- Hw.
  destruct (list_transcripts E video_id (world st)) as [listing w].
  cbn [fst snd].
  destruct (extract_transcript E listing) as [[text data] meta].
  destruct (success meta); reflexivity.
Qed.

Lemma retry_loop_exhausted (video_id : string) (w0 : World E) (m a : nat)
  (cur : Extraction E) (st : State E) :
  (a + m)%nat = Z.to_nat (max_retries (config self)) ->
  world st = attempt_world E video_id a w0 ->
  (forall j, (a <= j < a + m)%nat ->
             attempt_succeeds E video_id j w0 = false) ->
  exists st',
    retry_loop E self video_id m a cur st
    = (match m with
       | O => cur
       | S m' => attempt_result E video_id (a + m') w0
       end, st')
    /\ trace st' = (trace st ++ attempts_from video_id a m)%list.
Proof.
  revert a cur st. induction m as [|m IH]; intros a cur st Hn Hw Hfail.
  - exists st. cbn. now rewrite app_nil_r.
  - rewrite (retry_loop_step video_id m a cur st w0 Hw).
    rewrite (Hfail a) by lia.
    destruct m as [|m'].
    + replace (Z.of_nat a <? max_retries (config self) - 1) with false
        by (symmetry; apply Z.ltb_ge; lia).
      eexists. split; [cbn [retry_loop]; rewrite Nat.add_0_r; reflexivity|].
      reflexivity.
    + replace (Z.of_nat a <? max_retries (config self) - 1) with true
        by (symmetry; apply Z.ltb_lt; lia).
      match goal with
      | |- context [retry_loop E self video_id (S m') (S a) ?c ?s] =>
          assert (H1 : world s = attempt_world E video_id (S a) w0)
            by (cbn [world emit do_sleep set_world]; rewrite Hw; reflexivity);
          destruct (IH (S a) c s ltac:(lia) H1
                      ltac:(intros j Hj; apply Hfail; lia))
            as (st' & Heq & Htr)
      end.
      exists st'. split.
      * rewrite Heq. f_equal. f_equal. lia.
      * rewrite Htr. cbn [trace emit do_sleep set_world attempts_from].
        repeat rewrite <- app_assoc. reflexivity.
Qed.

Lemma retry_loop_succeeds (video_id : string) (w0 : World E) (m a k : nat)
  (cur : Extraction E) (st : State E) :
  (a + m)%nat = Z.to_nat (max_retries (config self)) ->
  world st = attempt_world E video_id a w0 ->
  (a <= k < a + m)%nat ->
  (forall j, (a <= j < k)%nat -> attempt_succeeds E video_id j w0 = false) ->
  attempt_succeeds E video_id k w0 = true ->
  exists st',
    retry_loop E self video_id m a cur st
    = (attempt_result E video_id k w0, st')
    /\ trace st' = (trace st ++ attempts_from video_id a (S k - a))%list.
Proof.
  revert a cur st. induction m as [|m IH]; intros a cur st Hn Hw Hk Hfail Hok.
  - lia.
  - rewrite (retry_loop_step video_id m a cur st w0 Hw).
    destruct (Nat.eq_dec k a) as [->|Hne].
    + rewrite Hok. eexists. split; [reflexivity|].
      replace (S a - a)%nat with 1%nat by lia. reflexivity.
    + rewrite (Hfail a) by lia.
      replace (Z.of_nat a <? max_retries (config self) - 1) with true
        by (symmetry; apply Z.ltb_lt; lia).
      match goal with
      | |- context [retry_loop E self video_id m (S a) ?c ?s] =>
          assert (H1 : world s = attempt_world E video_id (S a) w0)
            by (cbn [world emit do_sleep set_world]; rewrite Hw; reflexivity);
          destruct (IH (S a) c s ltac:(lia) H1 ltac:(lia)
                      ltac:(intros j Hj; apply Hfail; lia) Hok)
            as (st' & Heq & Htr)
      end.
      exists st'. split; [exact Heq|].
      rewrite Htr. cbn [trace emit do_sleep set_world].
      replace (S k - a)%nat with (S (S (k - S a))) by lia.
      replace (S k - S a)%nat with (S (k - S a)) by lia.
      cbn [attempts_from]. repeat rewrite <- app_assoc. reflexivity.
Qed.

Lemma attempts_from_calls (video_id : string) (m a : nat) :
  extract_calls (attempts_from video_id a m) = seq a m.
Proof.
  revert a. induction m as [|m IH]; intros a; [reflexivity|].
  cbn [attempts_from seq extract_calls]. f_equal.
  destruct m as [|m']; [reflexivity|].
  cbn [extract_calls]. apply IH.
Qed.

Lemma attempts_from_backoffs (video_id : string) (m a : nat) :
  backoffs (attempts_from video_id a m)
  = map (fun j => 2 ^ Z.of_nat j) (seq a (m - 1)).
Proof.
  revert a. induction m as [|m IH]; intros a; [reflexivity|].
  cbn [attempts_from backoffs].
  destruct m as [|m']; [reflexivity|].
  cbn [backoffs]. rewrite IH.
  replace (S (S m') - 1)%nat with (S (S m' - 1)) by lia. reflexivity.
Qed.

(** *** What [extract_transcript] returns *)

Lemma extract_failure_shape (listing : pyresult (list (Transcript (pynum E))))
  text data meta :
  extract_transcript E listing = (text, data, meta) ->
  success meta = false ->
  text = None /\ data = None /\ exists msg, error meta = Some msg.
Proof.
  unfold extract_transcript. intros H Hs.
  destruct listing as [tl|e].
  - destruct (match preferred_transcript tl language_priorities with
              | Some (lang, t) => Some (lang, t)
              | None => match tl with
                        | t :: _ => Some (language_code t, t)
                        | [] => None
                        end
              end) as [[lang t]|].
    + destruct (fetch t) as [[|entry d]|e]; inversion H; subst;
        cbn in Hs; try discriminate; repeat split; eexists; reflexivity.
    + inversion H; subst. repeat split; eexists; reflexivity.
  - inversion H; subst. repeat split; eexists; reflexivity.
Qed.

Lemma extract_success_shape (listing : pyresult (list (Transcript (pynum E))))
  text data meta :
  extract_transcript E listing = (text, data, meta) ->
  success meta = true ->
  error meta = None
  /\ exists d,
       d <> [] /\ data = Some d
       /\ text = Some (strip (flatten_text d ""))
       /\ word_count meta = List.length (split (strip (flatten_text d ""))).
Proof.
  unfold extract_transcript. intros H Hs.
  destruct listing as [tl|e].
  - destruct (match preferred_transcript tl language_priorities with
              | Some (lang, t) => Some (lang, t)
              | None => match tl with
                        | t :: _ => Some (language_code t, t)
                        | [] => None
                        end
              end) as [[lang t]|].
    + destruct (fetch t) as [[|entry d]|e]; inversion H; subst;
        cbn in Hs; try discriminate.
      split; [reflexivity|]. exists (entry :: d).
      repeat split; try reflexivity. discriminate.
    + inversion H; subst. discriminate.
  - inversion H; subst. discriminate.
Qed.

(** The loop's variables hold their initial value or what some call of
    [extract_transcript] returned. *)
Lemma retry_loop_result (video_id : string) (n a : nat) (cur : Extraction E)
  (st : State E) :
  fst (retry_loop E self video_id n a cur st) = cur
  \/ exists listing text data meta,
       extract_transcript E listing = (text, data, meta)
       /\ fst (retry_loop E self video_id n a cur st) = (text, data, Some meta).
Proof.
  revert a cur st. induction n as [|n IH]; intros a cur st; [now left|].
  right. cbn [retry_loop]. cbn [world emit].
  destruct (list_transcripts E video_id (world st)) as [listing w].
  destruct (extract_transcript E listing) as [[text data] meta] eqn:Hex.
  destruct (success meta).
  - exists listing, text, data, meta. split; [exact Hex | reflexivity].
  - match goal with
    | |- context [retry_loop E self video_id n ?a' ?c ?s] =>
        destruct (IH a' c s) as [Hcur | Hsome]
    end.
    + exists listing, text, data, meta. split; [exact Hex | exact Hcur].
    + exact Hsome.
Qed.

Lemma extract_with_retries_result (video_id : string) (st : State E) :
  fst (extract_with_retries E self video_id st) = (None, None, None)
  \/ exists listing text data meta,
       extract_transcript E listing = (text, data, meta)
       /\ fst (extract_with_retries E self video_id st)
          = (text, data, Some meta).
Proof. apply retry_loop_result. Qed.

Lemma all_chars_app (f : ascii -> bool) (a b : string) :
  all_chars f (a ++ b) = all_chars f a && all_chars f b.
Proof.
  induction a as [|c a IH]; simpl; [reflexivity|].
  now rewrite IH, andb_assoc.
Qed.

Lemma strip_blank (s : string) : all_chars is_space s = true -> strip s = "".
Proof.
  unfold strip. induction s as [|c s IH]; simpl; [reflexivity|].
  intros H. apply andb_true_iff in H as [Hc Hs]. rewrite Hc. now apply IH.
Qed.

Lemma flatten_blank (A : Type) (d : list (Entry A)) (acc : string) :
  all_blank d -> all_chars is_space acc = true ->
  all_chars is_space (flatten_text d acc) = true.
Proof.
  intros Hd. revert acc. induction Hd as [|entry d He _ IH]; intros acc Hacc.
  - exact Hacc.
  - cbn [flatten_text]. apply IH.
    rewrite !all_chars_app, Hacc, He. reflexivity.
Qed.

Lemma truthy_true (s : string) : truthy s = true <-> s <> "".
Proof. destruct s; simpl; split; congruence. Qed.

(** *** The two branches of [record_outcome] *)

Lemma record_outcome_failure (video_id : string) (video_data : Video)
  (extraction : Extraction E) (st : State E) (res : Results E) :
  takes_success_branch E extraction = false ->
  record_outcome E self video_id video_data extraction (st, res)
  = (on_failure E video_id video_data (snd extraction) st, res).
Proof.
  destruct extraction as [[[text|] data] [meta|]]; cbn; intros H;
    try reflexivity.
  now rewrite H.
Qed.

Lemma record_outcome_success (video_id : string) (video_data : Video)
  (text : string) data meta (st : State E) (res : Results E) :
  truthy text = true -> success meta = true ->
  record_outcome E self video_id video_data (Some text, data, Some meta)
    (st, res)
  = on_success E self video_id video_data text data meta (st, res).
Proof. intros Ht Hs. cbn. now rewrite Ht, Hs. Qed.

Lemma on_success_saved (video_id : string) (video_data : Video)
  (text : string) data meta (st : State E) (res : Results E) :
  (forall a, exists path w,
      write_transcript_file E a (world st) = (Ok path, w)) ->
  let out := on_success E self video_id video_data text data meta (st, res) in
  (exists r, snd out = (res ++ [r])%list
             /\ r_status r = "success" /\ r_video_id r = video_id
             /\ r_word_count r = word_count meta)
  /\ progress (fst out) = append_completed video_id (progress st)
  /\ self_failed_videos (fst out) = self_failed_videos st.
Proof.
  intros Hsink. unfold on_success, save_transcript.
  destruct (classify_video _ _ _) as [tractate series_type].
  cbn [world emit].
  match goal with
  | |- context [write_transcript_file E ?a (world st)] =>
      destruct (Hsink a) as (path & w & ->)
  end.
  cbn. split; [|split; reflexivity].
  eexists. split; [reflexivity|]. repeat split.
Qed.

Lemma on_success_save_error (video_id : string) (video_data : Video)
  (text : string) data meta (st : State E) (res : Results E) (e : string) :
  (forall a, exists w, write_transcript_file E a (world st) = (Raise e, w)) ->
  let out := on_success E self video_id video_data text data meta (st, res) in
  snd out = res
  /\ progress (fst out) = progress st
  /\ exists f,
       self_failed_videos (fst out) = (self_failed_videos st ++ [f])%list
       /\ f_video_id f = video_id
       /\ f_error f = Some ("Save error: " ++ e).
Proof.
  intros Hsink. unfold on_success, save_transcript.
  destruct (classify_video _ _ _) as [tractate series_type].
  cbn [world emit].
  match goal with
  | |- context [write_transcript_file E ?a (world st)] =>
      destruct (Hsink a) as (w & ->)
  end.
  cbn. repeat split. eexists. split; [reflexivity|]. split; reflexivity.
Qed.

Lemma attempt_result_some (video_id : string) (a : nat) (w : World E) :
  exists text data meta,
    attempt_result E video_id a w = (text, data, Some meta).
Proof.
  unfold attempt_result.
  destruct (extract_transcript E _) as [[text data] meta]. eauto.
Qed.

(** C3: an item whose every extraction attempt fails is tried exactly
    [max_retries] times, attempt [a] being followed by a wait of [2^a]
    seconds unless it is the last; it is then recorded as a failure with the
    error of the last attempt and gets no success row.  An attempt that
    succeeds ends the loop at once, and with a non-empty text the item takes
    the success branch: once the file is written it gets its success row and
    joins the completed list. *)
Theorem retry_exhaustion (video_id : string) (video_data : Video)
  (st : State E) (res : Results E) :
  let n := Z.to_nat (max_retries (config self)) in
  let run := extract_with_retries E self video_id st in
  let out :=
    record_outcome E self video_id video_data (fst run) (snd run, res) in
  ((forall a, (a < n)%nat ->
              attempt_succeeds E video_id a (world st) = false) ->
   trace (snd run) = (trace st ++ attempts_from video_id 0 n)%list
   /\ extract_calls (attempts_from video_id 0 n) = seq 0 n
   /\ backoffs (attempts_from video_id 0 n)
      = map (fun a => 2 ^ Z.of_nat a) (seq 0 (n - 1))
   /\ snd out = res
   /\ completed_videos (progress (fst out)) = completed_videos (progress st)
   /\ failed_videos (progress (fst out))
      = (failed_videos (progress st) ++ [video_id])%list
   /\ exists f,
        self_failed_videos (fst out) = (self_failed_videos st ++ [f])%list
        /\ f_video_id f = video_id
        /\ f_error f
           = match n with
             | O => Some "Unknown error"
             | S m => attempt_error E video_id m (world st)
             end)
  /\ (forall k, (k < n)%nat ->
        (forall a, (a < k)%nat ->
                   attempt_succeeds E video_id a (world st) = false) ->
        attempt_succeeds E video_id k (world st) = true ->
        trace (snd run) = (trace st ++ attempts_from video_id 0 (S k))%list
        /\ fst run = attempt_result E video_id k (world st)
        /\ forall text data meta,
             fst run = (Some text, data, Some meta) -> text <> "" ->
             (forall a, exists path w,
                 write_transcript_file E a (world (snd run)) = (Ok path, w)) ->
             (exists r, snd out = (res ++ [r])%list
                        /\ r_status r = "success" /\ r_video_id r = video_id)
             /\ completed_videos (progress (fst out))
                = (completed_videos (progress st) ++ [video_id])%list
             /\ failed_videos (progress (fst out))
                = failed_videos (progress st)
             /\ self_failed_videos (fst out) = self_failed_videos st).
Proof.
  intros n run out.
  destruct (extract_with_retries_quiet video_id st)
    as (evs & (_ & Hp & Hf) & _).
  fold run in Hp, Hf.
  split.
  - intros Hfail.
    destruct (retry_loop_exhausted video_id (world st) n 0 (None, None, None)
                st eq_refl eq_refl)
      as (st' & Heq & Htr); [intros j Hj; apply Hfail; lia|].
    assert (Hrun : run = (match n with
                          | O => (None, None, None)
                          | S m' => attempt_result E video_id m' (world st)
                          end, st')) by exact Heq.
    split; [now rewrite Hrun|].
    split; [apply attempts_from_calls|].
    split; [apply attempts_from_backoffs|].
    assert (Hbranch : takes_success_branch E (fst run) = false).
    { rewrite Hrun. cbn [fst]. destruct n as [|m]; [reflexivity|].
      specialize (Hfail m ltac:(lia)). unfold attempt_succeeds in Hfail.
      destruct (attempt_result_some video_id m (world st))
        as (t & d & mt & Hr).
      rewrite Hr in *. destruct t as [t|]; [|reflexivity].
      cbn. now rewrite Hfail, andb_false_r. }
    subst out. rewrite (record_outcome_failure _ _ _ _ _ Hbranch).
    cbn [fst snd on_failure progress self_failed_videos set_progress
         add_failure append_failed completed_videos failed_videos].
    rewrite Hp, Hf. repeat split.
    eexists. split; [reflexivity|]. split; [reflexivity|].
    cbn [f_error]. rewrite Hrun. cbn [fst snd].
    destruct n as [|m]; [reflexivity|]. unfold attempt_error.
    destruct (attempt_result_some video_id m (world st))
      as (t & d & mt & Hr).
    rewrite Hr. reflexivity.
  - intros k Hk Hfail Hok.
    destruct (retry_loop_succeeds video_id (world st) n 0 k (None, None, None)
                st eq_refl eq_refl ltac:(lia)
                ltac:(intros j Hj; apply Hfail; lia) Hok)
      as (st' & Heq & Htr).
    assert (Hrun : run = (attempt_result E video_id k (world st), st'))
      by exact Heq.
    rewrite Nat.sub_0_r in Htr.
    split; [now rewrite Hrun|]. split; [now rewrite Hrun|].
    intros text data meta Hres Htext Hsink.
    assert (Hs : success meta = true).
    { unfold attempt_succeeds in Hok. rewrite Hrun in Hres. cbn [fst] in Hres.
      rewrite Hres in Hok. exact Hok. }
    subst out. rewrite Hres.
    rewrite record_outcome_success by (try apply truthy_true; assumption).
    destruct (on_success_saved video_id video_data text data meta (snd run)
                res Hsink) as ((r & Hr & Hst & Hid & _) & Hpr & Hfl).
    split; [exists r; auto|].
    rewrite Hpr, Hfl, Hp, Hf. repeat split.
Qed.

End PipelineFacts.

Lemma retry_exhaustion_witness :
  (forall a, (a < 3)%nat -> attempt_succeeds failing_env "x" a 0%nat = false)
  /\ trace (snd (extract_with_retries failing_env (default_extractor 50 3) "x"
                   (start_state failing_env 0%nat)))
     = [CallExtract "x" 0; SleepBackoff 1; CallExtract "x" 1; SleepBackoff 2;
        CallExtract "x" 2].
Proof.
  assert (H : forall a, (a < 3)%nat ->
                        attempt_succeeds failing_env "x" a 0%nat = false)
    by (intros a _; reflexivity).
  split; [exact H|].
  exact (proj1 (proj1 (retry_exhaustion failing_env (default_extractor 50 3)
                         "x" (video "x" "Yoma 2")
                         (start_state failing_env 0%nat) []) H)).
Defined.

(** ** Skipping, empty transcripts and save errors *)

Section ItemFacts.

Variable E : Env.
Variable self : Extractor.

Lemma process_video_unfold (st : State E) (res : Results E) (v : Video) :
  id_in (v_video_id v) (completed_videos (progress st)) = false ->
  process_video E self (st, res) v
  = let vid := v_video_id v in
    let en := enrich E self vid v (emit E (LogProcessing vid) st) in
    let run := extract_with_retries E self vid (snd en) in
    let out := record_outcome E self vid (fst en) (fst run) (snd run, res) in
    (rate_limit E self (fst out), snd out).
Proof.
  intros H. unfold process_video. rewrite H. cbn zeta.
  destruct (enrich E self _ v _) as [vd st2]. cbn [fst snd].
  destruct (extract_with_retries E self _ st2) as [ext st3]. cbn [fst snd].
  destruct (record_outcome E self _ vd ext _) as [st4 res4]. reflexivity.
Qed.

(** C9: an item of a batch that is already in the completed list leaves
    the world, the progress dictionary, [self.failed_videos] and the batch
    results as they were; its only trace is the skip log line, so there is no
    metadata fetch, no extraction attempt, no save and no rate-limit wait, and
    the loop goes on with the next item from that same state. *)
Theorem skip_changes_nothing (pre post : list Video) (v : Video)
  (st0 : State E) :
  let acc := fold_left (process_video E self) pre (st0, []) in
  id_in (v_video_id v) (completed_videos (progress (fst acc))) = true ->
  let out := process_video E self acc v in
  world (fst out) = world (fst acc)
  /\ progress (fst out) = progress (fst acc)
  /\ self_failed_videos (fst out) = self_failed_videos (fst acc)
  /\ snd out = snd acc
  /\ trace (fst out) = (trace (fst acc) ++ [LogSkip (v_video_id v)])%list
  /\ fold_left (process_video E self) (pre ++ v :: post) (st0, [])
     = fold_left (process_video E self) post out.
Proof.
  intros acc H out. subst out. destruct acc as [st res] eqn:Hacc.
  cbn [fst snd] in *. rewrite (process_video_skip E self st res v H).
  cbn [fst snd world progress self_failed_videos trace emit].
  repeat split. rewrite fold_left_app. cbn [fold_left].
  subst acc. rewrite Hacc. now rewrite (process_video_skip E self st res v H).
Qed.

(** C10: a success row is appended only when the text flattened from a
    non-empty list of fetched entries is itself non-empty after stripping;
    and when the attempt that ends the retry loop reports success on entries
    that are all white space, the text is empty, no row is appended, and the
    item is recorded as failed with the null error of that attempt. *)
Theorem success_requires_text (v : Video) (st : State E) (res : Results E) :
  id_in (v_video_id v) (completed_videos (progress st)) = false ->
  let vid := v_video_id v in
  let n := Z.to_nat (max_retries (config self)) in
  let st2 := snd (enrich E self vid v (emit E (LogProcessing vid) st)) in
  let out := process_video E self (st, res) v in
  (snd out <> res ->
   exists (d : list (Entry (pynum E))) r,
     d <> [] /\ strip (flatten_text d "") <> ""
     /\ snd out = (res ++ [r])%list /\ r_status r = "success"
     /\ r_word_count r = List.length (split (strip (flatten_text d ""))))
  /\ (forall k text d meta,
        (k < n)%nat ->
        (forall a, (a < k)%nat ->
                   attempt_succeeds E vid a (world st2) = false) ->
        attempt_result E vid k (world st2) = (text, Some d, Some meta) ->
        success meta = true -> all_blank d ->
        text = Some "" /\ error meta = None
        /\ snd out = res
        /\ completed_videos (progress (fst out))
           = completed_videos (progress st)
        /\ failed_videos (progress (fst out))
           = (failed_videos (progress st) ++ [vid])%list
        /\ exists f,
             self_failed_videos (fst out)
             = (self_failed_videos st ++ [f])%list
             /\ f_video_id f = vid /\ f_error f = error meta).
Proof.
  intros Hnew vid n st2 out. subst out.
  rewrite (process_video_unfold st res v Hnew). cbn zeta. fold vid.
  set (en := enrich E self vid v (emit E (LogProcessing vid) st)).
  fold en in st2. fold st2.
  set (run := extract_with_retries E self vid st2).
  cbn [fst snd]. split.
  - intros Hres.
    destruct (takes_success_branch E (fst run)) eqn:Hbr.
    2:{ rewrite (record_outcome_failure E self _ _ _ _ _ Hbr) in Hres.
        now elim Hres. }
    destruct (fst run) as [[[text|] data] [meta|]] eqn:Hrun;
      try discriminate Hbr.
    cbn in Hbr. apply andb_true_iff in Hbr as [Ht Hs].
    destruct (extract_with_retries_result E self vid st2)
      as [Hcur | (listing & t' & d' & m' & Hex & Hr)].
    { fold run in Hcur. rewrite Hrun in Hcur. discriminate Hcur. }
    fold run in Hr. rewrite Hrun in Hr. inversion Hr; subst t' d' m'.
    destruct (extract_success_shape E listing _ _ _ Hex Hs)
      as (_ & d & Hd & _ & Htext & Hwc).
    inversion Htext; subst text.
    rewrite (record_outcome_success E self _ _ _ _ _ _ _ Ht Hs) in Hres |- *.
    unfold on_success, save_transcript in Hres |- *.
    destruct (classify_video _ _ _) as [tractate series_type].
    destruct (write_transcript_file E _ _) as [[path|e] w].
    + cbn [snd]. eexists d, _. split; [exact Hd|].
      split; [now apply truthy_true|]. split; [reflexivity|].
      split; [reflexivity | exact Hwc].
    + cbn [snd] in Hres. now elim Hres.
  - intros k text d meta Hk Hfail Hres Hs Hblank.
    assert (Hok : attempt_succeeds E vid k (world st2) = true)
      by (unfold attempt_succeeds; now rewrite Hres).
    destruct (retry_loop_succeeds E self vid (world st2) n 0 k
                (None, None, None) st2 eq_refl eq_refl ltac:(lia)
                ltac:(intros j Hj; apply Hfail; lia) Hok)
      as (st' & Heq & _).
    assert (Hrun : run = (attempt_result E vid k (world st2), st'))
      by exact Heq.
    unfold attempt_result in Hres.
    destruct (extract_transcript E _) as [[t0 d0] m0] eqn:Hex.
    inversion Hres; subst t0 d0 m0.
    destruct (extract_success_shape E _ _ _ _ Hex Hs)
      as (Herr & d' & _ & Hd' & Htext & _).
    inversion Hd'; subst d'.
    rewrite (strip_blank _ (flatten_blank _ d "" Hblank eq_refl)) in Htext.
    split; [exact Htext|]. split; [exact Herr|].
    destruct (extract_with_retries_quiet E self vid st2)
      as (evs2 & (_ & Hp2 & Hf2) & _).
    destruct (enrich_quiet E self vid v (emit E (LogProcessing vid) st))
      as (_ & Hp1 & Hf1).
    fold en in Hp1, Hf1. fold st2 in Hp1, Hf1. fold run in Hp2, Hf2.
    assert (Hbr : takes_success_branch E (fst run) = false).
    { rewrite Hrun. cbn [fst]. unfold attempt_result. rewrite Hex, Htext.
      reflexivity. }
    rewrite (record_outcome_failure E self _ _ _ _ _ Hbr).
    cbn [fst snd on_failure progress self_failed_videos set_progress
         add_failure append_failed completed_videos failed_videos
         rate_limit emit do_sleep set_world].
    rewrite Hp2, Hf2, Hp1, Hf1. cbn [progress self_failed_videos emit].
    repeat split. eexists. split; [reflexivity|]. split; [reflexivity|].
    cbn [f_error]. rewrite Hrun. cbn [fst snd]. unfold attempt_result.
    now rewrite Hex.
Qed.

(** A save error after a good extraction: the item gets its record in
    [self.failed_videos] and no success row, and the progress dictionary
    (completed list and failed list alike) stays as it was. *)
Lemma save_error_leaves_progress (v : Video) (st : State E) (res : Results E)
  (e : string) :
  id_in (v_video_id v) (completed_videos (progress st)) = false ->
  let vid := v_video_id v in
  let st2 := snd (enrich E self vid v (emit E (LogProcessing vid) st)) in
  let run := extract_with_retries E self vid st2 in
  let out := process_video E self (st, res) v in
  takes_success_branch E (fst run) = true ->
  (forall a, exists w,
      write_transcript_file E a (world (snd run)) = (Raise e, w)) ->
  snd out = res
  /\ progress (fst out) = progress st
  /\ exists f,
       self_failed_videos (fst out) = (self_failed_videos st ++ [f])%list
       /\ f_video_id f = vid /\ f_error f = Some ("Save error: " ++ e).
Proof.
  intros Hnew vid st2 run out Hbr Hsink. subst out.
  rewrite (process_video_unfold st res v Hnew). cbn zeta. fold vid.
  set (en := enrich E self vid v (emit E (LogProcessing vid) st)).
  fold en in st2. fold st2. fold run.
  destruct (fst run) as [[[text|] data] [meta|]] eqn:Hrun;
    try discriminate Hbr.
  cbn in Hbr. apply andb_true_iff in Hbr as [Ht Hs].
  rewrite (record_outcome_success E self _ _ _ _ _ _ _ Ht Hs).
  destruct (on_success_save_error E self vid (fst en) text data meta (snd run)
              res e Hsink) as (Hres & Hp & f & Hf & Hid & Herr).
  destruct (extract_with_retries_quiet E self vid st2)
    as (evs2 & (_ & Hp2 & Hf2) & _).
  destruct (enrich_quiet E self vid v (emit E (LogProcessing vid) st))
    as (_ & Hp1 & Hf1).
  fold en in Hp1, Hf1. fold st2 in Hp1, Hf1. fold run in Hp2, Hf2.
  cbn [fst snd rate_limit emit do_sleep set_world progress
       self_failed_videos].
  split; [exact Hres|]. split.
  - rewrite Hp, Hp2, Hp1. reflexivity.
  - exists f. rewrite Hf, Hf2, Hf1. auto.
Qed.

End ItemFacts.

Lemma skip_changes_nothing_witness :
  let E := failing_env in
  let self := default_extractor 50 3 in
  let st := mkState E 0%nat (mkProgress ["x"] [] 1 1 None) [] [] in
  id_in "x" (completed_videos (progress st)) = true
  /\ process_video E self (st, []) (video "x" "Yoma 2")
     = (mkState E 0%nat (mkProgress ["x"] [] 1 1 None) [] [LogSkip "x"], []).
Proof.
  intros E self st. split; [reflexivity|].
  pose proof (skip_changes_nothing E self [] [] (video "x" "Yoma 2") st
                eq_refl) as (Hw & Hp & Hf & Hr & Ht & _).
  cbn [fold_left fst snd] in Hw, Hp, Hf, Hr, Ht.
  destruct (process_video E self (st, []) (video "x" "Yoma 2")) as [st' res'].
  destruct st' as [w p f t]. cbn in Hw, Hp, Hf, Hr, Ht. now subst.
Defined.

Lemma success_requires_text_witness :
  let E := blank_env in
  let self := default_extractor 50 3 in
  let out :=
    process_video E self (start_state E 0%nat, []) (video "x" "Yoma 2") in
  snd out = [] /\ failed_videos (progress (fst out)) = ["x"].
Proof.
  intros E self out.
  assert (Hblank : all_blank [mkEntry " " 0 1; mkEntry "  " 0 1])
    by (repeat constructor).
  pose proof (proj2 (success_requires_text E self (video "x" "Yoma 2")
                       (start_state E 0%nat) [] eq_refl)
                0%nat _ _ _ ltac:(vm_compute; lia)
                ltac:(intros a Ha; lia) eq_refl eq_refl Hblank)
    as (_ & _ & Hres & _ & Hfailed & _).
  split; [exact Hres | exact Hfailed].
Defined.

(** C4 at a concrete run: two items with good transcripts, the file of the
    first cannot be written.  The run goes on to the second item and
    completes, the first item gets its save-error record, but its identifier
    is not in the failed list of the progress dictionary. *)
Theorem save_error_missing_from_failed_set :
  let run :=
    run_extraction disk_full_env (default_extractor 50 3) None false 0%nat in
  status run = Completed
  /\ map f_video_id (self_failed_videos (final run)) = ["x"]
  /\ map f_error (self_failed_videos (final run))
     = [Some "Save error: disk full"]
  /\ failed_videos (progress (final run)) = []
  /\ completed_videos (progress (final run)) = ["y"]
  /\ map (@r_video_id _) (all_results run) = ["y"]
  /\ entered (trace (final run)) = ["x"; "y"].
Proof. vm_compute. repeat split. Qed.

(** ** Batches *)

Section BatchFacts.

Variable E : Env.
Variable self : Extractor.

(** One item of a batch: the events are about that item, the batch cursor
    is untouched, and at most one of the two identifier lists grows, by this
    identifier, and only when the item was not completed before. *)
Lemma process_video_summary (st : State E) (res : Results E) (v : Video) :
  let vid := v_video_id v in
  let st' := fst (process_video E self (st, res) v) in
  (exists evs,
      trace st' = (trace st ++ evs)%list
      /\ Forall (batch_event [vid]) evs
      /\ entered evs
         = if id_in vid (completed_videos (progress st)) then [] else [vid])
  /\ last_batch (progress st') = last_batch (progress st)
  /\ ((completed_videos (progress st') = completed_videos (progress st)
       /\ failed_videos (progress st') = failed_videos (progress st))
      \/ (~ In vid (completed_videos (progress st))
          /\ completed_videos (progress st')
             = (completed_videos (progress st) ++ [vid])%list
          /\ failed_videos (progress st') = failed_videos (progress st))
      \/ (~ In vid (completed_videos (progress st))
          /\ completed_videos (progress st') = completed_videos (progress st)
          /\ failed_videos (progress st')
             = (failed_videos (progress st) ++ [vid])%list)).
Proof.
  intros vid st'. subst st'.
  destruct (id_in vid (completed_videos (progress st))) eqn:Hin.
  - rewrite (process_video_skip E self st res v Hin). cbn [fst].
    split; [|split; [reflexivity | left; split; reflexivity]].
    exists [LogSkip vid]. split; [reflexivity|].
    split; [|reflexivity]. repeat constructor.
  - destruct (process_video_spec E self st res v Hin)
      as ((evs & Htr & Hall) & Hout).
    fold vid in Htr, Hall, Hout. apply id_in_false in Hin.
    split.
    + exists (LogProcessing vid :: evs). split; [exact Htr|]. split.
      * constructor; [now left|].
        eapply Forall_impl; [|exact Hall]. apply inner_batch_event.
      * cbn [entered]. now rewrite (inner_entered vid evs Hall).
    + destruct Hout as [r st1 Hp Hf _ _ | f st1 Hp Hf _ | f st1 Hp Hf _];
        cbn [fst]; rewrite Hp; cbn; auto 6.
Qed.

Lemma batch_event_app (ids ids' : list string) (evs : list event) :
  Forall (batch_event ids') evs -> incl ids' ids ->
  Forall (batch_event ids) evs.
Proof.
  intros H Hi. eapply Forall_impl; [|exact H].
  intros e. now apply batch_event_incl.
Qed.

(** The items of a batch in sequence. *)
Lemma fold_summary (vs : list Video) (st : State E) (res : Results E) :
  let st' := fst (fold_left (process_video E self) vs (st, res)) in
  (exists evs,
      trace st' = (trace st ++ evs)%list
      /\ Forall (batch_event (video_ids vs)) evs)
  /\ last_batch (progress st') = last_batch (progress st)
  /\ incl (completed_videos (progress st)) (completed_videos (progress st'))
  /\ incl (failed_videos (progress st)) (failed_videos (progress st'))
  /\ (forall x, In x (completed_videos (progress st')) ->
                In x (completed_videos (progress st)) \/ In x (video_ids vs))
  /\ (forall x, In x (failed_videos (progress st')) ->
                In x (failed_videos (progress st)) \/ In x (video_ids vs)).
Proof.
  revert st res. induction vs as [|v vs IH]; intros st res; cbn [fold_left].
  - cbn [fst]. split; [exists []; now rewrite app_nil_r|].
    repeat split; auto using incl_refl.
  - destruct (process_video E self (st, res) v) as [st1 res1] eqn:Hpv.
    pose proof (process_video_summary st res v) as Hs.
    rewrite Hpv in Hs. cbn [fst] in Hs.
    destruct Hs as ((evs1 & T1 & A1 & _) & L1 & Hsets).
    destruct (IH st1 res1) as ((evs2 & T2 & A2) & L2 & C2 & F2 & C2' & F2').
    assert (Hc : incl (completed_videos (progress st))
                   (completed_videos (progress st1))
                 /\ forall x, In x (completed_videos (progress st1)) ->
                      In x (completed_videos (progress st))
                      \/ x = v_video_id v).
    { destruct Hsets as [[Hq _] | [(_ & Hq & _) | (_ & Hq & _)]];
        rewrite Hq; split; try apply incl_refl;
        auto using incl_appl, incl_refl.
      intros x Hx. apply in_app_or in Hx as [ ? | [ <- | [] ] ]; auto. }
    assert (Hf : incl (failed_videos (progress st))
                   (failed_videos (progress st1))
                 /\ forall x, In x (failed_videos (progress st1)) ->
                      In x (failed_videos (progress st))
                      \/ x = v_video_id v).
    { destruct Hsets as [[_ Hq] | [(_ & _ & Hq) | (_ & _ & Hq)]];
        rewrite Hq; split; try apply incl_refl;
        auto using incl_appl, incl_refl.
      intros x Hx. apply in_app_or in Hx as [ ? | [ <- | [] ] ]; auto. }
    destruct Hc as [Hc Hc'], Hf as [Hf Hf'].
    split; [|repeat split].
    + exists (evs1 ++ evs2)%list. split.
      * rewrite T2, T1. now rewrite app_assoc.
      * apply Forall_app. split.
        { apply (batch_event_app _ _ _ A1). intros x [<-|[]]. now left. }
        apply (batch_event_app _ _ _ A2). intros x Hx. now right.
    + now rewrite L2.
    + eapply incl_tran; eassumption.
    + eapply incl_tran; eassumption.
    + intros x Hx. destruct (C2' x Hx) as [H|H]; [|right; now right].
      destruct (Hc' x H) as [ ? | -> ]; [now left | right; now left].
    + intros x Hx. destruct (F2' x Hx) as [H|H]; [|right; now right].
      destruct (Hf' x H) as [ ? | -> ]; [now left | right; now left].
Qed.

Lemma fold_entered (vs : list Video) (st : State E) (res : Results E) :
  NoDup (video_ids vs) ->
  (forall x, In x (video_ids vs) ->
             ~ In x (completed_videos (progress st))) ->
  entered (trace (fst (fold_left (process_video E self) vs (st, res))))
  = (entered (trace st) ++ video_ids vs)%list.
Proof.
  revert st res. induction vs as [|v vs IH]; intros st res Hnd Hnew;
    cbn [fold_left].
  - cbn. now rewrite app_nil_r.
  - destruct (process_video E self (st, res) v) as [st1 res1] eqn:Hpv.
    pose proof (process_video_summary st res v) as Hs.
    rewrite Hpv in Hs. cbn [fst] in Hs.
    destruct Hs as ((evs1 & T1 & _ & En1) & _ & Hsets).
    cbn [video_ids map] in Hnd. inversion Hnd as [|? ? Hv Hnd']; subst.
    assert (Hfresh : id_in (v_video_id v) (completed_videos (progress st))
                     = false)
      by (apply id_in_false, Hnew; now left).
    rewrite Hfresh in En1.
    rewrite IH.
    + rewrite T1, entered_app, En1. cbn [video_ids map].
      now rewrite <- app_assoc.
    + exact Hnd'.
    + intros x Hx Hin.
      assert (Hold : In x (completed_videos (progress st))
                     \/ x = v_video_id v).
      { destruct Hsets as [[Hq _] | [(_ & Hq & _) | (_ & Hq & _)]];
          rewrite Hq in Hin; auto.
        apply in_app_or in Hin as [ ? | [ <- | [] ] ]; auto. }
      destruct Hold as [Hold | ->].
      * apply (Hnew x); [now right | exact Hold].
      * now apply Hv.
Qed.

Lemma fold_disjoint (vs : list Video) (st : State E) (res : Results E) :
  NoDup (video_ids vs) ->
  (forall x, In x (video_ids vs) -> ~ In x (failed_videos (progress st))) ->
  disjoint_ids (completed_videos (progress st))
    (failed_videos (progress st)) ->
  let st' := fst (fold_left (process_video E self) vs (st, res)) in
  disjoint_ids (completed_videos (progress st'))
    (failed_videos (progress st')).
Proof.
  revert st res. induction vs as [|v vs IH]; intros st res Hnd Hnew Hdis;
    cbn [fold_left]; [exact Hdis|].
  destruct (process_video E self (st, res) v) as [st1 res1] eqn:Hpv.
  pose proof (process_video_summary st res v) as Hs.
  rewrite Hpv in Hs. cbn [fst] in Hs.
  destruct Hs as (_ & _ & Hsets).
  cbn [video_ids map] in Hnd. inversion Hnd as [|? ? Hv Hnd']; subst.
  assert (Hvf : ~ In (v_video_id v) (failed_videos (progress st)))
    by (apply Hnew; now left).
  apply IH; [exact Hnd' | |].
  - intros x Hx Hin.
    assert (Hold : In x (failed_videos (progress st)) \/ x = v_video_id v).
    { destruct Hsets as [[_ Hq] | [(_ & _ & Hq) | (_ & _ & Hq)]];
        rewrite Hq in Hin; auto.
      apply in_app_or in Hin as [ ? | [ <- | [] ] ]; auto. }
    destruct Hold as [Hold | ->].
    + apply (Hnew x); [now right | exact Hold].
    + now apply Hv.
  - destruct Hsets as [[Hc Hf] | [(Hn & Hc & Hf) | (Hn & Hc & Hf)]];
      rewrite Hc, Hf; intros x Hx Hin.
    + exact (Hdis x Hx Hin).
    + apply in_app_or in Hx as [ Hx | [ <- | [] ] ];
        [exact (Hdis x Hx Hin) | exact (Hvf Hin)].
    + apply in_app_or in Hin as [ Hin | [ <- | [] ] ];
        [exact (Hdis x Hx Hin) | exact (Hn Hx)].
Qed.

(** A batch is its items in sequence between the opening log line and the
    save of the progress dictionary with the new cursor. *)
Lemma process_video_batch_unfold (vs : list Video) (bn tb : Z)
  (st : State E) :
  process_video_batch E self vs bn tb st
  = let f :=
      fold_left (process_video E self) vs (emit E (LogBatch bn tb) st, []) in
    let p := set_last_batch bn (progress (fst f)) in
    (save_progress E p (set_progress E p (fst f)), snd f).
Proof.
  unfold process_video_batch.
  destruct (fold_left _ vs _) as [st1 res1]. reflexivity.
Qed.

Lemma firstn_succ_batch (l : list Video) (bs : Z) (k : nat) :
  firstn (S k * Z.to_nat bs) l
  = (firstn (k * Z.to_nat bs) l ++ nth_batch l bs k)%list.
Proof.
  unfold nth_batch. set (b := Z.to_nat bs). set (m := (k * b)%nat).
  replace (S k * b)%nat with (m + b)%nat by (subst m; lia).
  clearbody m. revert l. induction m as [|m IH]; intros l; [reflexivity|].
  destruct l as [|x l]; cbn [plus firstn skipn app].
  - now rewrite firstn_nil.
  - now rewrite IH.
Qed.

Lemma nth_batch_incl (l : list Video) (bs : Z) (k : nat) :
  incl (nth_batch l bs k) l.
Proof.
  unfold nth_batch. intros x Hx.
  rewrite <- (firstn_skipn (k * Z.to_nat bs) l). apply in_or_app. right.
  rewrite <- (firstn_skipn (Z.to_nat bs) (skipn (k * Z.to_nat bs) l)).
  apply in_or_app. now left.
Qed.

Lemma NoDup_prefix_ids (l : list Video) (m : nat) :
  NoDup (video_ids l) -> NoDup (video_ids (firstn m l)).
Proof.
  intros H. rewrite <- (firstn_skipn m l) in H. unfold video_ids in *.
  rewrite map_app in H. now apply NoDup_app_remove_r in H.
Qed.

Lemma NoDup_app_disjoint (a b : list string) :
  NoDup (a ++ b) -> NoDup a /\ NoDup b /\ disjoint_ids a b.
Proof.
  induction a as [|x a IH]; cbn [app]; intros H.
  - repeat split; [constructor | exact H | intros y []].
  - inversion H as [|? ? Hx Hnd]; subst.
    destruct (IH Hnd) as (Ha & Hb & Hd). repeat split.
    + constructor; [|exact Ha]. intros Hin. apply Hx, in_or_app. now left.
    + exact Hb.
    + intros y [<-|Hy] Hin; [apply Hx, in_or_app; now right|].
      exact (Hd y Hy Hin).
Qed.

(** The [k]-th batch of a duplicate-free list is duplicate-free and shares
    no identifier with the batches before it. *)
Lemma nth_batch_fresh (l : list Video) (bs : Z) (k : nat) :
  NoDup (video_ids l) ->
  NoDup (video_ids (nth_batch l bs k))
  /\ disjoint_ids (video_ids (firstn (k * Z.to_nat bs) l))
       (video_ids (nth_batch l bs k)).
Proof.
  intros H. apply (NoDup_prefix_ids l (S k * Z.to_nat bs)) in H.
  rewrite firstn_succ_batch in H. unfold video_ids in *.
  rewrite map_app in H. apply NoDup_app_disjoint in H as (_ & Hb & Hd).
  split; assumption.
Qed.

End BatchFacts.

(** ** The batch loop of a run *)

Section RunFacts.

Variable E : Env.
Variable self : Extractor.

Lemma run_event_of_batch (ids' ids : list string) (e : event) :
  incl ids' ids -> batch_event ids' e -> run_event ids e.
Proof. intros Hi. destruct e; cbn; auto. Qed.

Lemma py_range_pos (n bs : Z) :
  0 < bs ->
  py_range n bs
  = map (fun k => Z.of_nat k * bs) (seq 0 (Z.to_nat ((n + bs - 1) / bs))).
Proof.
  intros H. unfold py_range.
  replace (bs <=? 0) with false by (symmetry; apply Z.leb_gt; lia).
  reflexivity.
Qed.

(** The loop body at the start index of the batch in position [k]. *)
Lemma batch_step_at (resume : bool) (remaining : list Video) (tb : Z)
  (st : State E) (res : Results E) (k : nat) :
  0 < batch_size (config self) ->
  batch_step E self resume remaining tb (st, res)
    (Z.of_nat k * batch_size (config self))
  = if resume && (Z.of_nat k + 1 <=? last_batch (progress st)) then (st, res)
    else
      let out :=
        process_video_batch E self
          (nth_batch remaining (batch_size (config self)) k)
          (Z.of_nat k + 1) tb st in
      (if Z.of_nat k + 1 <? tb
       then emit E (SleepBatch 5) (do_sleep E 5 (fst out))
       else fst out, (res ++ snd out)%list).
Proof.
  intros Hbs. unfold batch_step. cbn zeta.
  rewrite Z.div_mul by lia.
  destruct (resume && (Z.of_nat k + 1 <=? last_batch (progress st)));
    [reflexivity|].
  unfold slice, nth_batch.
  replace (Z.of_nat k * batch_size (config self) + batch_size (config self)
           - Z.of_nat k * batch_size (config self))
    with (batch_size (config self)) by lia.
  rewrite Z2Nat.inj_mul, Nat2Z.id by lia.
  destruct (process_video_batch E self _ _ tb st) as [st' r]. reflexivity.
Qed.

(** Induction over the batches of a run, in order. *)
Lemma run_batches_ind (resume : bool) (remaining : list Video)
  (st0 : State E) (P : nat -> State E * Results E -> Prop) :
  0 < batch_size (config self) ->
  let bs := batch_size (config self) in
  let tb := batch_count remaining bs in
  P 0%nat (st0, []) ->
  (forall k acc, (k < Z.to_nat tb)%nat -> P k acc ->
     P (S k) (batch_step E self resume remaining tb acc (Z.of_nat k * bs))) ->
  P (Z.to_nat tb) (run_batches E self resume remaining st0).
Proof.
  intros Hbs bs tb H0 Hstep. unfold run_batches. cbn zeta.
  rewrite py_range_pos by exact Hbs. fold bs. fold (batch_count remaining bs).
  fold tb.
  assert (H : forall m, (m <= Z.to_nat tb)%nat ->
            P m (fold_left (batch_step E self resume remaining tb)
                   (map (fun k => Z.of_nat k * bs) (seq 0 m)) (st0, []))).
  { induction m as [|m IH]; intros Hm; [exact H0|].
    rewrite seq_S, map_app, fold_left_app. cbn [map fold_left plus].
    apply Hstep; [lia | apply IH; lia]. }
  apply H. lia.
Qed.

(** With a non-positive batch size other than 0 the loop has no iteration. *)
Lemma run_batches_nonpos (resume : bool) (remaining : list Video)
  (st0 : State E) :
  batch_size (config self) <= 0 ->
  run_batches E self resume remaining st0 = (st0, []).
Proof.
  intros H. unfold run_batches, py_range.
  replace (batch_size (config self) <=? 0) with true
    by (symmetry; apply Z.leb_le; lia).
  reflexivity.
Qed.

Lemma get_channel_videos_quiet (max_videos : option Z) (st : State E) :
  quiet_step E st (snd (get_channel_videos E self max_videos st)) [].
Proof.
  unfold get_channel_videos.
  destruct (youtube_service self); cbn [negb]; [|apply quiet_step_refl].
  destruct (playlist_items E (world st)) as [videos w]. cbn [snd].
  unfold quiet_step. cbn. now rewrite app_nil_r.
Qed.

(** The end of a run adds the catalog and rename events and leaves the
    progress dictionary as the batch loop left it. *)
Lemma finish_run_spec (st : State E) (res : Results E) :
  let run := finish_run E (st, res) in
  progress (final run) = progress st
  /\ all_results run = res
  /\ (status run = Completed \/ exists e, status run = Raised e)
  /\ (trace (final run) = (trace st ++ [GenerateCatalog])%list
      \/ trace (final run)
         = (trace st ++ [GenerateCatalog; RenameProgress])%list).
Proof.
  unfold finish_run. cbn [world emit self_failed_videos].
  destruct (write_reports E res (self_failed_videos st) (world st))
    as [[u|e] w]; cbn [world set_world emit].
  - destruct res as [|r res'].
    + cbn. repeat split; eauto.
    + destruct (path_exists (progress_file E w)); cbn.
      * repeat split; auto. right. now rewrite <- app_assoc.
      * repeat split; auto.
  - cbn. repeat split; eauto.
Qed.

Lemma finish_run_observed (st : State E) (res : Results E)
  (ids : list string) :
  let run := finish_run E (st, res) in
  entered (trace (final run)) = entered (trace st)
  /\ opened_batches (trace (final run)) = opened_batches (trace st)
  /\ (Forall (run_event ids) (trace st) ->
      Forall (run_event ids) (trace (final run))).
Proof.
  intros run. destruct (finish_run_spec st res) as (_ & _ & _ & [Ht|Ht]);
    fold run in Ht; rewrite Ht, entered_app, opened_batches_app; cbn;
    rewrite !app_nil_r; repeat split; intros H; apply Forall_app; split;
    try exact H; repeat constructor.
Qed.

(** A batch seen from outside: the opening line, events of its items, the
    save of the progress dictionary, whose cursor is now this batch. *)
Lemma process_video_batch_trace (vs : list Video) (bn tb : Z) (st : State E) :
  let out := process_video_batch E self vs bn tb st in
  (exists evs,
      trace (fst out)
      = (trace st ++ LogBatch bn tb :: evs
           ++ [SaveProgress (progress (fst out))])%list
      /\ Forall (batch_event (video_ids vs)) evs)
  /\ last_batch (progress (fst out)) = bn.
Proof.
  rewrite process_video_batch_unfold.
  destruct (fold_summary E self vs (emit E (LogBatch bn tb) st) [])
    as ((evs & T & A) & _).
  set (f := fold_left (process_video E self) vs
              (emit E (LogBatch bn tb) st, [])) in *.
  cbn zeta. unfold save_progress, set_progress, set_world, emit.
  cbn [fst snd trace progress set_last_batch last_batch].
  split; [|reflexivity]. exists evs. split; [|exact A].
  rewrite T. cbn [trace emit]. rewrite <- !app_assoc. reflexivity.
Qed.


(** A batch that is not skipped, relative to the state [f] in which its
    last item leaves the loop. *)
Lemma batch_step_observed (resume : bool) (remaining : list Video) (tb : Z)
  (st : State E) (res : Results E) (k : nat) :
  0 < batch_size (config self) ->
  resume && (Z.of_nat k + 1 <=? last_batch (progress st)) = false ->
  let bs := batch_size (config self) in
  let f :=
    fold_left (process_video E self) (nth_batch remaining bs k)
      (emit E (LogBatch (Z.of_nat k + 1) tb) st, []) in
  let acc' := batch_step E self resume remaining tb (st, res)
                (Z.of_nat k * bs) in
  progress (fst acc') = set_last_batch (Z.of_nat k + 1) (progress (fst f))
  /\ entered (trace (fst acc')) = entered (trace (fst f))
  /\ opened_batches (trace (fst acc')) = opened_batches (trace (fst f))
  /\ (forall ids, Forall (run_event ids) (trace (fst f)) ->
                  Forall (run_event ids) (trace (fst acc'))).
Proof.
  intros Hbs Hgo bs f acc'. subst acc' bs.
  rewrite batch_step_at by exact Hbs. rewrite Hgo. cbn zeta.
  rewrite process_video_batch_unfold. cbn zeta. fold f.
  destruct (Z.of_nat k + 1 <? tb);
    cbn [fst snd save_progress set_progress emit set_world trace progress
         do_sleep];
    rewrite ?entered_app, ?opened_batches_app; cbn [entered opened_batches];
    rewrite ?app_nil_r; repeat split; intros ids H;
    repeat (apply Forall_app; split); try exact H; repeat constructor.
Qed.




Lemma remaining_of_nil (resume : bool) (completed : list string) :
  remaining_of resume completed [] = [].
Proof. destruct resume, completed; reflexivity. Qed.

(** [run_extraction] once the progress dictionary and the channel listing
    are known. *)
Lemma run_extraction_unfold (max_videos : option Z) (resume : bool)
  (w : World E) (p : Progress) (vs : list Video) (st1 : State E) :
  initial_progress E resume w = Ok p ->
  get_channel_videos E self max_videos (mkState E w p [] []) = (vs, st1) ->
  progress st1 = p /\ trace st1 = [] /\ self_failed_videos st1 = []
  /\ run_extraction E self max_videos resume w
     = let remaining := remaining_of resume (completed_videos p) vs in
       match vs, remaining with
       | [], _ => mkRun E NoVideosFound st1 []
       | _ :: _, [] => mkRun E AllAlreadyProcessed st1 []
       | _ :: _, _ :: _ =>
           if batch_size (config self) =? 0
           then mkRun E (Raised "ZeroDivisionError") st1 []
           else finish_run E (run_batches E self resume remaining st1)
       end.
Proof.
  intros Hp Hv.
  pose proof (get_channel_videos_quiet max_videos (mkState E w p [] []))
    as (T & P & F).
  rewrite Hv in T, P, F. cbn [snd trace progress self_failed_videos app] in *.
  repeat split; try assumption.
  unfold run_extraction. rewrite Hp, Hv, P. cbn zeta.
  destruct vs as [|v vs']; [reflexivity|].
  destruct (remaining_of resume (completed_videos p) (v :: vs'));
    reflexivity.
Qed.










(** *** What a run enters *)

Lemma batches_cover (l : list Video) (bs : Z) :
  0 < bs ->
  (List.length l <= Z.to_nat (batch_count l bs) * Z.to_nat bs)%nat.
Proof.
  intros Hbs. unfold batch_count.
  set (n := Z.of_nat (List.length l)).
  assert (Hn : 0 <= n) by (subst n; lia).
  pose proof (Z.div_mod (n + bs - 1) bs ltac:(lia)) as Hdm.
  pose proof (Z.mod_pos_bound (n + bs - 1) bs Hbs) as Hmod.
  assert (Hq : 0 <= (n + bs - 1) / bs) by (apply Z.div_pos; lia).
  assert (Hge : n <= (n + bs - 1) / bs * bs) by lia.
  apply Nat2Z.inj_le. rewrite Nat2Z.inj_mul, !Z2Nat.id by lia.
  exact Hge.
Qed.

Lemma firstn_all_batches (l : list Video) (bs : Z) :
  0 < bs -> firstn (Z.to_nat (batch_count l bs) * Z.to_nat bs) l = l.
Proof. intros H. apply firstn_all2, batches_cover, H. Qed.

Lemma NoDup_filter_ids (g : Video -> bool) (l : list Video) :
  NoDup (video_ids l) -> NoDup (video_ids (filter g l)).
Proof.
  induction l as [|v l IH]; cbn [video_ids map filter]; intros H;
    [constructor|].
  inversion H as [|? ? Hv Hnd]; subst.
  destruct (g v); [|now apply IH].
  cbn [map]. constructor; [|now apply IH].
  intros Hin. apply Hv. apply in_map_iff in Hin as (u & Hu & Hf).
  apply filter_In in Hf as [Hf _]. apply in_map_iff. now exists u.
Qed.

(** The remaining list keeps the order of the channel listing, has none of
    the completed identifiers when it was filtered, and no duplicates if the
    listing had none. *)
Lemma remaining_of_spec (resume : bool) (completed : list string)
  (vs : list Video) :
  incl (video_ids (remaining_of resume completed vs)) (video_ids vs)
  /\ (NoDup (video_ids vs) ->
      NoDup (video_ids (remaining_of resume completed vs)))
  /\ (resume = true ->
      video_ids (remaining_of resume completed vs)
      = filter (fun x => negb (id_in x completed)) (video_ids vs)).
Proof.
  unfold remaining_of, not_completed, video_ids.
  destruct resume; [destruct completed as [|c cs]|].
  - repeat split; auto using incl_refl. intros _.
    induction vs as [|v vs IH]; [reflexivity|].
    cbn [map filter id_in existsb negb]. f_equal. exact IH.
  - split; [|split].
    + intros x Hx. apply in_map_iff in Hx as (u & Hu & Hf).
      apply filter_In in Hf as [Hf _]. apply in_map_iff. now exists u.
    + apply NoDup_filter_ids.
    + intros _. now rewrite filter_map_swap.
  - repeat split; auto using incl_refl. discriminate.
Qed.

Lemma run_batches_entered (resume : bool) (remaining : list Video)
  (st0 : State E) :
  0 < batch_size (config self) ->
  NoDup (video_ids remaining) ->
  (forall x, In x (video_ids remaining) ->
             ~ In x (completed_videos (progress st0))) ->
  (resume = true -> last_batch (progress st0) < 1) ->
  let st' := fst (run_batches E self resume remaining st0) in
  entered (trace st') = (entered (trace st0) ++ video_ids remaining)%list
  /\ (Forall (run_event (video_ids remaining)) (trace st0) ->
      Forall (run_event (video_ids remaining)) (trace st')).
Proof.
  intros Hbs Hnd Hnew HL.
  set (bs := batch_size (config self)). set (b := Z.to_nat bs).
  pose (P := fun (k : nat) (acc : State E * Results E) =>
    entered (trace (fst acc))
    = (entered (trace st0) ++ video_ids (firstn (k * b) remaining))%list
    /\ (forall x, In x (completed_videos (progress (fst acc))) ->
          In x (completed_videos (progress st0))
          \/ In x (video_ids (firstn (k * b) remaining)))
    /\ (resume = true -> last_batch (progress (fst acc)) < Z.of_nat k + 1)
    /\ (Forall (run_event (video_ids remaining)) (trace st0) ->
        Forall (run_event (video_ids remaining)) (trace (fst acc)))).
  enough (HP : P (Z.to_nat (batch_count remaining bs))
                 (run_batches E self resume remaining st0)).
  { destruct HP as (He & _ & _ & Hf). cbn zeta. split; [|exact Hf].
    rewrite He. subst b. now rewrite firstn_all_batches. }
  apply run_batches_ind; [exact Hbs | |].
  - unfold P. cbn. rewrite app_nil_r.
    repeat split; auto; intros H; specialize (HL H); lia.
  - intros k [st res] _ (He & Hc & Hlb & Hf). cbn [fst] in He, Hc, Hlb, Hf.
    assert (Hgo : resume && (Z.of_nat k + 1 <=? last_batch (progress st))
                  = false).
    { destruct resume; [|reflexivity]. cbn [andb]. apply Z.leb_gt.
      now apply Hlb. }
    destruct (batch_step_observed resume remaining
                (batch_count remaining bs) st res k Hbs Hgo)
      as (Hp' & He' & _ & Hf').
    fold bs in Hp', He', Hf'.
    set (st_b := emit E (LogBatch (Z.of_nat k + 1)
                           (batch_count remaining bs)) st) in *.
    destruct (nth_batch_fresh remaining bs k Hnd) as (Hnd_b & Hdis).
    fold b in Hdis.
    assert (Hfresh : forall x, In x (video_ids (nth_batch remaining bs k)) ->
                               ~ In x (completed_videos (progress st_b))).
    { intros x Hx Hin. cbn [st_b progress emit] in Hin.
      destruct (Hc x Hin) as [H0 | Hpre].
      - apply (Hnew x); [|exact H0].
        apply in_map_iff in Hx as (u & <- & Hu).
        apply in_map_iff. exists u. split; [reflexivity|].
        now apply (nth_batch_incl remaining bs k).
      - exact (Hdis x Hpre Hx). }
    pose proof (fold_entered E self (nth_batch remaining bs k) st_b []
                  Hnd_b Hfresh) as Hent.
    destruct (fold_summary E self (nth_batch remaining bs k) st_b [])
      as ((evs & T & A) & _ & _ & _ & Hcf & _).
    unfold P. cbn [fst]. fold bs. split; [|split; [|split]].
    + rewrite He', Hent. cbn [st_b trace emit].
      rewrite entered_app, He. cbn [entered]. rewrite app_nil_r.
      subst b. rewrite firstn_succ_batch. unfold video_ids.
      now rewrite map_app, app_assoc.
    + rewrite Hp'. cbn [set_last_batch completed_videos]. intros x Hx.
      subst b. rewrite firstn_succ_batch.
      assert (Hsplit : forall l1 l2 : list Video,
                 In x (video_ids l1) \/ In x (video_ids l2) ->
                 In x (video_ids (l1 ++ l2))).
      { intros l1 l2 H. unfold video_ids in *. rewrite map_app.
        apply in_or_app. exact H. }
      destruct (Hcf x Hx) as [Hin | Hin].
      * cbn [st_b progress emit] in Hin.
        destruct (Hc x Hin) as [|Hpre]; [now left|].
        right. apply Hsplit. now left.
      * right. apply Hsplit. now right.
    + intros _. rewrite Hp'. cbn [set_last_batch last_batch]. lia.
    + intros H0. apply Hf'. rewrite T. cbn [st_b trace emit].
      apply Forall_app. split.
      * apply Forall_app. split; [now apply Hf | repeat constructor].
      * eapply Forall_impl; [|exact A]. intros e.
        apply run_event_of_batch. intros x Hx.
        apply in_map_iff in Hx as (u & <- & Hu).
        apply in_map_iff. exists u. split; [reflexivity|].
        now apply (nth_batch_incl remaining bs k).
Qed.


Lemma remaining_of_true (completed : list string) (vs : list Video) :
  remaining_of true completed vs = not_completed completed vs.
Proof.
  destruct completed as [|c cs]; [|reflexivity]. cbn [remaining_of].
  unfold not_completed. induction vs as [|v vs IH]; [reflexivity|].
  cbn [filter id_in existsb negb]. f_equal. exact IH.
Qed.





End RunFacts.




(** ** The completed and failed lists over a run *)

Section SetFacts.

Variable E : Env.
Variable self : Extractor.

(** Identifiers are never removed from either list. *)
Lemma run_batches_monotone (resume : bool) (remaining : list Video)
  (st0 : State E) :
  let st' := fst (run_batches E self resume remaining st0) in
  incl (completed_videos (progress st0)) (completed_videos (progress st'))
  /\ incl (failed_videos (progress st0)) (failed_videos (progress st')).
Proof.
  destruct (Z.ltb_spec 0 (batch_size (config self))) as [Hbs | Hbs].
  2:{ rewrite run_batches_nonpos by exact Hbs. cbn.
      split; apply incl_refl. }
  pose (P := fun (k : nat) (acc : State E * Results E) =>
    incl (completed_videos (progress st0))
      (completed_videos (progress (fst acc)))
    /\ incl (failed_videos (progress st0))
         (failed_videos (progress (fst acc)))).
  enough (HP : P (Z.to_nat (batch_count remaining (batch_size (config self))))
                 (run_batches E self resume remaining st0)) by exact HP.
  apply run_batches_ind; [exact Hbs | split; apply incl_refl |].
  intros k [st res] _ (Hc & Hf). cbn [fst] in Hc, Hf. unfold P.
  destruct (resume && (Z.of_nat k + 1 <=? last_batch (progress st))) eqn:Hgo.
  - rewrite batch_step_at, Hgo by exact Hbs. split; assumption.
  - destruct (batch_step_observed E self resume remaining
                (batch_count remaining (batch_size (config self)))
                st res k Hbs Hgo) as (Hp' & _).
    rewrite Hp'. cbn [set_last_batch completed_videos failed_videos].
    match goal with
    | |- context [fold_left (process_video E self) ?vs (?s, [])] =>
        destruct (fold_summary E self vs s []) as (_ & _ & Hc' & Hf' & _)
    end.
    split; eapply incl_tran; eassumption.
Qed.

(** Over a duplicate-free list none of whose items is in the failed list
    at the start, the two lists stay disjoint. *)
Lemma run_batches_disjoint (resume : bool) (remaining : list Video)
  (st0 : State E) :
  NoDup (video_ids remaining) ->
  (forall x, In x (video_ids remaining) ->
             ~ In x (failed_videos (progress st0))) ->
  disjoint_ids (completed_videos (progress st0))
    (failed_videos (progress st0)) ->
  let st' := fst (run_batches E self resume remaining st0) in
  disjoint_ids (completed_videos (progress st')) (failed_videos (progress st')).
Proof.
  intros Hnd Hnew Hdis.
  destruct (Z.ltb_spec 0 (batch_size (config self))) as [Hbs | Hbs].
  2:{ rewrite run_batches_nonpos by exact Hbs. exact Hdis. }
  set (bs := batch_size (config self)). set (b := Z.to_nat bs).
  pose (P := fun (k : nat) (acc : State E * Results E) =>
    disjoint_ids (completed_videos (progress (fst acc)))
      (failed_videos (progress (fst acc)))
    /\ forall x, In x (failed_videos (progress (fst acc))) ->
         In x (failed_videos (progress st0))
         \/ In x (video_ids (firstn (k * b) remaining))).
  enough (HP : P (Z.to_nat (batch_count remaining bs))
                 (run_batches E self resume remaining st0)) by apply HP.
  apply run_batches_ind; [exact Hbs | split; auto |].
  intros k [st res] _ (Hd & Hf). cbn [fst] in Hd, Hf. unfold P.
  assert (Hsplit : forall x (l1 l2 : list Video),
             In x (video_ids l1) \/ In x (video_ids l2) ->
             In x (video_ids (l1 ++ l2))).
  { intros x l1 l2 H. unfold video_ids in *. rewrite map_app.
    apply in_or_app. exact H. }
  subst b. rewrite firstn_succ_batch.
  destruct (resume && (Z.of_nat k + 1 <=? last_batch (progress st))) eqn:Hgo.
  - fold bs. rewrite batch_step_at, Hgo by exact Hbs. cbn [fst].
    split; [exact Hd|]. intros x Hx.
    destruct (Hf x Hx) as [|Hpre]; [now left|]. right. apply Hsplit. now left.
  - destruct (batch_step_observed E self resume remaining
                (batch_count remaining bs) st res k Hbs Hgo) as (Hp' & _).
    fold bs in Hp' |- *. rewrite Hp'.
    cbn [set_last_batch completed_videos failed_videos].
    set (st_b := emit E (LogBatch (Z.of_nat k + 1)
                           (batch_count remaining bs)) st) in *.
    destruct (nth_batch_fresh remaining bs k Hnd) as (Hnd_b & Hdisj).
    assert (Hfresh : forall x, In x (video_ids (nth_batch remaining bs k)) ->
                               ~ In x (failed_videos (progress st_b))).
    { intros x Hx Hin. cbn [st_b progress emit] in Hin.
      destruct (Hf x Hin) as [H0 | Hpre].
      - apply (Hnew x); [|exact H0].
        apply in_map_iff in Hx as (u & <- & Hu).
        apply in_map_iff. exists u. split; [reflexivity|].
        now apply (nth_batch_incl remaining bs k).
      - exact (Hdisj x Hpre Hx). }
    split.
    + apply (fold_disjoint E self (nth_batch remaining bs k) st_b []
               Hnd_b Hfresh). exact Hd.
    + destruct (fold_summary E self (nth_batch remaining bs k) st_b [])
        as (_ & _ & _ & _ & _ & Hff).
      intros x Hx. destruct (Hff x Hx) as [Hin | Hin].
      * cbn [st_b progress emit] in Hin.
        destruct (Hf x Hin) as [|Hpre]; [now left|].
        right. apply Hsplit. now left.
      * right. apply Hsplit. now right.
Qed.

(** C5, as the code has it: no identifier is ever taken out of the failed
    list or the completed list, so the lists at the end of a run contain
    those of the start; and when the run starts from disjoint lists, over a
    duplicate-free listing none of whose identifiers is in the failed list,
    the completed list and the failed list are disjoint at the end. *)
Theorem completed_failed_disjoint (max_videos : option Z) (resume : bool)
  (w : World E) (p : Progress) (vs : list Video) (st1 : State E) :
  initial_progress E resume w = Ok p ->
  get_channel_videos E self max_videos (mkState E w p [] []) = (vs, st1) ->
  let p' := progress (final (run_extraction E self max_videos resume w)) in
  incl (failed_videos p) (failed_videos p')
  /\ incl (completed_videos p) (completed_videos p')
  /\ (NoDup (video_ids vs) ->
      disjoint_ids (completed_videos p) (failed_videos p) ->
      (forall x, In x (video_ids vs) -> ~ In x (failed_videos p)) ->
      disjoint_ids (completed_videos p') (failed_videos p')).
Proof.
  intros Hp Hv.
  destruct (run_extraction_unfold E self max_videos resume w p vs st1 Hp Hv)
    as (P1 & _ & _ & Hrun).
  cbn zeta in Hrun. rewrite Hrun. clear Hrun.
  destruct (remaining_of_spec resume (completed_videos p) vs)
    as (Hincl & Hnd' & _).
  set (remaining := remaining_of resume (completed_videos p) vs) in *.
  destruct vs as [|v vs']; [|destruct remaining as [|r rs] eqn:Hr];
    [| |destruct (batch_size (config self) =? 0)];
    cbn [final progress]; rewrite ?P1;
    try (split; [apply incl_refl | split; [apply incl_refl | auto]]).
  destruct (run_batches_monotone resume (r :: rs) st1) as (Hc & Hf).
  pose proof (run_batches_disjoint resume (r :: rs) st1) as Hd.
  destruct (run_batches E self resume (r :: rs) st1) as [st2 res2].
  destruct (finish_run_spec E st2 res2) as (-> & _).
  cbn [fst] in Hc, Hf, Hd. rewrite P1 in Hc, Hf, Hd.
  split; [exact Hf|]. split; [exact Hc|].
  intros Hnd Hdis Hnew. apply Hd; [now apply Hnd' | | exact Hdis].
  intros x Hx. apply Hnew, Hincl, Hx.
Qed.

End SetFacts.

Lemma completed_failed_disjoint_witness :
  let p := mkProgress ["a"; "b"] [] 0 2 (Some "2024-01-01T00:00:00") in
  let run :=
    run_extraction (resumed_env p abc) (default_extractor 50 3) None true
      0%nat in
  disjoint_ids (completed_videos p) (failed_videos p)
  /\ disjoint_ids (completed_videos (progress (final run)))
       (failed_videos (progress (final run))).
Proof.
  intros p run.
  assert (Hdis : disjoint_ids (completed_videos p) (failed_videos p))
    by (intros x _ []).
  split; [exact Hdis|].
  refine (proj2 (proj2 (completed_failed_disjoint (resumed_env p abc)
                          (default_extractor 50 3) None true 0%nat p abc
                          (mkState (resumed_env p abc) 0%nat p [] [])
                          eq_refl eq_refl)) _ Hdis _).
  - repeat constructor; cbn; intuition discriminate.
  - intros x _ [].
Defined.

(** C5 as stated fails: an item listed as failed by an earlier run and
    processed successfully now is appended to the completed list and stays
    in the failed list. *)
Lemma completed_failed_disjoint_counterexample :
  let run :=
    run_extraction retry_env (default_extractor 1 3) None true 0%nat in
  status run = Completed
  /\ entered (trace (final run)) = ["x"]
  /\ completed_videos (progress (final run)) = ["x"]
  /\ failed_videos (progress (final run)) = ["x"]
  /\ ~ disjoint_ids (completed_videos (progress (final run)))
         (failed_videos (progress (final run))).
Proof.
  vm_compute. repeat split. intros H. apply (H "x"); now left.
Qed.

(** * Further properties of the pipeline *)

(** ** An invariant principle for runs *)

Section RunInvariants.

Variable E : Env.
Variable self : Extractor.

Lemma on_success_prefix (video_id : string) (video_data : Video)
  (text : string) data meta (st : State E) (res : Results E) :
  on_success E self video_id video_data text data meta (st, res)
  = let out := on_success E self video_id video_data text data meta (st, [])
    in (fst out, (res ++ snd out)%list).
Proof.
  unfold on_success, save_transcript.
  destruct (classify_video _ _ _) as [tractate series_type].
  destruct (write_transcript_file E _ _) as [[path|e] w]; cbn.
  - reflexivity.
  - now rewrite app_nil_r.
Qed.

Lemma record_outcome_prefix (video_id : string) (video_data : Video)
  (extraction : Extraction E) (st : State E) (res : Results E) :
  record_outcome E self video_id video_data extraction (st, res)
  = let out :=
      record_outcome E self video_id video_data extraction (st, []) in
    (fst out, (res ++ snd out)%list).
Proof.
  destruct extraction as [[[text|] data] [meta|]]; cbn [record_outcome];
    try (cbn; now rewrite app_nil_r).
  destruct (truthy text && success meta).
  - apply on_success_prefix.
  - cbn. now rewrite app_nil_r.
Qed.

(** What one item does to the state does not depend on the rows gathered
    so far; its rows are appended to them. *)
Lemma process_video_prefix (st : State E) (res : Results E) (v : Video) :
  process_video E self (st, res) v
  = let out := process_video E self (st, []) v in
    (fst out, (res ++ snd out)%list).
Proof.
  unfold process_video.
  destruct (id_in (v_video_id v) (completed_videos (progress st))).
  - cbn. now rewrite app_nil_r.
  - destruct (enrich E self _ v _) as [vd st2].
    destruct (extract_with_retries E self _ st2) as [ext st3].
    rewrite (record_outcome_prefix _ vd ext st3 res).
    destruct (record_outcome E self _ vd ext (st3, [])) as [st4 res4].
    reflexivity.
Qed.

Lemma fold_results_prefix (vs : list Video) (st : State E) (res : Results E) :
  fold_left (process_video E self) vs (st, res)
  = let out := fold_left (process_video E self) vs (st, []) in
    (fst out, (res ++ snd out)%list).
Proof.
  revert st res. induction vs as [|v vs IH]; intros st res; cbn [fold_left].
  - cbn. now rewrite app_nil_r.
  - rewrite (process_video_prefix st res v). cbn zeta.
    destruct (process_video E self (st, []) v) as [st1 r1]. cbn [fst snd].
    rewrite (IH st1 (res ++ r1)%list), (IH st1 r1). cbn zeta.
    destruct (fold_left (process_video E self) vs (st1, [])) as [st2 r2].
    cbn [fst snd]. now rewrite app_assoc.
Qed.

(** A property of the state and the rows gathered so far that every item
    and every batch boundary preserves holds at the end of the batch loop. *)
Lemma run_batches_invariant (J : State E * Results E -> Prop)
  (resume : bool) (remaining : list Video) (st0 : State E) :
  (forall st res v, J (st, res) -> J (process_video E self (st, res) v)) ->
  (forall st res bn tb, J (st, res) -> J (emit E (LogBatch bn tb) st, res)) ->
  (forall st res bn,
      J (st, res) ->
      let p := set_last_batch bn (progress st) in
      J (save_progress E p (set_progress E p st), res)) ->
  (forall st res,
      J (st, res) -> J (emit E (SleepBatch 5) (do_sleep E 5 st), res))
  -> J (st0, []) ->
  J (run_batches E self resume remaining st0).
Proof.
  intros Hpv Hlog Hsave Hsleep H0.
  destruct (Z.ltb_spec 0 (batch_size (config self))) as [Hbs | Hbs].
  2:{ now rewrite run_batches_nonpos by exact Hbs. }
  apply (run_batches_ind E self resume remaining st0 (fun _ acc => J acc));
    [exact Hbs | exact H0 |].
  intros k [st res] _ HJ. rewrite batch_step_at by exact Hbs.
  destruct (resume && (Z.of_nat k + 1 <=? last_batch (progress st)));
    [exact HJ|].
  cbn zeta. rewrite process_video_batch_unfold. cbn zeta.
  set (vs := nth_batch remaining (batch_size (config self)) k).
  set (tb := batch_count remaining (batch_size (config self))).
  set (st_b := emit E (LogBatch (Z.of_nat k + 1) tb) st).
  assert (HF : J (fst (fold_left (process_video E self) vs (st_b, [])),
                  (res ++ snd (fold_left (process_video E self) vs
                                 (st_b, [])))%list)).
  { pose proof (fold_results_prefix vs st_b res) as Hpre. cbn zeta in Hpre.
    rewrite <- Hpre. clear Hpre.
    assert (Hgen : forall l acc, J acc ->
              J (fold_left (process_video E self) l acc)).
    { induction l as [|v l IH]; intros [s r] Ha; [exact Ha|].
      cbn [fold_left]. apply IH, Hpv, Ha. }
    apply Hgen, Hlog, HJ. }
  destruct (fold_left (process_video E self) vs (st_b, [])) as [st_f res_f].
  cbn [fst snd] in HF |- *.
  apply (Hsave st_f _ (Z.of_nat k + 1)) in HF. cbn zeta in HF.
  destruct (Z.of_nat k + 1 <? tb); [now apply Hsleep | exact HF].
Qed.

End RunInvariants.

(** ** One item and one run in detail *)

Section RunDetail.

Variable E : Env.
Variable self : Extractor.

Lemma rate_limits_app (a b : list event) :
  rate_limits (a ++ b) = (rate_limits a ++ rate_limits b)%list.
Proof.
  induction a as [|e a IH]; [reflexivity|].
  destruct e; cbn [app rate_limits]; rewrite IH; reflexivity.
Qed.

Lemma saves_app (a b : list event) :
  saves (a ++ b) = (saves a ++ saves b)%list.
Proof.
  induction a as [|e a IH]; [reflexivity|].
  destruct e; cbn [app saves]; rewrite IH; reflexivity.
Qed.

Lemma call_events_silent (video_id : string) (evs : list event) :
  Forall (call_event video_id) evs ->
  entered evs = [] /\ rate_limits evs = [] /\ saves evs = []
  /\ opened_batches evs = [].
Proof.
  induction 1 as [|e evs He _ (I1 & I2 & I3 & I4)]; [repeat split|].
  destruct e; cbn in He |- *; try contradiction; repeat split; assumption.
Qed.

Lemma retry_loop_calls (video_id : string) (n attempt : nat)
  (cur : Extraction E) (st : State E) :
  exists evs,
    trace (snd (retry_loop E self video_id n attempt cur st))
    = (trace st ++ evs)%list
    /\ Forall (call_event video_id) evs.
Proof.
  revert attempt cur st. induction n as [|n IH]; intros attempt cur st.
  - exists []. cbn. now rewrite app_nil_r.
  - cbn [retry_loop]. cbn [world emit].
    destruct (list_transcripts E video_id (world st)) as [listing w].
    destruct (extract_transcript E listing) as [[text data] meta].
    destruct (success meta).
    + exists [CallExtract video_id attempt]. split; [reflexivity|].
      repeat constructor.
    + match goal with
      | |- context [retry_loop E self video_id n ?a ?c ?s] =>
          destruct (IH a c s) as (evs & T & Hall); rewrite T
      end.
      destruct (Z.of_nat attempt <? max_retries (config self) - 1).
      * exists (CallExtract video_id attempt
                :: SleepBackoff (2 ^ Z.of_nat attempt) :: evs).
        split; [|repeat constructor; assumption].
        cbn. now rewrite <- !app_assoc.
      * exists (CallExtract video_id attempt :: evs).
        split; [|repeat constructor; assumption].
        cbn. now rewrite <- !app_assoc.
Qed.

Lemma record_outcome_calls (video_id : string) (video_data : Video)
  (extraction : Extraction E) (st : State E) (res : Results E) :
  exists evs,
    trace (fst (record_outcome E self video_id video_data extraction
                  (st, res)))
    = (trace st ++ evs)%list
    /\ Forall (call_event video_id) evs.
Proof.
  destruct extraction as [[[text|] data] [meta|]]; cbn [record_outcome];
    try (exists []; cbn; rewrite app_nil_r; split; [reflexivity|constructor]).
  destruct (truthy text && success meta).
  - destruct (on_success_spec E self video_id video_data text data meta st
                res) as [T _].
    exists [CallSave video_id]. split; [exact T | repeat constructor].
  - exists []. cbn. rewrite app_nil_r. split; [reflexivity | constructor].
Qed.

(** A processed item: its log line, its calls, then the rate-limit wait. *)
Lemma process_video_trace (st : State E) (res : Results E) (v : Video) :
  id_in (v_video_id v) (completed_videos (progress st)) = false ->
  exists evs,
    trace (fst (process_video E self (st, res) v))
    = (trace st ++ LogProcessing (v_video_id v) :: evs
         ++ [SleepRateLimit (rate_limit_seconds (config self))])%list
    /\ Forall (call_event (v_video_id v)) evs.
Proof.
  intros H. rewrite (process_video_unfold E self st res v H). cbn zeta.
  set (vid := v_video_id v).
  set (st1 := emit E (LogProcessing vid) st).
  pose proof (enrich_quiet E self vid v st1) as (T1 & _).
  set (en := enrich E self vid v st1) in *.
  destruct (retry_loop_calls vid (Z.to_nat (max_retries (config self))) 0
              (None, None, None) (snd en)) as (evs2 & T2 & A2).
  change (retry_loop E self vid (Z.to_nat (max_retries (config self))) 0
            (None, None, None) (snd en))
    with (extract_with_retries E self vid (snd en)) in T2.
  set (run := extract_with_retries E self vid (snd en)) in *.
  destruct (record_outcome_calls vid (fst en) (fst run) (snd run) res)
    as (evs3 & T3 & A3).
  exists ((if youtube_service self then [CallMetadata vid] else [])
          ++ evs2 ++ evs3)%list.
  split.
  - cbn [fst rate_limit trace emit do_sleep set_world].
    rewrite T3, T2, T1. subst st1. cbn [trace emit].
    repeat rewrite <- app_assoc. reflexivity.
  - apply Forall_app. split.
    { destruct (youtube_service self); repeat constructor. }
    apply Forall_app. split; assumption.
Qed.

Lemma initial_progress_ok (resume : bool) (w : World E) :
  exists p, initial_progress E resume w = Ok p.
Proof.
  unfold initial_progress. destruct resume.
  - destruct (progress_file E w) as [|[err|err|q]]; cbn;
      try (eexists; reflexivity).
    destruct (start_time q) as [[|c t]|]; eexists; reflexivity.
  - cbn. destruct (now E w); eexists; reflexivity.
Qed.

(** A run either ends before the batch loop, having done nothing, or is
    the batch loop over a non-empty remaining list followed by the final
    reports. *)
Lemma run_extraction_cases (max_videos : option Z) (resume : bool)
  (w : World E) :
  exists p vs st1,
    initial_progress E resume w = Ok p
    /\ get_channel_videos E self max_videos (mkState E w p [] []) = (vs, st1)
    /\ progress st1 = p /\ trace st1 = [] /\ self_failed_videos st1 = []
    /\ let run := run_extraction E self max_videos resume w in
       let remaining := remaining_of resume (completed_videos p) vs in
       (final run = st1 /\ all_results run = []
        /\ (status run = NoVideosFound /\ vs = []
            \/ status run = AllAlreadyProcessed /\ vs <> []
               /\ remaining = []
            \/ status run = Raised "ZeroDivisionError" /\ remaining <> []
               /\ batch_size (config self) = 0))
       \/ (remaining <> [] /\ batch_size (config self) <> 0
           /\ run = finish_run E (run_batches E self resume remaining st1)).
Proof.
  destruct (initial_progress_ok resume w) as [p Hp].
  destruct (get_channel_videos E self max_videos (mkState E w p [] []))
    as [vs st1] eqn:Hv.
  destruct (run_extraction_unfold E self max_videos resume w p vs st1 Hp Hv)
    as (P1 & T1 & F1 & Hrun).
  exists p, vs, st1. repeat (split; [assumption|]).
  cbn zeta in Hrun |- *. rewrite Hrun.
  destruct vs as [|v vs'].
  { left. cbn. repeat split. left. split; reflexivity. }
  destruct (remaining_of resume (completed_videos p) (v :: vs'))
    as [|r rs] eqn:Hr.
  { left. cbn. repeat split. right. left. repeat split. discriminate. }
  destruct (Z.eqb_spec (batch_size (config self)) 0) as [H0 | H0].
  - left. cbn. repeat split. right. right. repeat split; [discriminate|].
    exact H0.
  - right. repeat split; [discriminate | exact H0].
Qed.

End RunDetail.

(** ** Rows, lists and counters of a run *)

Section RunProperties.

Variable E : Env.
Variable self : Extractor.

Lemma split_go_some (s w : string) : split_go (Some w) s <> [].
Proof.
  revert w. induction s as [|c s IH]; intros w; cbn [split_go].
  - discriminate.
  - destruct (is_space c); [discriminate | apply IH].
Qed.

Lemma split_nonblank (s : string) :
  all_chars is_space s = false -> split s <> [].
Proof.
  unfold split. induction s as [|c s IH]; cbn [all_chars split_go].
  - discriminate.
  - destruct (is_space c); cbn [andb]; [exact IH|].
    intros _. apply split_go_some.
Qed.

Lemma lstrip_head (s : string) :
  lstrip s = "" \/ exists c r, lstrip s = String c r /\ is_space c = false.
Proof.
  induction s as [|c s IH]; cbn [lstrip]; [now left|].
  destruct (is_space c) eqn:Hc; [exact IH|]. right. now exists c, s.
Qed.

Lemma rstrip_head (c : ascii) (r : string) :
  is_space c = false -> exists r', rstrip (String c r) = String c r'.
Proof.
  intros Hc. cbn [rstrip]. destruct (rstrip r); rewrite ?Hc; eauto.
Qed.

(** A stripped string that is not empty has a word. *)
Lemma strip_words (s : string) : strip s <> "" -> split (strip s) <> [].
Proof.
  intros Hne. apply split_nonblank. unfold strip in *.
  destruct (lstrip_head s) as [H0 | (c & r & Hl & Hc)].
  - rewrite H0 in Hne. now elim Hne.
  - rewrite Hl. destruct (rstrip_head c r Hc) as [r' ->].
    cbn [all_chars]. now rewrite Hc.
Qed.

Lemma extract_success_fields
  (listing : pyresult (list (Transcript (pynum E)))) text data meta :
  extract_transcript E listing = (text, data, meta) ->
  success meta = true ->
  (transcript_type meta = Some "manual"
   \/ transcript_type meta = Some "auto-generated")
  /\ language meta <> None.
Proof.
  unfold extract_transcript. intros H Hs.
  destruct listing as [tl|e]; [|inversion H; subst; discriminate].
  destruct (match preferred_transcript tl language_priorities with
            | Some (lang, t) => Some (lang, t)
            | None => match tl with
                      | t :: _ => Some (language_code t, t)
                      | [] => None
                      end
            end) as [[lang t]|]; [|inversion H; subst; discriminate].
  destruct (fetch t) as [[|entry d]|e]; inversion H; subst;
    cbn in Hs |- *; try discriminate.
  split; [|discriminate].
  destruct (is_generated t); cbn; auto.
Qed.

(** The rows one item adds: none, or one well-formed success row for it. *)
Lemma process_video_rows (st : State E) (v : Video) :
  let rows := snd (process_video E self (st, []) v) in
  rows = []
  \/ exists r, rows = [r] /\ success_row r /\ r_video_id r = v_video_id v.
Proof.
  cbn zeta.
  destruct (id_in (v_video_id v) (completed_videos (progress st))) eqn:Hin.
  { left. now rewrite (process_video_skip E self st [] v Hin). }
  rewrite (process_video_unfold E self st [] v Hin). cbn zeta. cbn [snd].
  set (vid := v_video_id v).
  set (en := enrich E self vid v (emit E (LogProcessing vid) st)).
  set (run := extract_with_retries E self vid (snd en)).
  destruct (takes_success_branch E (fst run)) eqn:Hbr.
  2:{ left. now rewrite (record_outcome_failure E self _ _ _ _ _ Hbr). }
  destruct (fst run) as [[[text|] data] [meta|]] eqn:Hrun;
    try discriminate Hbr.
  cbn in Hbr. apply andb_true_iff in Hbr as [Ht Hs].
  destruct (extract_with_retries_result E self vid (snd en))
    as [Hcur | (listing & t' & d' & m' & Hex & Hr)].
  { fold run in Hcur. rewrite Hrun in Hcur. discriminate Hcur. }
  fold run in Hr. rewrite Hrun in Hr. inversion Hr; subst t' d' m'.
  destruct (extract_success_shape E listing _ _ _ Hex Hs)
    as (_ & d & _ & _ & Htext & Hwc).
  destruct (extract_success_fields listing _ _ _ Hex Hs) as (Hty & Hlang).
  inversion Htext; subst text.
  rewrite (record_outcome_success E self _ _ _ _ _ _ _ Ht Hs).
  unfold on_success, save_transcript.
  destruct (classify_video _ _ _) as [tractate series_type].
  destruct (write_transcript_file E _ _) as [[path|e] w]; cbn [snd];
    [|now left].
  right. eexists. split; [reflexivity|]. split; [|reflexivity].
  unfold success_row. cbn. repeat split; try assumption.
  rewrite Hwc. apply truthy_true, strip_words in Ht.
  destruct (split (strip (flatten_text d ""))); [now elim Ht | cbn; lia].
Qed.

(** Every row of the master catalog is a success row with at least one
    word: failures never reach the catalog, so the summary's count of
    successes equals its count of rows. *)
Theorem catalog_rows_are_successes (max_videos : option Z) (resume : bool)
  (w : World E) :
  let rows := all_results (run_extraction E self max_videos resume w) in
  Forall success_row rows
  /\ List.length (filter (fun r => String.eqb (r_status r) "success") rows)
     = List.length rows.
Proof.
  cbn zeta.
  assert (H : Forall success_row
                (all_results (run_extraction E self max_videos resume w))).
  { destruct (run_extraction_cases E self max_videos resume w)
      as (p & vs & st1 & _ & _ & _ & _ & _ & Hrun).
    cbn zeta in Hrun. destruct Hrun as [(_ & -> & _) | (_ & _ & ->)];
      [constructor|].
    pose proof (run_batches_invariant E self
                  (fun acc => Forall success_row (snd acc)) resume
                  (remaining_of resume (completed_videos p) vs) st1) as HJ.
    cbn [snd] in HJ.
    destruct (run_batches E self resume _ st1) as [st2 res2].
    destruct (finish_run_spec E st2 res2) as (_ & -> & _).
    apply HJ; auto.
    intros st res v Hres. rewrite (process_video_prefix E self st res v).
    cbn zeta. cbn [snd]. apply Forall_app. split; [exact Hres|].
    destruct (process_video_rows st v) as [-> | (r & -> & Hr & _)];
      [constructor | constructor; [exact Hr | constructor]]. }
  split; [exact H|].
  induction H as [|r rows (Hs & _) _ IH]; [reflexivity|].
  cbn [filter]. rewrite Hs. cbn. now rewrite IH.
Qed.

Lemma renamed_app (a b : list event) :
  renamed (a ++ b) = renamed a || renamed b.
Proof. apply existsb_app. Qed.

Lemma call_events_keep_file (video_id : string) (evs : list event) :
  Forall (call_event video_id) evs -> renamed evs = false.
Proof.
  induction 1 as [|e evs He _ IH]; [reflexivity|].
  destruct e; cbn in He |- *; try contradiction; exact IH.
Qed.

Lemma batch_saves (ids : list string) (evs : list event) :
  Forall (batch_event ids) evs -> saves evs = [].
Proof.
  induction 1 as [|e evs He _ IH]; [reflexivity|].
  destruct e; cbn in He |- *; try contradiction; exact IH.
Qed.

(** One item: skipped with a log line, or processed, with its events and
    one of the three outcomes. *)
Lemma process_video_cases (st : State E) (res : Results E) (v : Video) :
  let vid := v_video_id v in
  let out := process_video E self (st, res) v in
  out = (emit E (LogSkip vid) st, res)
  \/ (exists evs,
         trace (fst out)
         = (trace st ++ LogProcessing vid :: evs
              ++ [SleepRateLimit (rate_limit_seconds (config self))])%list
         /\ Forall (call_event vid) evs)
     /\ outcome_step E vid st res (fst out) (snd out).
Proof.
  cbn zeta.
  destruct (id_in (v_video_id v) (completed_videos (progress st))) eqn:Hin.
  - left. now apply process_video_skip.
  - right. split; [now apply process_video_trace|].
    now apply (process_video_spec E self st res v Hin).
Qed.

(** The final reports: what they leave alone, and when the file moves. *)
Lemma finish_run_cases (st : State E) (res : Results E) :
  let run := finish_run E (st, res) in
  progress (final run) = progress st
  /\ self_failed_videos (final run) = self_failed_videos st
  /\ all_results run = res
  /\ ((status run = Completed /\ res <> []
       /\ (trace (final run) = (trace st ++ [GenerateCatalog])%list
           \/ trace (final run)
              = (trace st ++ [GenerateCatalog; RenameProgress])%list))
      \/ ((exists e, status run = Raised e)
          /\ trace (final run) = (trace st ++ [GenerateCatalog])%list)).
Proof.
  unfold finish_run. cbn [self_failed_videos world emit].
  destruct (write_reports E res (self_failed_videos st) (world st))
    as [[[]|e] w1]; [destruct res as [|r res]|]; cbn.
  - repeat split. right. split; [eexists|]; reflexivity.
  - destruct (path_exists (progress_file E w1)); cbn; repeat split;
      left; (split; [reflexivity|]); (split; [discriminate|]).
    + right. now rewrite <- app_assoc.
    + now left.
  - repeat split. right. split; [eexists|]; reflexivity.
Qed.

(** The completed list and the processed counter grow by exactly the rows
    of the catalog: the identifiers a run appends to
    [progress['completed_videos']] are those of its result rows, in order,
    and [total_processed] counts them. *)
Theorem catalog_matches_completed (max_videos : option Z) (resume : bool)
  (w : World E) (p : Progress) :
  initial_progress E resume w = Ok p ->
  let run := run_extraction E self max_videos resume w in
  completed_videos (progress (final run))
  = (completed_videos p ++ map (@r_video_id _) (all_results run))%list
  /\ total_processed (progress (final run))
     = total_processed p + Z.of_nat (List.length (all_results run)).
Proof.
  intros Hp. cbn zeta.
  destruct (run_extraction_cases E self max_videos resume w)
    as (p' & vs & st1 & Hp' & _ & P1 & _ & _ & Hrun).
  rewrite Hp in Hp'. injection Hp' as <-.
  cbn zeta in Hrun. destruct Hrun as [(-> & -> & _) | (_ & _ & ->)].
  { rewrite P1. cbn. rewrite app_nil_r. split; [reflexivity | lia]. }
  pose proof (run_batches_invariant E self
                (fun acc =>
                   completed_videos (progress (fst acc))
                   = (completed_videos p
                        ++ map (@r_video_id _) (snd acc))%list
                   /\ total_processed (progress (fst acc))
                      = total_processed p
                        + Z.of_nat (List.length (snd acc)))
                resume (remaining_of resume (completed_videos p) vs) st1)
    as HJ.
  cbn [fst snd] in HJ.
  destruct (run_batches E self resume _ st1) as [st2 res2].
  destruct (finish_run_cases st2 res2) as (-> & _ & -> & _).
  apply HJ; clear HJ; [| cbn; auto | cbn; auto | cbn; auto |].
  - intros st res v (Hc & Ht).
    destruct (process_video_cases st res v) as [-> | (_ & Hstep)];
      [cbn; auto|].
    cbn zeta in Hstep.
    destruct (process_video E self (st, res) v) as [st' res'].
    cbn [fst snd] in Hstep |- *.
    inversion Hstep as [r s' Hpr _ _ Hid | f s' Hpr _ _ | f s' Hpr _ _];
      subst; rewrite Hpr; cbn; [|auto|auto].
    rewrite Hc, Ht, map_app, length_app. cbn. rewrite Hid.
    rewrite <- app_assoc. split; [reflexivity|].
    rewrite Nat2Z.inj_add, Z.add_assoc. reflexivity.
  - rewrite P1, app_nil_r. cbn. split; [reflexivity | lia].
Qed.

(** Every item that entered the state machine got exactly one outcome, a
    catalog row or a failure record: the entered identifiers are, up to
    order, those of the rows and of [self.failed_videos] together. *)
Theorem one_outcome_per_item (max_videos : option Z) (resume : bool)
  (w : World E) :
  let run := run_extraction E self max_videos resume w in
  Permutation (entered (trace (final run)))
    (map (@r_video_id _) (all_results run)
       ++ map f_video_id (self_failed_videos (final run)))%list.
Proof.
  cbn zeta.
  destruct (run_extraction_cases E self max_videos resume w)
    as (p & vs & st1 & _ & _ & _ & T1 & F1 & Hrun).
  cbn zeta in Hrun. destruct Hrun as [(-> & -> & _) | (_ & _ & ->)].
  { rewrite T1, F1. constructor. }
  pose proof (run_batches_invariant E self
                (fun acc =>
                   Permutation (entered (trace (fst acc)))
                     (map (@r_video_id _) (snd acc)
                        ++ map f_video_id (self_failed_videos (fst acc))))
                resume (remaining_of resume (completed_videos p) vs) st1)
    as HJ.
  cbn [fst snd] in HJ.
  pose proof (finish_run_observed E
                (fst (run_batches E self resume
                        (remaining_of resume (completed_videos p) vs) st1))
                (snd (run_batches E self resume
                        (remaining_of resume (completed_videos p) vs) st1))
                []) as (He & _).
  destruct (run_batches E self resume _ st1) as [st2 res2].
  cbn [fst snd] in He. rewrite He.
  destruct (finish_run_cases st2 res2) as (_ & -> & -> & _).
  apply HJ; clear HJ He.
  - intros st res v HP.
    destruct (process_video_cases st res v)
      as [-> | ((evs & T & Hev) & Hstep)].
    { cbn. rewrite entered_app. cbn. now rewrite app_nil_r. }
    cbn zeta in T, Hstep.
    destruct (process_video E self (st, res) v) as [st' res'].
    cbn [fst snd] in T, Hstep |- *.
    destruct (call_events_silent _ _ Hev) as (He & _).
    rewrite T, entered_app. cbn [entered]. rewrite entered_app, He. cbn.
    inversion Hstep as [r s' _ Hf _ Hid | f s' _ Hf Hid | f s' _ Hf Hid];
      subst; rewrite Hf.
    + rewrite map_app, <- app_assoc. cbn. rewrite Hid.
      eapply perm_trans; [apply Permutation_app_comm|]. cbn.
      now apply Permutation_cons_app.
    + rewrite map_app, app_assoc. cbn. rewrite Hid.
      now apply Permutation_app_tail.
    + rewrite map_app, app_assoc. cbn. rewrite Hid.
      now apply Permutation_app_tail.
  - intros st res bn tb HP. cbn. rewrite entered_app. cbn.
    now rewrite app_nil_r.
  - intros st res bn HP. cbn. rewrite entered_app. cbn.
    now rewrite app_nil_r.
  - intros st res HP. cbn. rewrite entered_app. cbn. now rewrite app_nil_r.
  - rewrite T1, F1. constructor.
Qed.

(** An identifier the run appended to [progress['failed_videos']] has a
    failure record in [self.failed_videos]. *)
Theorem failed_ids_have_records (max_videos : option Z) (resume : bool)
  (w : World E) (p : Progress) :
  initial_progress E resume w = Ok p ->
  let run := run_extraction E self max_videos resume w in
  incl (failed_videos (progress (final run)))
    (failed_videos p ++ map f_video_id (self_failed_videos (final run))).
Proof.
  intros Hp. cbn zeta.
  destruct (run_extraction_cases E self max_videos resume w)
    as (p' & vs & st1 & Hp' & _ & P1 & _ & F1 & Hrun).
  rewrite Hp in Hp'. injection Hp' as <-.
  cbn zeta in Hrun. destruct Hrun as [(-> & _) | (_ & _ & ->)].
  { rewrite P1. now apply incl_appl. }
  pose proof (run_batches_invariant E self
                (fun acc =>
                   incl (failed_videos (progress (fst acc)))
                     (failed_videos p
                        ++ map f_video_id (self_failed_videos (fst acc))))
                resume (remaining_of resume (completed_videos p) vs) st1)
    as HJ.
  cbn [fst] in HJ.
  destruct (run_batches E self resume _ st1) as [st2 res2].
  destruct (finish_run_cases st2 res2) as (-> & -> & _).
  apply HJ; clear HJ; [| cbn; auto | cbn; auto | cbn; auto |].
  - intros st res v HP.
    destruct (process_video_cases st res v) as [-> | (_ & Hstep)];
      [cbn; auto|].
    cbn zeta in Hstep.
    destruct (process_video E self (st, res) v) as [st' res'].
    cbn [fst snd] in Hstep |- *.
    inversion Hstep as [r s' Hpr Hf _ _ | f s' Hpr Hf _ | f s' Hpr Hf Hid];
      subst; rewrite Hpr, Hf; cbn; rewrite ?map_app.
    + exact HP.
    + intros x Hx. apply HP in Hx. rewrite app_assoc.
      now apply in_or_app; left.
    + intros x Hx. rewrite app_assoc. apply in_app_or in Hx.
      apply in_or_app. destruct Hx as [Hx | Hx]; [left; now apply HP|].
      right. cbn in Hx |- *. now rewrite Hid.
  - rewrite P1. now apply incl_appl.
Qed.

(** The rate-limit wait follows every processed item, whatever its
    outcome, and nothing else: the run sleeps [rate_limit_seconds] exactly
    once per item that entered the state machine. *)
Theorem rate_limit_per_item (max_videos : option Z) (resume : bool)
  (w : World E) :
  let tr := trace (final (run_extraction E self max_videos resume w)) in
  rate_limits tr
  = repeat (rate_limit_seconds (config self)) (List.length (entered tr)).
Proof.
  cbn zeta.
  destruct (run_extraction_cases E self max_videos resume w)
    as (p & vs & st1 & _ & _ & _ & T1 & _ & Hrun).
  cbn zeta in Hrun. destruct Hrun as [(-> & _) | (_ & _ & ->)].
  { now rewrite T1. }
  pose proof (run_batches_invariant E self
                (fun acc =>
                   rate_limits (trace (fst acc))
                   = repeat (rate_limit_seconds (config self))
                       (List.length (entered (trace (fst acc)))))
                resume (remaining_of resume (completed_videos p) vs) st1)
    as HJ.
  cbn [fst] in HJ.
  destruct (run_batches E self resume _ st1) as [st2 res2].
  assert (H2 : rate_limits (trace st2)
               = repeat (rate_limit_seconds (config self))
                   (List.length (entered (trace st2)))).
  { apply HJ; clear HJ.
    - intros st res v HP.
      destruct (process_video_cases st res v)
        as [-> | ((evs & T & Hev) & _)].
      { cbn. rewrite rate_limits_app, entered_app. cbn.
        now rewrite !app_nil_r. }
      cbn zeta in T. rewrite T.
      destruct (call_events_silent _ _ Hev) as (He & Hr & _).
      rewrite rate_limits_app, entered_app. cbn [entered rate_limits].
      rewrite rate_limits_app, entered_app, He, Hr, HP. cbn.
      rewrite length_app. cbn. now rewrite repeat_app.
    - intros st res bn tb HP. cbn. rewrite rate_limits_app, entered_app.
      cbn. now rewrite !app_nil_r.
    - intros st res bn HP. cbn. rewrite rate_limits_app, entered_app.
      cbn. now rewrite !app_nil_r.
    - intros st res HP. cbn. rewrite rate_limits_app, entered_app.
      cbn. now rewrite !app_nil_r.
    - now rewrite T1. }
  destruct (finish_run_cases st2 res2)
    as (_ & _ & _ & [(_ & _ & [-> | ->]) | (_ & ->)]);
    rewrite rate_limits_app, entered_app; cbn; now rewrite !app_nil_r.
Qed.

(** Every opened batch ends in exactly one save, of a dictionary whose
    cursor is that batch's number; and what the run holds in memory at its
    end is what it saved last (the loaded dictionary if it saved nothing). *)
Theorem saves_follow_batches (max_videos : option Z) (resume : bool)
  (w : World E) (p : Progress) :
  initial_progress E resume w = Ok p ->
  let run := run_extraction E self max_videos resume w in
  opened_batches (trace (final run))
  = map last_batch (saves (trace (final run)))
  /\ last (saves (trace (final run))) p = progress (final run).
Proof.
  intros Hp. cbn zeta.
  destruct (run_extraction_cases E self max_videos resume w)
    as (p' & vs & st1 & Hp' & _ & P1 & T1 & _ & Hrun).
  rewrite Hp in Hp'. injection Hp' as <-.
  cbn zeta in Hrun. destruct Hrun as [(-> & _) | (_ & Hbs & ->)].
  { rewrite T1, P1. now split. }
  set (remaining := remaining_of resume (completed_videos p) vs).
  assert (H2 : let st2 := fst (run_batches E self resume remaining st1) in
               opened_batches (trace st2) = map last_batch (saves (trace st2))
               /\ last (saves (trace st2)) p = progress st2).
  { destruct (Z.ltb_spec 0 (batch_size (config self))) as [Hpos | Hneg].
    2:{ rewrite run_batches_nonpos by exact Hneg. cbn.
        rewrite T1, P1. now split. }
    cbn zeta.
    apply (run_batches_ind E self resume remaining st1
             (fun _ acc =>
                opened_batches (trace (fst acc))
                = map last_batch (saves (trace (fst acc)))
                /\ last (saves (trace (fst acc))) p = progress (fst acc)));
      [exact Hpos | cbn; rewrite T1, P1; now split |].
    intros k [st res] _ (Ho & Hl). cbn [fst] in Ho, Hl.
    rewrite batch_step_at by exact Hpos.
    destruct (resume && (Z.of_nat k + 1 <=? last_batch (progress st)));
      [now split|].
    cbn zeta.
    destruct (process_video_batch_trace E self
                (nth_batch remaining (batch_size (config self)) k)
                (Z.of_nat k + 1)
                (batch_count remaining (batch_size (config self))) st)
      as ((evs & T & Hev) & Hlast).
    cbn zeta in T, Hlast.
    set (out := process_video_batch E self _ _ _ st) in *.
    assert (Hout : opened_batches (trace (fst out))
                   = map last_batch (saves (trace (fst out)))
                   /\ last (saves (trace (fst out))) p
                      = progress (fst out)).
    { rewrite T, opened_batches_app, saves_app.
      cbn [opened_batches saves].
      rewrite opened_batches_app, saves_app.
      rewrite (batch_opened _ _ Hev), (batch_saves _ _ Hev). cbn.
      rewrite map_app, Ho. cbn. rewrite Hlast. split; [reflexivity|].
      apply last_last. }
    destruct (Z.of_nat k + 1 <? _); cbn [fst]; [|exact Hout].
    cbn. rewrite opened_batches_app, saves_app. cbn.
    now rewrite !app_nil_r. }
  cbn zeta in H2.
  destruct (run_batches E self resume remaining st1) as [st2 res2].
  cbn [fst] in H2. destruct H2 as (Ho & Hl).
  destruct (finish_run_cases st2 res2)
    as (-> & _ & _ & [(_ & _ & [-> | ->]) | (_ & ->)]);
    rewrite opened_batches_app, saves_app; cbn; rewrite !app_nil_r;
    now split.
Qed.

(** A run that gathered no row never completes and never renames the
    progress file: the summary report divides by the number of rows. *)
Theorem no_rows_no_completion (max_videos : option Z) (resume : bool)
  (w : World E) :
  let run := run_extraction E self max_videos resume w in
  all_results run = [] ->
  status run <> Completed /\ renamed (trace (final run)) = false.
Proof.
  cbn zeta. intros Hnil.
  destruct (run_extraction_cases E self max_videos resume w)
    as (p & vs & st1 & _ & _ & _ & T1 & _ & Hrun).
  cbn zeta in Hrun.
  destruct Hrun as [(Hf & _ & Hst) | (_ & _ & Hrun)].
  { rewrite Hf, T1. split; [|reflexivity].
    destruct Hst as [(-> & _) | [(-> & _) | (-> & _)]]; discriminate. }
  rewrite Hrun in Hnil |- *.
  pose proof (run_batches_invariant E self
                (fun acc => renamed (trace (fst acc)) = false)
                resume (remaining_of resume (completed_videos p) vs) st1)
    as HJ.
  cbn [fst] in HJ.
  destruct (run_batches E self resume _ st1) as [st2 res2].
  assert (H2 : renamed (trace st2) = false).
  { apply HJ; clear HJ.
    - intros st res v HP.
      destruct (process_video_cases st res v)
        as [-> | ((evs & T & Hev) & _)].
      { cbn. rewrite renamed_app, HP. reflexivity. }
      cbn zeta in T. rewrite T, renamed_app, HP.
      change (LogProcessing (v_video_id v) :: evs
                ++ [SleepRateLimit (rate_limit_seconds (config self))])%list
        with ([LogProcessing (v_video_id v)] ++ evs
                ++ [SleepRateLimit (rate_limit_seconds (config self))])%list.
      rewrite !renamed_app, (call_events_keep_file _ _ Hev). reflexivity.
    - intros st res bn tb HP. cbn. now rewrite renamed_app, HP.
    - intros st res bn HP. cbn. now rewrite renamed_app, HP.
    - intros st res HP. cbn. now rewrite renamed_app, HP.
    - now rewrite T1. }
  destruct (finish_run_cases st2 res2)
    as (_ & _ & Hres & [(_ & Hne & _) | ((e & ->) & ->)]).
  - rewrite Hres in Hnil. contradiction.
  - split; [discriminate|]. now rewrite renamed_app, H2.
Qed.

(** With a batch size of zero or less the loop body never runs: nothing is
    entered, opened or saved, no row is gathered, and the run does not
    complete. *)
Theorem nonpositive_batch_size (max_videos : option Z) (resume : bool)
  (w : World E) :
  batch_size (config self) <= 0 ->
  let run := run_extraction E self max_videos resume w in
  entered (trace (final run)) = []
  /\ opened_batches (trace (final run)) = []
  /\ saves (trace (final run)) = []
  /\ all_results run = []
  /\ status run <> Completed.
Proof.
  intros Hbs. cbn zeta.
  destruct (run_extraction_cases E self max_videos resume w)
    as (p & vs & st1 & _ & _ & _ & T1 & _ & Hrun).
  cbn zeta in Hrun.
  destruct Hrun as [(-> & -> & Hst) | (_ & _ & ->)].
  { rewrite T1. repeat split.
    destruct Hst as [(-> & _) | [(-> & _) | (-> & _)]]; discriminate. }
  rewrite run_batches_nonpos by exact Hbs.
  destruct (finish_run_cases st1 [])
    as (_ & _ & -> & [(_ & Hne & _) | ((e & ->) & ->)]).
  - now elim Hne.
  - rewrite T1. cbn. repeat split. discriminate.
Qed.

(** When every listed item is already in the completed list, a resumed run
    stops before the batch loop: no call, no save, no report, no rename,
    and the progress dictionary is the loaded one. *)
Theorem all_completed_does_nothing (max_videos : option Z) (w : World E)
  (p : Progress) (vs : list Video) (st1 : State E) :
  initial_progress E true w = Ok p ->
  get_channel_videos E self max_videos (mkState E w p [] []) = (vs, st1) ->
  vs <> [] ->
  (forall v, In v vs -> In (v_video_id v) (completed_videos p)) ->
  let run := run_extraction E self max_videos true w in
  status run = AllAlreadyProcessed
  /\ trace (final run) = []
  /\ progress (final run) = p
  /\ all_results run = [].
Proof.
  intros Hp Hv Hne Hall. cbn zeta.
  destruct (run_extraction_unfold E self max_videos true w p vs st1 Hp Hv)
    as (P1 & T1 & _ & Hrun).
  cbn zeta in Hrun. rewrite Hrun. clear Hrun.
  assert (Hrem : remaining_of true (completed_videos p) vs = []).
  { rewrite remaining_of_true. unfold not_completed.
    clear Hne Hv. induction vs as [|v vs' IH]; [reflexivity|].
    cbn [filter].
    assert (Hin : id_in (v_video_id v) (completed_videos p) = true)
      by (apply id_in_true, Hall; now left).
    rewrite Hin. cbn. apply IH. intros v' Hv'. apply Hall. now right. }
  rewrite Hrem. destruct vs as [|v vs']; [now elim Hne|].
  cbn. now rewrite T1, P1.
Qed.

End RunProperties.

Lemma catalog_matches_completed_witness :
  let p := mkProgress ["a"] [] 0 1 (Some "2024-01-01T00:00:00") in
  let E := resumed_env p abc in
  let run := run_extraction E (default_extractor 2 3) None true 0%nat in
  initial_progress E true 0%nat = Ok p
  /\ completed_videos (progress (final run))
     = ("a" :: map (@r_video_id _) (all_results run))
  /\ total_processed (progress (final run))
     = 1 + Z.of_nat (List.length (all_results run)).
Proof.
  intros p E run. split; [reflexivity|].
  exact (catalog_matches_completed E (default_extractor 2 3) None true
           0%nat p eq_refl).
Defined.

Lemma failed_ids_have_records_witness :
  let p := fresh_progress (Some "2024-01-01T00:00:00") in
  let E := half_failing_env Absent in
  let run := run_extraction E (default_extractor 2 3) None true 0%nat in
  initial_progress E true 0%nat = Ok p
  /\ incl (failed_videos (progress (final run)))
       (failed_videos p ++ map f_video_id (self_failed_videos (final run))).
Proof.
  intros p E run. split; [reflexivity|].
  exact (failed_ids_have_records E (default_extractor 2 3) None true
           0%nat p eq_refl).
Defined.

Lemma saves_follow_batches_witness :
  let p := fresh_progress (Some "2024-01-01T00:00:00") in
  let E := half_failing_env Absent in
  let run := run_extraction E (default_extractor 2 3) None true 0%nat in
  initial_progress E true 0%nat = Ok p
  /\ opened_batches (trace (final run))
     = map last_batch (saves (trace (final run)))
  /\ last (saves (trace (final run))) p = progress (final run).
Proof.
  intros p E run. split; [reflexivity|].
  exact (saves_follow_batches E (default_extractor 2 3) None true
           0%nat p eq_refl).
Defined.

Lemma no_rows_no_completion_witness :
  let run :=
    run_extraction failing_env (default_extractor 2 3) None true 0%nat in
  all_results run = []
  /\ status run <> Completed /\ renamed (trace (final run)) = false.
Proof.
  intros run. split; [reflexivity|].
  exact (no_rows_no_completion failing_env (default_extractor 2 3) None
           true 0%nat eq_refl).
Defined.

Lemma nonpositive_batch_size_witness :
  let self := default_extractor (-1) 3 in
  let run := run_extraction (half_failing_env Absent) self None true 0%nat in
  batch_size (config self) <= 0
  /\ entered (trace (final run)) = []
  /\ opened_batches (trace (final run)) = []
  /\ saves (trace (final run)) = []
  /\ all_results run = []
  /\ status run <> Completed.
Proof.
  intros self run. split; [cbn; lia|].
  apply (nonpositive_batch_size (half_failing_env Absent) self None true
           0%nat). cbn. lia.
Defined.

Lemma all_completed_does_nothing_witness :
  let p := mkProgress ["a"; "b"; "c"] [] 2 3 (Some "2024-01-01T00:00:00") in
  let E := resumed_env p abc in
  let run := run_extraction E (default_extractor 2 3) None true 0%nat in
  abc <> []
  /\ (forall v, In v abc -> In (v_video_id v) (completed_videos p))
  /\ status run = AllAlreadyProcessed
  /\ trace (final run) = []
  /\ progress (final run) = p
  /\ all_results run = [].
Proof.
  intros p E run.
  assert (Hne : abc <> []) by discriminate.
  assert (Hall : forall v, In v abc -> In (v_video_id v) (completed_videos p)).
  { intros v [<- | [<- | [<- | []]]]; cbn; auto. }
  split; [exact Hne|]. split; [exact Hall|].
  exact (all_completed_does_nothing E (default_extractor 2 3) None 0%nat p
           abc (mkState E 0%nat p [] []) eq_refl eq_refl Hne Hall).
Defined.

(** ** The identifier extractor *)

Lemma take_while_all (f : ascii -> bool) (g tail : string) :
  all_chars f g = true ->
  match tail with EmptyString => True | String c _ => f c = false end ->
  take_while f (g ++ tail) = g.
Proof.
  intros Hg Ht. induction g as [|c g IH]; cbn.
  - destruct tail as [|c r]; cbn in *; [reflexivity | now rewrite Ht].
  - cbn in Hg. apply andb_true_iff in Hg as [Hc Hg].
    now rewrite Hc, (IH Hg).
Qed.

Lemma take_while_spec (f : ascii -> bool) (s : string) :
  all_chars f (take_while f s) = true
  /\ exists post,
       s = take_while f s ++ post
       /\ match post with EmptyString => True | String c _ => f c = false end.
Proof.
  induction s as [|c s (IHa & post & IHs & IHp)]; cbn.
  - split; [reflexivity|]. now exists "".
  - destruct (f c) eqn:Hc; cbn.
    + rewrite Hc, IHa. split; [reflexivity|]. exists post.
      split; [now rewrite <- IHs | exact IHp].
    + split; [reflexivity|]. now exists (String c s).
Qed.

Lemma id_group_app (g tail : string) :
  g <> "" -> all_chars id_char g = true -> ends_group tail ->
  id_group (g ++ tail) = Some g.
Proof.
  intros Hne Hg Ht. unfold id_group.
  rewrite (take_while_all id_char g tail Hg Ht).
  destruct g; [now elim Hne | reflexivity].
Qed.

Lemma id_group_spec (s g : string) :
  id_group s = Some g ->
  g <> "" /\ all_chars id_char g = true
  /\ exists post, s = g ++ post /\ ends_group post.
Proof.
  unfold id_group. intros H.
  destruct (take_while_spec id_char s) as (Ha & post & Hs & Hp).
  destruct (take_while id_char s) as [|c r] eqn:Ht; [discriminate|].
  inversion H; subst g. split; [discriminate|]. split; [exact Ha|].
  now exists post.
Qed.

Lemma drop_prefix_spec (p s rest : string) :
  drop_prefix p s = Some rest <-> s = p ++ rest.
Proof.
  revert s. induction p as [|a p IH]; intros s; cbn.
  - split; [now intros [= ->] | now intros ->].
  - destruct s as [|b s]; [split; discriminate|].
    destruct (Ascii.eqb_spec a b) as [-> | Hab].
    + rewrite IH. split; [now intros -> | now intros [= ->]].
    + split; [discriminate | intros [= Hb _]; now elim Hab].
Qed.

Lemma literal_then_group_spec (literal s g : string) :
  literal_then_group literal s = Some g ->
  g <> "" /\ all_chars id_char g = true
  /\ exists post, s = literal ++ g ++ post /\ ends_group post.
Proof.
  unfold literal_then_group. intros H.
  destruct (drop_prefix literal s) as [rest|] eqn:Hd; [|discriminate].
  apply drop_prefix_spec in Hd.
  destruct (id_group_spec rest g H) as (Hne & Ha & post & -> & Hp).
  repeat split; try assumption. now exists post.
Qed.

Lemma re_search_spec (anchored : string -> option string) (s g : string) :
  re_search anchored s = Some g ->
  exists pre suffix, s = pre ++ suffix /\ anchored suffix = Some g.
Proof.
  induction s as [|c s IH]; cbn [re_search].
  - destruct (anchored "") eqn:Ha; [|discriminate].
    intros [= ->]. now exists "", "".
  - destruct (anchored (String c s)) eqn:Ha.
    + intros [= ->]. now exists "", (String c s).
    + intros H. destruct (IH H) as (pre & suffix & -> & Hs).
      now exists (String c pre), suffix.
Qed.

Lemma any_then_v_spec (s g : string) :
  any_then_v s = Some g ->
  exists pre suffix,
    s = pre ++ suffix /\ literal_then_group "v=" suffix = Some g.
Proof.
  induction s as [|c s IH]; cbn [any_then_v].
  - intros H. now exists "", "".
  - destruct (Ascii.eqb c "010").
    + intros H. now exists "", (String c s).
    + destruct (any_then_v s) as [g'|]; cbn [or_else].
      * intros [= ->]. destruct (IH eq_refl) as (pre & suffix & -> & Hs).
        now exists (String c pre), suffix.
      * intros H. now exists "", (String c s).
Qed.

(** The result of [extract_video_id] is a non-empty run of characters
    other than [&], newline, [?] and [#] that stands in the URL right after
    one of the patterns' literals and is not followed by a character it
    could have taken. *)
Theorem extract_video_id_sound (url g : string) :
  extract_video_id url = Some g ->
  g <> "" /\ all_chars id_char g = true
  /\ exists pre marker post,
       In marker id_markers
       /\ url = pre ++ marker ++ g ++ post /\ ends_group post.
Proof.
  unfold extract_video_id. intros H.
  assert (Hlit : forall pre marker suffix,
             In marker id_markers ->
             literal_then_group marker suffix = Some g ->
             url = pre ++ suffix ->
             g <> "" /\ all_chars id_char g = true
             /\ exists pre marker post,
                  In marker id_markers
                  /\ url = pre ++ marker ++ g ++ post /\ ends_group post).
  { intros pre marker suffix Hm Hl ->.
    destruct (literal_then_group_spec _ _ _ Hl) as (Hne & Ha & post & -> & Hp).
    repeat split; try assumption. now exists pre, marker, post. }
  destruct (re_search watch_short_embed url) as [g1|] eqn:H1;
    cbn [or_else] in H.
  { injection H as ->.
    destruct (re_search_spec _ _ _ H1) as (pre & suffix & Hu & Hs).
    unfold watch_short_embed in Hs.
    destruct (literal_then_group "youtube.com/watch?v=" suffix) eqn:Ha;
      cbn [or_else] in Hs.
    { injection Hs as ->.
      apply (Hlit pre "youtube.com/watch?v=" suffix); cbn; auto. }
    destruct (literal_then_group "youtu.be/" suffix) eqn:Hb;
      cbn [or_else] in Hs.
    { injection Hs as ->. apply (Hlit pre "youtu.be/" suffix); cbn; auto. }
    apply (Hlit pre "youtube.com/embed/" suffix); cbn; auto. }
  destruct (re_search v_path url) as [g2|] eqn:H2; cbn [or_else] in H.
  { injection H as ->.
    destruct (re_search_spec _ _ _ H2) as (pre & suffix & Hu & Hs).
    apply (Hlit pre "youtube.com/v/" suffix); cbn; auto 6. }
  destruct (re_search_spec _ _ _ H) as (pre & suffix & Hu & Hs).
  unfold watch_query in Hs.
  destruct (drop_prefix "youtube.com/watch?" suffix) as [rest|] eqn:Hd;
    [|discriminate].
  apply drop_prefix_spec in Hd.
  destruct (any_then_v_spec _ _ Hs) as (mid & suffix' & Hr & Hv).
  apply (Hlit (pre ++ "youtube.com/watch?" ++ mid) "v=" suffix');
    [cbn; auto 6 | exact Hv |].
  rewrite Hu, Hd, Hr. now rewrite !append_assoc.
Qed.

Lemma drop_prefix_youtu (marker s rest : string) :
  drop_prefix ("youtu" ++ marker) s = Some rest -> startswith "youtu" s = true.
Proof.
  intros H. apply drop_prefix_spec in H. apply startswith_spec.
  exists (marker ++ rest). now rewrite H, append_assoc.
Qed.

Lemma re_search_none (anchored : string -> option string) (s : string) :
  (forall t g, anchored t = Some g -> startswith "youtu" t = true) ->
  str_in "youtu" s = false -> re_search anchored s = None.
Proof.
  intros Ha. induction s as [|c s IH]; intros Hs.
  - cbn [re_search]. destruct (anchored "") eqn:H0; [|reflexivity].
    apply Ha in H0. discriminate H0.
  - cbn [re_search]. cbn [str_in] in Hs.
    apply orb_false_iff in Hs as [Hs1 Hs2].
    destruct (anchored (String c s)) eqn:H0.
    + apply Ha in H0. rewrite H0 in Hs1. discriminate.
    + exact (IH Hs2).
Qed.

Lemma literal_youtu (marker t g : string) :
  literal_then_group ("youtu" ++ marker) t = Some g ->
  startswith "youtu" t = true.
Proof.
  unfold literal_then_group.
  destruct (drop_prefix ("youtu" ++ marker) t) eqn:Hd; [|discriminate].
  intros _. exact (drop_prefix_youtu _ _ _ Hd).
Qed.

Lemma watch_short_embed_youtu (t g : string) :
  watch_short_embed t = Some g -> startswith "youtu" t = true.
Proof.
  unfold watch_short_embed.
  destruct (literal_then_group "youtube.com/watch?v=" t) eqn:Ha.
  { intros _. exact (literal_youtu "be.com/watch?v=" _ _ Ha). }
  destruct (literal_then_group "youtu.be/" t) eqn:Hb.
  { intros _. exact (literal_youtu ".be/" _ _ Hb). }
  cbn [or_else]. exact (literal_youtu "be.com/embed/" t g).
Qed.

Lemma v_path_youtu (t g : string) :
  v_path t = Some g -> startswith "youtu" t = true.
Proof. exact (literal_youtu "be.com/v/" t g). Qed.

Lemma watch_query_youtu (t g : string) :
  watch_query t = Some g -> startswith "youtu" t = true.
Proof.
  unfold watch_query.
  destruct (drop_prefix "youtube.com/watch?" t) eqn:Hd; [|discriminate].
  intros _. exact (drop_prefix_youtu "be.com/watch?" _ _ Hd).
Qed.

(** A string in which [youtu] does not occur has no identifier: the
    extractor answers [None] on every unrelated URL, and on every input
    it answers without raising. *)
Theorem extract_video_id_unrelated (url : string) :
  str_in "youtu" url = false -> extract_video_id url = None.
Proof.
  intros H. unfold extract_video_id.
  rewrite (re_search_none _ _ watch_short_embed_youtu H).
  rewrite (re_search_none _ _ v_path_youtu H).
  rewrite (re_search_none _ _ watch_query_youtu H).
  reflexivity.
Qed.

Lemma extract_video_id_unrelated_witness :
  str_in "youtu" "https://example.com/video/abc123" = false
  /\ extract_video_id "https://example.com/video/abc123" = None.
Proof.
  split; [reflexivity|].
  apply extract_video_id_unrelated. reflexivity.
Defined.

Lemma extract_video_id_sound_witness :
  let url := "https://youtu.be/abc123?t=10" in
  extract_video_id url = Some "abc123"
  /\ "abc123" <> "" /\ all_chars id_char "abc123" = true
  /\ exists pre marker post,
       In marker id_markers
       /\ url = pre ++ marker ++ "abc123" ++ post /\ ends_group post.
Proof.
  intros url. split; [reflexivity|].
  apply (extract_video_id_sound url "abc123"). reflexivity.
Defined.

Lemma re_search_found (anchored : string -> option string) (s g : string) :
  anchored s = Some g -> re_search anchored s = Some g.
Proof. intros H. destruct s; cbn [re_search]; now rewrite H. Qed.

Lemma re_search_skip (anchored : string -> option string) (c : ascii)
  (s : string) :
  anchored (String c s) = None ->
  re_search anchored (String c s) = re_search anchored s.
Proof. intros H. cbn [re_search]. now rewrite H. Qed.

Lemma literal_then_group_app (literal g tail : string) :
  g <> "" -> all_chars id_char g = true -> ends_group tail ->
  literal_then_group literal (literal ++ g ++ tail) = Some g.
Proof.
  intros Hne Hg Ht. unfold literal_then_group.
  rewrite (proj2 (drop_prefix_spec literal _ (g ++ tail)) eq_refl).
  now apply id_group_app.
Qed.

(** The three canonical shapes: the watch URL, the short link and the
    embed URL of an identifier give that identifier back, whatever query
    or fragment follows it.  In particular the URL [get_channel_videos]
    builds for an item leads back to the item. *)
Theorem extract_video_id_canonical (video_id tail : string) :
  video_id <> "" -> all_chars id_char video_id = true -> ends_group tail ->
  extract_video_id (watch_url video_id ++ tail) = Some video_id
  /\ extract_video_id ("https://youtu.be/" ++ video_id ++ tail)
     = Some video_id
  /\ extract_video_id ("https://www.youtube.com/embed/" ++ video_id ++ tail)
     = Some video_id.
Proof.
  intros Hne Hg Ht.
  pose proof (literal_then_group_app "youtube.com/watch?v=" _ _ Hne Hg Ht)
    as Hw.
  pose proof (literal_then_group_app "youtu.be/" _ _ Hne Hg Ht) as Hs.
  pose proof (literal_then_group_app "youtube.com/embed/" _ _ Hne Hg Ht)
    as He.
  unfold extract_video_id, watch_url. rewrite append_assoc.
  repeat split.
  - change ("https://www.youtube.com/watch?v=" ++ video_id ++ tail)
      with ("https://www." ++ "youtube.com/watch?v=" ++ video_id ++ tail).
    cbn [append].
    do 12 (rewrite re_search_skip by reflexivity).
    rewrite (re_search_found watch_short_embed _ video_id); [reflexivity|].
    unfold watch_short_embed.
    change (literal_then_group "youtube.com/watch?v="
              ("youtube.com/watch?v=" ++ video_id ++ tail))
      with (literal_then_group "youtube.com/watch?v="
              (String "y" ("outube.com/watch?v=" ++ video_id ++ tail)))
      in Hw.
    cbn [append] in Hw |- *. now rewrite Hw.
  - change ("https://youtu.be/" ++ video_id ++ tail)
      with ("https://" ++ "youtu.be/" ++ video_id ++ tail).
    cbn [append].
    do 8 (rewrite re_search_skip by reflexivity).
    rewrite (re_search_found watch_short_embed _ video_id); [reflexivity|].
    unfold watch_short_embed. cbn [append] in Hs |- *.
    rewrite Hs. reflexivity.
  - change ("https://www.youtube.com/embed/" ++ video_id ++ tail)
      with ("https://www." ++ "youtube.com/embed/" ++ video_id ++ tail).
    cbn [append].
    do 12 (rewrite re_search_skip by reflexivity).
    rewrite (re_search_found watch_short_embed _ video_id); [reflexivity|].
    unfold watch_short_embed. cbn [append] in He |- *.
    rewrite He. reflexivity.
Qed.

Lemma extract_video_id_canonical_witness :
  "abc123" <> "" /\ all_chars id_char "abc123" = true
  /\ ends_group "&t=42s"
  /\ extract_video_id (watch_url "abc123" ++ "&t=42s") = Some "abc123"
  /\ extract_video_id ("https://youtu.be/" ++ "abc123" ++ "&t=42s")
     = Some "abc123"
  /\ extract_video_id
       ("https://www.youtube.com/embed/" ++ "abc123" ++ "&t=42s")
     = Some "abc123".
Proof.
  assert (Hne : "abc123" <> "") by discriminate.
  split; [exact Hne|]. split; [reflexivity|]. split; [reflexivity|].
  exact (extract_video_id_canonical "abc123" "&t=42s" Hne eq_refl eq_refl).
Defined.

Lemma any_then_v_none (s : string) :
  str_in "v=" s = false -> any_then_v s = None.
Proof.
  assert (Hhere : forall t, startswith "v=" t = false ->
                            literal_then_group "v=" t = None).
  { intros t Ht. unfold literal_then_group.
    destruct (drop_prefix "v=" t) as [rest|] eqn:Hd; [|reflexivity].
    apply drop_prefix_spec in Hd.
    assert (Hs : startswith "v=" t = true)
      by (apply startswith_spec; now exists rest).
    rewrite Hs in Ht. discriminate. }
  induction s as [|c s IH]; intros H; cbn [any_then_v].
  - now apply Hhere.
  - cbn [str_in] in H. apply orb_false_iff in H as [H1 H2].
    rewrite (Hhere _ H1), (IH H2). now destruct (Ascii.eqb c "010").
Qed.

Lemma any_then_v_after (a s g : string) :
  all_chars (fun c => negb (Ascii.eqb c "010")) a = true ->
  any_then_v s = Some g -> any_then_v (a ++ s) = Some g.
Proof.
  intros Ha Hs. induction a as [|c a IH]; [exact Hs|].
  cbn in Ha. apply andb_true_iff in Ha as [Hc Ha].
  cbn [append any_then_v]. apply negb_true_iff in Hc.
  now rewrite Hc, (IH Ha).
Qed.

(** The two fallback patterns: the [/v/] path and a watch URL whose [v]
    parameter is not the first give the identifier back, provided the
    identifier itself holds nothing an earlier pattern or a later [v=]
    would pick up. *)
Theorem extract_video_id_fallback_forms (video_id : string) :
  video_id <> "" -> all_chars id_char video_id = true ->
  str_in "youtu" video_id = false -> str_in "v=" video_id = false ->
  extract_video_id ("https://www.youtube.com/v/" ++ video_id)
  = Some video_id
  /\ extract_video_id
       ("https://www.youtube.com/watch?feature=share&v=" ++ video_id)
     = Some video_id.
Proof.
  intros Hne Hg Hy Hv.
  pose proof (re_search_none _ _ watch_short_embed_youtu Hy) as N1.
  pose proof (re_search_none _ _ v_path_youtu Hy) as N2.
  assert (Hgroup : id_group video_id = Some video_id).
  { rewrite <- (append_nil_r video_id) at 1.
    now apply id_group_app. }
  unfold extract_video_id. split.
  - cbn [append].
    do 26 (rewrite re_search_skip by reflexivity). rewrite N1.
    cbn [or_else].
    do 12 (rewrite re_search_skip by reflexivity).
    rewrite (re_search_found v_path _ video_id); [reflexivity|].
    exact Hgroup.
  - cbn [append].
    do 46 (rewrite re_search_skip by reflexivity). rewrite N1.
    cbn [or_else].
    do 46 (rewrite re_search_skip by reflexivity). rewrite N2.
    cbn [or_else].
    do 12 (rewrite re_search_skip by reflexivity).
    apply re_search_found.
    change (any_then_v ("feature=share&" ++ "v=" ++ video_id)
            = Some video_id).
    apply any_then_v_after; [reflexivity|].
    cbn [append any_then_v]. rewrite (any_then_v_none _ Hv).
    cbn. exact Hgroup.
Qed.

Lemma extract_video_id_fallback_forms_witness :
  "abc123" <> "" /\ all_chars id_char "abc123" = true
  /\ str_in "youtu" "abc123" = false /\ str_in "v=" "abc123" = false
  /\ extract_video_id ("https://www.youtube.com/v/" ++ "abc123")
     = Some "abc123"
  /\ extract_video_id
       ("https://www.youtube.com/watch?feature=share&v=" ++ "abc123")
     = Some "abc123".
Proof.
  assert (Hne : "abc123" <> "") by discriminate.
  split; [exact Hne|]. do 3 (split; [reflexivity|]).
  exact (extract_video_id_fallback_forms "abc123" Hne eq_refl eq_refl
           eq_refl).
Defined.

(** The greedy star of the third pattern prefers the last [v=] of the line,
    and the first pattern is tried on the whole URL before the third. *)
Example extract_video_id_precedence :
  extract_video_id "https://www.youtube.com/watch?a=1&v=first&v=second"
  = Some "second"
  /\ extract_video_id "https://www.youtube.com/watch?u=youtu.be/x&v=abc123"
     = Some "x"
  /\ extract_video_id "https://www.youtube.com/watch?v=" = None.
Proof. repeat split. Qed.

(** ** File names *)

Lemma word_not_separator (c : ascii) :
  is_word c = true -> is_separator c = false.
Proof.
  destruct c as [[] [] [] [] [] [] [] []]; vm_compute; congruence.
Qed.

Lemma collapse_runs_word (in_run : bool) (s : string) :
  all_chars is_word (collapse_runs in_run
                       (keep_chars (fun c => is_word c || is_separator c) s))
  = true.
Proof.
  revert in_run. induction s as [|c s IH]; intros in_run; [reflexivity|].
  cbn [keep_chars]. destruct (is_word c) eqn:Hw; cbn [orb].
  - cbn [collapse_runs]. rewrite (word_not_separator c Hw).
    cbn [all_chars]. now rewrite Hw, IH.
  - destruct (is_separator c) eqn:Hs; [|apply IH].
    cbn [collapse_runs]. rewrite Hs.
    destruct in_run; [apply IH|]. cbn [all_chars]. now rewrite IH.
Qed.

Lemma safe_title_fixed (s : string) :
  all_chars is_word s = true ->
  forall in_run,
    collapse_runs in_run
      (keep_chars (fun c => is_word c || is_separator c) s) = s.
Proof.
  induction s as [|c s IH]; intros Hs in_run; [reflexivity|].
  cbn [all_chars] in Hs. apply andb_true_iff in Hs as [Hc Hs].
  cbn [keep_chars]. rewrite Hc. cbn [orb collapse_runs].
  rewrite (word_not_separator c Hc). now rewrite (IH Hs).
Qed.

(** The title part of a transcript's file name consists of word
    characters only (no path separator, dot, hyphen or white space), and
    cleaning a cleaned title changes nothing. *)
Theorem safe_title_word_chars (title : string) :
  all_chars is_word (safe_title title) = true
  /\ str_in "/" (safe_title title) = false
  /\ safe_title (safe_title title) = safe_title title.
Proof.
  pose proof (collapse_runs_word false title) as Hw.
  fold (safe_title title) in Hw.
  split; [exact Hw|]. split.
  - destruct (str_in "/" (safe_title title)) eqn:Hin; [|reflexivity].
    apply str_in_spec in Hin as (a & b & Hab). rewrite Hab in Hw.
    rewrite all_chars_app in Hw. apply andb_true_iff in Hw as [_ Hw].
    cbn in Hw. discriminate Hw.
  - unfold safe_title at 1. now apply safe_title_fixed.
Qed.

Example safe_title_example :
  safe_title "Daf Yomi - Yoma 2a: the lottery (part 1/2)"
  = "Daf_Yomi_Yoma_2a_the_lottery_part_12".
Proof. reflexivity. Qed.

(** ** The classifier *)

Lemma first_tractate_first (before after : PatternTable)
  (tractate : string) (patterns : list string) (combined : string) :
  (forall t ps p, In (t, ps) before -> In p ps -> str_in p combined = false)
  -> (exists p, In p patterns /\ str_in p combined = true) ->
  first_tractate (before ++ (tractate, patterns) :: after)%list combined
  = Some tractate.
Proof.
  intros Hb (p & Hp & Hin).
  induction before as [|[t ps] before IH]; cbn [app first_tractate].
  - replace (existsb (fun pattern => str_in pattern combined) patterns)
      with true; [reflexivity|].
    symmetry. apply existsb_exists. now exists p.
  - destruct (existsb (fun pattern => str_in pattern combined) ps) eqn:Hex.
    + apply existsb_exists in Hex as (q & Hq & Hqin).
      rewrite (Hb t ps q) in Hqin; [discriminate | now left | exact Hq].
    + apply IH. intros t' ps' q Ht Hq. apply (Hb t' ps' q); [now right|].
      exact Hq.
Qed.

(** First match wins: an entry of the table one of whose patterns occurs
    in the text gives the category when no pattern of an earlier entry
    occurs, whatever the later entries hold and wherever in the text the
    patterns stand. *)
Theorem classify_video_first_match (before after : PatternTable)
  (tractate : string) (patterns : list string) (title description : string) :
  let combined := combined_text title description in
  (forall t ps p, In (t, ps) before -> In p ps -> str_in p combined = false)
  -> (exists p, In p patterns /\ str_in p combined = true) ->
  classify_video (before ++ (tractate, patterns) :: after)%list title
    description
  = (tractate, series_type_of combined).
Proof.
  cbn zeta. intros Hb Hp. unfold classify_video.
  now rewrite (first_tractate_first before after tractate patterns _ Hb Hp).
Qed.

Lemma classify_video_first_match_witness :
  let table := [("Sukkah", ["sukkah"]); ("Yoma", ["yoma"])] in
  (forall t ps p, In (t, ps) (@nil (string * list string)) -> In p ps ->
      str_in p (combined_text "Yoma and Sukkah shiur" "") = false)
  /\ (exists p, In p ["sukkah"]
                /\ str_in p (combined_text "Yoma and Sukkah shiur" "") = true)
  /\ classify_video table "Yoma and Sukkah shiur" "" = ("Sukkah", "Shiurim").
Proof.
  intros table.
  assert (Hb : forall t ps p, In (t, ps) (@nil (string * list string)) ->
                 In p ps ->
                 str_in p (combined_text "Yoma and Sukkah shiur" "") = false)
    by (intros t ps p []).
  assert (Hp : exists p, In p ["sukkah"]
                /\ str_in p (combined_text "Yoma and Sukkah shiur" "") = true)
    by (exists "sukkah"; split; [now left | reflexivity]).
  split; [exact Hb|]. split; [exact Hp|].
  exact (classify_video_first_match [] [("Yoma", ["yoma"])] "Sukkah"
           ["sukkah"] "Yoma and Sukkah shiur" "" Hb Hp).
Defined.

Lemma first_tractate_in (table : PatternTable) (combined tractate : string) :
  first_tractate table combined = Some tractate ->
  In tractate (map fst table).
Proof.
  induction table as [|[t ps] rest IH]; cbn [first_tractate map fst];
    [discriminate|].
  destruct (existsb _ ps).
  - intros [= ->]. now left.
  - intros H. right. now apply IH.
Qed.

(** The labels the classifier can give: a category of the table with one
    of the four series, or one of three fixed pairs.  An item no table
    entry matches is never filed as [Shiurim] or [Lectures]. *)
Theorem classify_video_range (table : PatternTable)
  (title description : string) :
  let cls := classify_video table title description in
  (In (fst cls) (map fst table) /\ In (snd cls) series_types)
  \/ cls = ("Unclassified", "Daf_Yomi")
  \/ cls = ("Special_Series", "Events")
  \/ cls = ("Unclassified", "General").
Proof.
  cbn zeta. unfold classify_video.
  destruct (first_tractate table (combined_text title description))
    as [tractate|] eqn:Hf.
  - left. cbn [fst snd]. split; [exact (first_tractate_in _ _ _ Hf)|].
    unfold series_type_of, series_types.
    destruct (str_in "daf yomi" _); [cbn; auto|].
    destruct (str_in "shiur" _); [cbn; auto|].
    destruct (str_in "lecture" _); cbn; auto.
  - right. destruct (str_in "daf yomi" _); [now left|].
    destruct (has_override_keyword _); auto.
Qed.

Lemma lower_char_idem (c : ascii) : lower_char (lower_char c) = lower_char c.
Proof. destruct c as [[] [] [] [] [] [] [] []]; reflexivity. Qed.

Lemma lower_idem (s : string) : lower (lower s) = lower s.
Proof.
  induction s as [|c s IH]; cbn [lower]; [reflexivity|].
  now rewrite lower_char_idem, IH.
Qed.

Lemma lower_app (a b : string) : lower (a ++ b) = lower a ++ lower b.
Proof.
  induction a as [|c a IH]; cbn [append lower]; [reflexivity|].
  now rewrite IH.
Qed.

Lemma lower_length (s : string) : String.length (lower s) = String.length s.
Proof.
  induction s as [|c s IH]; cbn [lower String.length]; [reflexivity|].
  now rewrite IH.
Qed.

Lemma append_inj (a a' b b' : string) :
  String.length a = String.length a' -> a ++ b = a' ++ b' ->
  a = a' /\ b = b'.
Proof.
  revert a'. induction a as [|c a IH]; intros [|c' a'] Hl H;
    try discriminate Hl.
  - now split.
  - cbn in Hl, H. injection Hl as Hl. injection H as -> H.
    destruct (IH a' Hl H) as [-> ->]. now split.
Qed.

Lemma combined_text_lower (title description : string) :
  lower (combined_text title description) = combined_text title description.
Proof.
  unfold combined_text. rewrite !lower_app, !lower_idem. reflexivity.
Qed.

(** The text is lower-cased and the patterns are not: a pattern with an
    upper-case letter is never found, in any title or description. *)
Theorem uppercase_pattern_never_matches (pattern title description : string) :
  lower pattern <> pattern ->
  str_in pattern (combined_text title description) = false.
Proof.
  intros Hup.
  destruct (str_in pattern (combined_text title description)) eqn:Hin;
    [|reflexivity].
  apply str_in_spec in Hin as (a & b & Hab).
  pose proof (combined_text_lower title description) as Hl.
  rewrite Hab, !lower_app in Hl.
  apply append_inj in Hl as [_ Hl]; [|apply lower_length].
  apply append_inj in Hl as [Hl _]; [|apply lower_length].
  now elim Hup.
Qed.

Lemma uppercase_pattern_never_matches_witness :
  lower "Yoma" <> "Yoma"
  /\ str_in "Yoma" (combined_text "Yoma 2a" "Daf Yomi") = false.
Proof.
  assert (Hup : lower "Yoma" <> "Yoma") by discriminate.
  split; [exact Hup|].
  exact (uppercase_pattern_never_matches "Yoma" "Yoma 2a" "Daf Yomi" Hup).
Defined.

(** ** The channel listing *)

Lemma cap_videos_app_reached (max_results : option Z)
  (l more : list Video) :
  reached max_results (Z.of_nat (List.length (cap_videos max_results l)))
  = true ->
  cap_videos max_results (l ++ more)%list = cap_videos max_results l.
Proof.
  unfold reached, cap_videos. destruct max_results as [n|]; [|discriminate].
  destruct (n =? 0); [discriminate|]. cbn [negb andb]. intros H.
  apply Z.leb_le in H. rewrite length_firstn in H.
  rewrite firstn_app.
  replace (Z.to_nat n - List.length l)%nat with 0%nat by lia.
  cbn. now rewrite app_nil_r.
Qed.

Lemma cap_videos_not_reached (max_results : option Z) (l : list Video) :
  reached max_results (Z.of_nat (List.length (cap_videos max_results l)))
  = false ->
  cap_videos max_results l = l.
Proof.
  unfold reached, cap_videos. destruct max_results as [n|]; [|reflexivity].
  destruct (n =? 0); [reflexivity|]. cbn [negb andb]. intros H.
  apply Z.leb_gt in H. rewrite length_firstn in H.
  apply firstn_all2. lia.
Qed.

Lemma cap_videos_idem (max_results : option Z) (l : list Video) :
  cap_videos max_results (cap_videos max_results l) = cap_videos max_results l.
Proof.
  unfold cap_videos. destruct max_results as [n|]; [|reflexivity].
  destruct (n =? 0); [reflexivity|].
  rewrite firstn_firstn. now rewrite Nat.min_id.
Qed.

Lemma cap_videos_room (max_results : option Z) (videos : list Video)
  (v : Video) :
  cap_videos max_results videos = videos ->
  reached max_results (Z.of_nat (List.length videos)) = false ->
  cap_videos max_results (videos ++ [v])%list = (videos ++ [v])%list.
Proof.
  unfold reached, cap_videos. destruct max_results as [n|]; [|reflexivity].
  destruct (n =? 0); [reflexivity|]. cbn [negb andb]. intros _ H.
  apply Z.leb_gt in H. apply firstn_all2. rewrite length_app. cbn. lia.
Qed.

Lemma page_items_spec (max_results : option Z) (items : list PlaylistItem)
  (videos : list Video) :
  cap_videos max_results videos = videos ->
  let all := (videos ++ map video_of_item items)%list in
  page_items max_results items videos (Z.of_nat (List.length videos))
  = (cap_videos max_results all,
     Z.of_nat (List.length (cap_videos max_results all))).
Proof.
  cbn zeta. revert videos.
  induction items as [|item items IH]; intros videos Hcap.
  - cbn. now rewrite app_nil_r, Hcap.
  - cbn [page_items map].
    destruct (reached max_results (Z.of_nat (List.length videos))) eqn:Hr.
    + rewrite <- Hcap in Hr.
      rewrite (cap_videos_app_reached _ _ _ Hr), Hcap. reflexivity.
    + pose proof (cap_videos_room _ _ (video_of_item item) Hcap Hr) as Hc.
      replace (Z.of_nat (List.length videos) + 1)
        with (Z.of_nat (List.length (videos ++ [video_of_item item])%list))
        by (rewrite length_app; cbn; lia).
      rewrite (IH _ Hc), <- app_assoc. reflexivity.
Qed.

Lemma fetch_pages_videos (max_results : option Z)
  (next_pages : list (list PlaylistItem)) :
  forall (page : list PlaylistItem) (videos : list Video) (requests : nat),
    cap_videos max_results videos = videos ->
    fst (fetch_pages max_results page next_pages videos
           (Z.of_nat (List.length videos)) requests)
    = cap_videos max_results
        (videos ++ map video_of_item (List.concat (page :: next_pages)))%list.
Proof.
  induction next_pages as [|next later IH]; intros page videos requests Hcap;
    cbn [fetch_pages]; rewrite (page_items_spec _ _ _ Hcap); cbn zeta.
  - cbn. now rewrite app_nil_r.
  - cbn [List.concat]. rewrite map_app, app_assoc.
    set (l := (videos ++ map video_of_item page)%list).
    destruct (reached max_results
                (Z.of_nat (List.length (cap_videos max_results l)))) eqn:Hr.
    + cbn [fst]. now rewrite (cap_videos_app_reached _ _ _ Hr).
    + rewrite (IH next _ _ (cap_videos_idem _ _)).
      now rewrite (cap_videos_not_reached _ _ Hr).
Qed.

Lemma fetch_pages_requests (n : Z) (next_pages : list (list PlaylistItem)) :
  0 < n ->
  forall (page : list PlaylistItem) (videos : list Video) (requests : nat),
    cap_videos (Some n) videos = videos ->
    Z.of_nat (List.length videos) < n ->
    let r := snd (fetch_pages (Some n) page next_pages videos
                    (Z.of_nat (List.length videos)) requests) in
    (requests <= r <= requests + List.length next_pages)%nat
    /\ Z.of_nat (List.length videos
                 + List.length
                     (List.concat (firstn (r - requests) (page :: next_pages))))
       < n.
Proof.
  intros Hn. cbn zeta.
  induction next_pages as [|next later IH];
    intros page videos requests Hcap Hlt;
    cbn [fetch_pages]; rewrite (page_items_spec _ _ _ Hcap); cbn zeta.
  - cbn [snd]. rewrite Nat.sub_diag. cbn. lia.
  - set (l := (videos ++ map video_of_item page)%list).
    destruct (reached (Some n)
                (Z.of_nat (List.length (cap_videos (Some n) l)))) eqn:Hr.
    + cbn [snd]. rewrite Nat.sub_diag. cbn. lia.
    + pose proof (cap_videos_not_reached _ _ Hr) as Hl. rewrite Hl in Hr |- *.
      assert (Hlt' : Z.of_nat (List.length l) < n).
      { unfold reached in Hr. destruct (n =? 0) eqn:H0; [lia|].
        cbn in Hr. now apply Z.leb_gt in Hr. }
      destruct (IH next l (S requests) Hl Hlt') as ((Hlo & Hhi) & Hcount).
      set (r := snd (fetch_pages (Some n) next later l
                       (Z.of_nat (List.length l)) (S requests))) in *.
      split; [cbn [List.length]; lia|].
      replace (r - requests)%nat with (S (r - S requests)) by lia.
      cbn [firstn List.concat]. rewrite length_app.
      unfold l in Hcount. rewrite length_app, length_map in Hcount. lia.
Qed.

(** The pages of the uploads playlist are flattened in order and cut at
    [max_results]; there is one request per page at most, and with a
    positive [max_results] a further page is requested only while the pages
    received so far hold fewer items than that. *)
Theorem uploads_loop_flattens (max_results : option Z)
  (page : list PlaylistItem) (next_pages : list (list PlaylistItem)) :
  let out := uploads_loop max_results page next_pages in
  fst out
  = cap_videos max_results
      (map video_of_item (List.concat (page :: next_pages)))
  /\ (forall n, max_results = Some n -> 0 < n ->
        (1 <= snd out <= 1 + List.length next_pages)%nat
        /\ Z.of_nat
             (List.length
                (List.concat (firstn (snd out - 1) (page :: next_pages))))
           < n).
Proof.
  cbn zeta. unfold uploads_loop. split.
  - apply (fetch_pages_videos max_results next_pages page [] 1).
    unfold cap_videos. destruct max_results as [n|]; [|reflexivity].
    destruct (n =? 0); [reflexivity | apply firstn_nil].
  - intros n -> Hn.
    assert (Hcap : cap_videos (Some n) [] = []).
    { unfold cap_videos. destruct (n =? 0); [reflexivity | apply firstn_nil]. }
    exact (fetch_pages_requests n next_pages Hn page [] 1 Hcap Hn).
Qed.

Lemma uploads_loop_flattens_witness :
  let item := fun video_id => mkPlaylistItem video_id "Yoma" "" "" None in
  let out := uploads_loop (Some 3) [item "a"; item "b"]
               [[item "c"; item "d"]; [item "e"]] in
  0 < 3
  /\ video_ids (fst out) = ["a"; "b"; "c"]
  /\ (1 <= snd out <= 1 + 2)%nat
  /\ Z.of_nat (List.length
                 (List.concat
                    (firstn (snd out - 1)
                       [[item "a"; item "b"]; [item "c"; item "d"];
                        [item "e"]])))
     < 3.
Proof.
  intros item out.
  pose proof (uploads_loop_flattens (Some 3) [item "a"; item "b"]
                [[item "c"; item "d"]; [item "e"]]) as (Hv & Hr).
  split; [lia|]. split; [fold out in Hv; rewrite Hv; reflexivity|].
  exact (Hr 3 eq_refl ltac:(lia)).
Defined.

(** ** Transcripts, metadata and durations *)

Section TranscriptFacts.

Variable E : Env.
Variable self : Extractor.

Lemma find_transcript_some (tl : list (Transcript (pynum E)))
  (lang : string) (t : Transcript (pynum E)) :
  find_transcript tl lang = Some t -> speaks tl lang.
Proof.
  intros H. apply find_some in H as [Hin Hcode].
  apply String.eqb_eq in Hcode. now exists t.
Qed.

Lemma find_transcript_none (tl : list (Transcript (pynum E)))
  (lang : string) :
  find_transcript tl lang = None -> ~ speaks tl lang.
Proof.
  intros H (t & Hin & Hcode).
  pose proof (find_none _ _ H t Hin) as Hf. cbn in Hf.
  apply String.eqb_neq in Hf. contradiction.
Qed.

Lemma preferred_transcript_spec (tl : list (Transcript (pynum E)))
  (langs : list string) :
  match preferred_transcript tl langs with
  | Some (lang, t) =>
      exists pre post,
        langs = (pre ++ lang :: post)%list
        /\ (forall l, In l pre -> ~ speaks tl l)
        /\ In t tl /\ language_code t = lang
  | None => forall l, In l langs -> ~ speaks tl l
  end.
Proof.
  induction langs as [|lang langs IH]; cbn [preferred_transcript].
  - intros l [].
  - destruct (find_transcript tl lang) as [t|] eqn:Hf.
    + exists [], langs. split; [reflexivity|]. split; [intros l []|].
      apply find_some in Hf as [Hin Hcode].
      apply String.eqb_eq in Hcode. now split.
    + apply find_transcript_none in Hf.
      destruct (preferred_transcript tl langs) as [[lang' t]|].
      * destruct IH as (pre & post & -> & Hpre & Ht).
        exists (lang :: pre), post. split; [reflexivity|].
        split; [|exact Ht]. intros l [<- | Hl]; [exact Hf | now apply Hpre].
      * intros l [<- | Hl]; [exact Hf | now apply IH].
Qed.

(** The language of an extraction: the first language of the priority
    list in which the listing has a transcript; or, when it has one in
    none of them, the language of the first transcript listed; and no
    language only when the listing is empty. *)
Theorem extract_transcript_language (tl : list (Transcript (pynum E))) :
  match language (snd (extract_transcript E (Ok tl))) with
  | Some lang =>
      (exists pre post,
          language_priorities = (pre ++ lang :: post)%list
          /\ speaks tl lang /\ forall l, In l pre -> ~ speaks tl l)
      \/ ((forall l, In l language_priorities -> ~ speaks tl l)
          /\ exists t rest, tl = t :: rest /\ lang = language_code t)
  | None => tl = []
  end.
Proof.
  unfold extract_transcript.
  pose proof (preferred_transcript_spec tl language_priorities) as Hp.
  destruct (preferred_transcript tl language_priorities) as [[lang t]|].
  - destruct Hp as (pre & post & Hl & Hpre & Hin & Hcode).
    assert (Hgoal : (exists pre post,
                        language_priorities = (pre ++ lang :: post)%list
                        /\ speaks tl lang
                        /\ forall l, In l pre -> ~ speaks tl l)
                    \/ ((forall l, In l language_priorities -> ~ speaks tl l)
                        /\ exists t rest,
                             tl = t :: rest /\ lang = language_code t)).
    { left. exists pre, post. repeat split; try assumption. now exists t. }
    destruct (fetch t) as [[|entry d]|e]; exact Hgoal.
  - destruct tl as [|t rest]; [reflexivity|].
    assert (Hgoal : (exists pre post,
                        language_priorities
                        = (pre ++ language_code t :: post)%list
                        /\ speaks (t :: rest) (language_code t)
                        /\ forall l, In l pre -> ~ speaks (t :: rest) l)
                    \/ ((forall l, In l language_priorities ->
                                   ~ speaks (t :: rest) l)
                        /\ exists t' rest',
                             t :: rest = t' :: rest'
                             /\ language_code t = language_code t')).
    { right. split; [exact Hp|]. now exists t, rest. }
    destruct (fetch t) as [[|entry d]|e]; exact Hgoal.
Qed.

(** The result of an extraction is of one of two shapes: a success with
    text, data and no error message, or a failure with an error message,
    no text, no data and a word count of zero. *)
Theorem extract_transcript_outcome
  (listing : pyresult (list (Transcript (pynum E)))) :
  let '(text, data, meta) := extract_transcript E listing in
  (success meta = true /\ error meta = None
   /\ (exists t, text = Some t) /\ (exists d, d <> [] /\ data = Some d))
  \/ (success meta = false /\ (exists msg, error meta = Some msg)
      /\ text = None /\ data = None /\ word_count meta = 0%nat).
Proof.
  unfold extract_transcript.
  destruct listing as [tl|e].
  2:{ right. repeat split. now exists e. }
  destruct (match preferred_transcript tl language_priorities with
            | Some (lang, t) => Some (lang, t)
            | None => match tl with
                      | t :: _ => Some (language_code t, t)
                      | [] => None
                      end
            end) as [[lang t]|].
  2:{ right. repeat split. eexists; reflexivity. }
  destruct (fetch t) as [[|entry d]|e].
  - right. repeat split. eexists; reflexivity.
  - left. repeat split; [eexists; reflexivity|].
    exists (entry :: d). split; [discriminate | reflexivity].
  - right. repeat split. now exists e.
Qed.

(** Metadata enrichment is best effort: it keeps the item's identifier and
    URL, leaves the progress dictionary and the failure list alone, and
    either changes nothing in the item or adds details whose
    [duration_seconds] is the parse of their [duration]. *)
Theorem enrich_best_effort (st : State E) (v : Video) :
  let out := enrich E self (v_video_id v) v st in
  v_video_id (fst out) = v_video_id v
  /\ v_url (fst out) = v_url v
  /\ progress (snd out) = progress st
  /\ self_failed_videos (snd out) = self_failed_videos st
  /\ (fst out = v
      \/ exists d,
           v_detail (fst out) = Some d
           /\ d_duration_seconds d = parse_duration (d_duration d)).
Proof.
  cbn zeta.
  destruct (enrich_quiet E self (v_video_id v) v st) as (_ & Hp & Hf).
  split; [|split; [|split; [exact Hp | split; [exact Hf|]]]];
    unfold enrich, get_video_metadata;
    destruct (youtube_service self); cbn [negb fst]; try reflexivity;
    try (now left);
    destruct (videos_list E (v_video_id v) _) as [[[|item items]|e] w1];
    cbn [fst]; try reflexivity; try (now left).
  right. eexists. split; reflexivity.
Qed.

(** Without a saved cursor in the way, a run takes through the state
    machine exactly the items it computed as remaining, each once and in
    listing order: all of them on a fresh run, those not yet completed on
    a resumed one. *)
Theorem run_enters_remaining (max_videos : option Z) (resume : bool)
  (w : World E) (p : Progress) (vs : list Video) (st1 : State E) :
  initial_progress E resume w = Ok p ->
  get_channel_videos E self max_videos (mkState E w p [] []) = (vs, st1) ->
  0 < batch_size (config self) ->
  NoDup (video_ids vs) ->
  (resume = true -> last_batch p < 1) ->
  let run := run_extraction E self max_videos resume w in
  entered (trace (final run))
  = video_ids (remaining_of resume (completed_videos p) vs)
  /\ (resume = false -> entered (trace (final run)) = video_ids vs).
Proof.
  intros Hp Hv Hbs Hnd Hlast. cbn zeta.
  assert (Hfresh : resume = false ->
                   remaining_of resume (completed_videos p) vs = vs).
  { intros ->. reflexivity. }
  assert (Hmain : entered (trace (final (run_extraction E self max_videos
                                           resume w)))
                  = video_ids (remaining_of resume (completed_videos p) vs)).
  2:{ split; [exact Hmain|]. intros Hr. now rewrite Hmain, (Hfresh Hr). }
  clear Hfresh.
  destruct (run_extraction_unfold E self max_videos resume w p vs st1 Hp Hv)
    as (P1 & T1 & _ & Hrun).
  cbn zeta in Hrun. rewrite Hrun. clear Hrun.
  destruct (remaining_of_spec resume (completed_videos p) vs)
    as (_ & Hnd' & Hids).
  specialize (Hnd' Hnd).
  assert (Hnew : forall x,
             In x (video_ids (remaining_of resume (completed_videos p) vs)) ->
             ~ In x (completed_videos (progress st1))).
  { rewrite P1. destruct resume.
    - rewrite (Hids eq_refl). intros x Hx.
      apply filter_In in Hx as [_ Hx]. apply negb_true_iff in Hx.
      now apply id_in_false.
    - intros x _. unfold initial_progress in Hp. cbn in Hp.
      destruct (now E w); injection Hp as <-; intros []. }
  destruct vs as [|v vs'].
  { rewrite remaining_of_nil. cbn. now rewrite T1. }
  destruct (remaining_of resume (completed_videos p) (v :: vs'))
    as [|r rs] eqn:Hrem.
  { cbn. now rewrite T1. }
  replace (batch_size (config self) =? 0) with false
    by (symmetry; apply Z.eqb_neq; lia).
  destruct (run_batches_entered E self resume (r :: rs) st1 Hbs Hnd' Hnew)
    as (He & _).
  { rewrite P1. exact Hlast. }
  cbn zeta in He.
  destruct (run_batches E self resume (r :: rs) st1) as [st2 res2].
  destruct (finish_run_observed E st2 res2 []) as (-> & _).
  cbn [fst] in He. now rewrite He, T1.
Qed.

End TranscriptFacts.

Lemma run_enters_remaining_witness :
  let p := mkProgress ["b"] [] 0 1 (Some "2024-01-01T00:00:00") in
  let E := resumed_env p abc in
  let self := default_extractor 2 3 in
  let run := run_extraction E self None true 0%nat in
  0 < batch_size (config self)
  /\ NoDup (video_ids abc)
  /\ last_batch p < 1
  /\ entered (trace (final run)) = ["a"; "c"].
Proof.
  intros p E self run.
  assert (Hbs : 0 < batch_size (config self)) by (cbn; lia).
  assert (Hnd : NoDup (video_ids abc)).
  { repeat constructor; cbn; intuition discriminate. }
  assert (Hl : last_batch p < 1) by (cbn; lia).
  split; [exact Hbs|]. split; [exact Hnd|]. split; [exact Hl|].
  exact (proj1 (run_enters_remaining E self None true 0%nat p abc
                  (mkState E 0%nat p [] []) eq_refl eq_refl Hbs Hnd
                  (fun _ => Hl))).
Defined.

Lemma match_unit_nondigit (u c : ascii) (rest : string) :
  is_digit c = false -> match_unit u (String c rest) = (None, String c rest).
Proof. intros Hc. unfold match_unit. cbn [span_digits]. now rewrite Hc. Qed.

(** The pattern is matched at the start of the string and what follows
    the units is not looked at: text after a duration token changes
    nothing, provided it does not begin with a digit. *)
Theorem parse_duration_trailing (h m sec : option string) (rest : string) :
  valid_unit h -> valid_unit m -> valid_unit sec -> no_digit_ahead rest ->
  parse_duration (duration_token h m sec ++ rest)
  = parse_duration (duration_token h m sec).
Proof.
  intros Hh Hm Hs Hr. unfold duration_token.
  repeat rewrite append_assoc. rewrite !parse_duration_PT.
  destruct rest as [|c rest]; [now rewrite !append_nil_r|].
  cbn [no_digit_ahead] in Hr.
  destruct h as [dh|], m as [dm|], sec as [ds|];
    cbn [valid_unit] in Hh, Hm, Hs;
    repeat match goal with H : _ /\ _ |- _ => destruct H end;
    cbn [unit_text]; repeat rewrite append_assoc;
    cbn [append]; repeat rewrite append_nil_r;
    repeat first
      [ rewrite match_unit_empty
      | rewrite match_unit_taken by (assumption || reflexivity)
      | rewrite match_unit_other
          by (assumption || reflexivity || discriminate)
      | rewrite (match_unit_nondigit _ c rest) by assumption ];
    reflexivity.
Qed.

Lemma parse_duration_trailing_witness :
  valid_unit (Some "1") /\ valid_unit (Some "30") /\ valid_unit None
  /\ no_digit_ahead ".5S"
  /\ parse_duration (duration_token (Some "1") (Some "30") None ++ ".5S")
     = parse_duration (duration_token (Some "1") (Some "30") None).
Proof.
  assert (H1 : valid_unit (Some "1")) by (split; [discriminate|reflexivity]).
  assert (H2 : valid_unit (Some "30")) by (split; [discriminate|reflexivity]).
  split; [exact H1|]. split; [exact H2|]. split; [exact I|].
  split; [reflexivity|].
  exact (parse_duration_trailing (Some "1") (Some "30") None ".5S" H1 H2 I
           eq_refl).
Defined.

(** ** The progress file *)

Section Durability.

Variable E : Env.
Variable self : Extractor.


(** A completed run leaves no progress file behind, so the run after it
    loads a fresh dictionary and starts over. *)
Theorem completed_run_clears_progress_file (max_videos : option Z)
  (resume : bool) (w : World E) :
  (forall w', progress_file E (rename_progress_file E w') = Absent) ->
  let run := run_extraction E self max_videos resume w in
  status run = Completed ->
  progress_file E (world (final run)) = Absent
  /\ load_progress (progress_file E (world (final run)))
     = Ok (fresh_progress None).
Proof.
  intros Hrename. cbn zeta. intros Hdone.
  assert (Habs : progress_file E
                   (world (final (run_extraction E self max_videos resume w)))
                 = Absent).
  2:{ split; [exact Habs|]. now rewrite Habs. }
  destruct (run_extraction_cases E self max_videos resume w)
    as (p & vs & st1 & _ & _ & _ & _ & _ & Hrun).
  cbn zeta in Hrun. destruct Hrun as [(_ & _ & Hst) | (_ & _ & Hrun)].
  { rewrite Hdone in Hst.
    destruct Hst as [(Hs & _) | [(Hs & _) | (Hs & _)]]; discriminate Hs. }
  rewrite Hrun in Hdone |- *.
  destruct (run_batches E self resume _ st1) as [st2 res2].
  unfold finish_run in Hdone |- *.
  cbn [self_failed_videos world emit] in Hdone |- *.
  destruct (write_reports E res2 (self_failed_videos st2) (world st2))
    as [[[]|e] w1]; [destruct res2 as [|r res2]|]; cbn in Hdone |- *;
    try discriminate Hdone.
  destruct (progress_file E w1) eqn:Hfile; cbn; [exact Hfile|].
  apply Hrename.
Qed.

End Durability.


Lemma completed_run_clears_progress_file_witness :
  let E := storing_env abc in
  let run := run_extraction E (default_extractor 2 3) None true Absent in
  (forall w', progress_file E (rename_progress_file E w') = Absent)
  /\ status run = Completed
  /\ progress_file E (world (final run)) = Absent
  /\ load_progress (progress_file E (world (final run)))
     = Ok (fresh_progress None).
Proof.
  intros E run.
  assert (Hrename : forall w', progress_file E (rename_progress_file E w')
                               = Absent)
    by reflexivity.
  split; [exact Hrename|]. split; [reflexivity|].
  exact (completed_run_clears_progress_file E (default_extractor 2 3) None
           true Absent Hrename eq_refl).
Defined.

(** Two runs in a row on a file system that keeps what is written: the
    first completes and renames the file, so the second finds no progress
    and processes every item again. *)
Example completed_then_rerun :
  let E := storing_env abc in
  let self := default_extractor 2 3 in
  let first := run_extraction E self None true Absent in
  let second := run_extraction E self None true (world (final first)) in
  status first = Completed
  /\ completed_videos (progress (final first)) = ["a"; "b"; "c"]
  /\ entered (trace (final second)) = ["a"; "b"; "c"].
Proof. vm_compute. repeat split. Qed.
